(** * Contour terminal core: function table, line storage, cells and sequencer

    A shallow embedding of the parts of the contour terminal emulator that
    its design document makes claims about, and of the code around them,
    followed by the theorems that settle those claims and by further
    properties of the code.

    Conventions.
    - [char], [uint8_t], [uint16_t], [int], [size_t] and [char32_t] values
      are integers in [Z]; where the source relies on an unsigned conversion
      the wrap-around is written out ([to_size_t]).
    - [std::string], [std::string_view] and [std::u32string_view] are lists
      of integers (bytes, respectively code points).
    - [std::vector] is a list, indexed with stdpp's lookup.
    - [std::optional] and nullable pointers are [option].
    - Mutating member functions return the new object. *)

From Stdlib Require Import ZArith List String Ascii Bool Lia Sorted.
From stdpp Require Import base list.
Import ListNotations.

Local Open Scope Z_scope.

(** Code of an ASCII character literal. *)
Definition chr (c : ascii) : Z := Z.of_N (N_of_ascii c).
Arguments chr c%_char.

(** Conversion of an [int] to [size_t] (64 bits). *)
Definition to_size_t (x : Z) : Z := x mod 2 ^ 64.

(** [std::string_view::npos]. *)
Definition npos : Z := 2 ^ 64 - 1.

(** Conversion to [uint32_t]. *)
Definition to_uint32 (x : Z) : Z := x mod 2 ^ 32.

(** The value of the [char] that holds the byte [x]; [char] is signed on
    the platforms the terminal is built for, so a byte from 0x80 on is a
    negative value. *)
Definition to_char (x : Z) : Z :=
  let byte := x mod 2 ^ 8 in
  if byte <? 2 ^ 7 then byte else byte - 2 ^ 8.

(** [static_cast<char32_t>] of a [char]: the conversion of its value to
    32 bits, which extends the sign of a byte from 0x80 on. *)
Definition char_to_char32 (ch : Z) : Z := to_uint32 (to_char ch).

(* ====================================================================== *)
(** * vtbackend/Functions.h *)
(* ====================================================================== *)

Module Functions.

(** [enum class FunctionCategory : uint8_t] *)
Inductive FunctionCategory : Set := C0 | ESC | CSI | OSC | DCS.

(** The enumerators' values, [static_cast<int>(category)]. *)
Definition category_int (c : FunctionCategory) : Z :=
  match c with
  | C0 => 0
  | ESC => 1
  | CSI => 2
  | OSC => 3
  | DCS => 4
  end.

(** Equality of categories, by their values. *)
Definition category_eqb (a b : FunctionCategory) : bool :=
  category_int a =? category_int b.

(** Modelled from the spec: [VTType] (VTType.h) is not among the sources
    embedded here.  It is the conformance-level metadata of a function; the
    enumerators are the ones the table uses. *)
Inductive VTType : Set := VT100 | VT220 | VT240 | VT320 | VT330 | VT420 | VT520.

(** Modelled from the spec: [VTExtension] (VTType.h) is not among the
    sources embedded here.  It names the extension a function belongs to;
    the enumerators are the ones the table uses. *)
Inductive VTExtension : Set := ExtNone | ExtUnknown | ExtXTerm | ExtContour.

(** Defines a function with all its syntax requirements plus some
    additional meta information. *)
Record FunctionDefinition : Set := mkFunctionDefinition {
  category : FunctionCategory;
  leader : Z;
  intermediate : Z;
  finalSymbol : Z;
  minimumParameters : Z;
  maximumParameters : Z;
  conformanceLevel : VTType;
  extension : VTExtension;
  mnemonic : string;
  comment : string
}.

(** [compare(FunctionDefinition const&, FunctionDefinition const&)] *)
Definition compare_definitions (a b : FunctionDefinition) : Z :=
  if negb (category_eqb (category a) (category b)) then
    category_int (category a) - category_int (category b)
  else if negb (finalSymbol a =? finalSymbol b) then
    finalSymbol a - finalSymbol b
  else if negb (leader a =? leader b) then
    leader a - leader b
  else if negb (intermediate a =? intermediate b) then
    intermediate a - intermediate b
  else if negb (minimumParameters a =? minimumParameters b) then
    minimumParameters a - minimumParameters b
  else
    maximumParameters a - maximumParameters b.

(** [struct FunctionSelector] *)
Record FunctionSelector : Set := mkFunctionSelector {
  sel_category : FunctionCategory;
  sel_leader : Z;
  sel_argc : Z;
  sel_intermediate : Z;
  sel_finalSymbol : Z
}.

(** [compare(FunctionSelector const&, FunctionDefinition const&)] *)
Definition compare (a : FunctionSelector) (b : FunctionDefinition) : Z :=
  if negb (category_eqb (sel_category a) (category b)) then
    category_int (sel_category a) - category_int (category b)
  else if negb (sel_finalSymbol a =? finalSymbol b) then
    sel_finalSymbol a - finalSymbol b
  else if negb (sel_leader a =? leader b) then
    sel_leader a - leader b
  else if negb (sel_intermediate a =? intermediate b) then
    sel_intermediate a - intermediate b
  else if category_eqb (sel_category a) OSC then
    sel_argc a - maximumParameters b
  else if sel_argc a <? minimumParameters b then
    -1
  else if sel_argc a >? maximumParameters b then
    1
  else
    0.

Local Open Scope string_scope.

(** [namespace detail]: the constructors of table entries.  The overloads
    of [CSI] and [DCS] that take a [VTExtension] are [CSI_ext] and
    [DCS_ext]. *)
Module detail.

(** [std::optional<char>::value_or] *)
Definition value_or (o : option Z) (d : Z) : Z :=
  match o with
  | Some v => v
  | None => d
  end.

(** [detail::C0] *)
Definition C0 (finalCharacter : Z) (mnemonic description : string) (vt : VTType)
  : FunctionDefinition :=
  mkFunctionDefinition C0 0 0 finalCharacter 0 0 vt ExtNone mnemonic description.

(** [detail::OSC] *)
Definition OSC (code : Z) (ext : VTExtension) (mnemonic description : string)
  : FunctionDefinition :=
  mkFunctionDefinition OSC 0 0 0 0 code VT100 ext mnemonic description.

(** [detail::ESC] *)
Definition ESC (intermediate : option Z) (finalCharacter : Z) (vt : VTType)
  (mnemonic description : string) : FunctionDefinition :=
  mkFunctionDefinition ESC 0 (value_or intermediate 0) finalCharacter 0 0
    vt ExtNone mnemonic description.

(** [detail::CSI], with an extension *)
Definition CSI_ext (leader : option Z) (argc0 argc1 : Z) (intermediate : option Z)
  (finalCharacter : Z) (ext : VTExtension) (mnemonic description : string)
  : FunctionDefinition :=
  mkFunctionDefinition CSI (value_or leader 0) (value_or intermediate 0)
    finalCharacter argc0 argc1 VT100 ext mnemonic description.

(** [detail::CSI], with a conformance level *)
Definition CSI (leader : option Z) (argc0 argc1 : Z) (intermediate : option Z)
  (finalCharacter : Z) (vt : VTType) (mnemonic description : string)
  : FunctionDefinition :=
  mkFunctionDefinition CSI (value_or leader 0) (value_or intermediate 0)
    finalCharacter argc0 argc1 vt ExtNone mnemonic description.

(** [detail::DCS], with an extension *)
Definition DCS_ext (leader : option Z) (argc0 argc1 : Z) (intermediate : option Z)
  (finalCharacter : Z) (ext : VTExtension) (mnemonic description : string)
  : FunctionDefinition :=
  mkFunctionDefinition DCS (value_or leader 0) (value_or intermediate 0)
    finalCharacter argc0 argc1 VT100 ext mnemonic description.

(** [detail::DCS], with a conformance level *)
Definition DCS (leader : option Z) (argc0 argc1 : Z) (intermediate : option Z)
  (finalCharacter : Z) (vt : VTType) (mnemonic description : string)
  : FunctionDefinition :=
  mkFunctionDefinition DCS (value_or leader 0) (value_or intermediate 0)
    finalCharacter argc0 argc1 vt ExtNone mnemonic description.

End detail.

(** C0 *)
Definition EOT : FunctionDefinition :=
  detail.C0 4 "EOT" "End of Transmission" VT100.
Definition BEL : FunctionDefinition :=
  detail.C0 7 "BEL" "Bell" VT100.
Definition BS : FunctionDefinition :=
  detail.C0 8 "BS" "Backspace" VT100.
Definition TAB : FunctionDefinition :=
  detail.C0 9 "TAB" "Tab" VT100.
Definition LF : FunctionDefinition :=
  detail.C0 10 "LF" "Line Feed" VT100.
Definition VT : FunctionDefinition :=
  detail.C0 11 "VT" "Vertical Tab" VT100.
Definition FF : FunctionDefinition :=
  detail.C0 12 "FF" "Form Feed" VT100.
Definition CR : FunctionDefinition :=
  detail.C0 13 "CR" "Carriage Return" VT100.
Definition LS1 : FunctionDefinition :=
  detail.C0 14 "LS1" "Shift Out; Maps G1 into GL." VT220.
Definition LS0 : FunctionDefinition :=
  detail.C0 15 "LS0" "Shift In; Maps G0 into GL (the default)." VT220.
(** ESC functions *)
Definition SCS_G0_SPECIAL : FunctionDefinition :=
  detail.ESC (Some (chr "(")) (chr "0") VT100 "SCS_G0_SPECIAL" "Set G0 to DEC Special Character and Line Drawing Set".
Definition SCS_G0_USASCII : FunctionDefinition :=
  detail.ESC (Some (chr "(")) (chr "B") VT100 "SCS_G0_USASCII" "Set G0 to USASCII".
Definition SCS_G1_SPECIAL : FunctionDefinition :=
  detail.ESC (Some (chr ")")) (chr "0") VT100 "SCS_G1_SPECIAL" "Set G1 to DEC Special Character and Line Drawing Set".
Definition SCS_G1_USASCII : FunctionDefinition :=
  detail.ESC (Some (chr ")")) (chr "B") VT100 "SCS_G1_USASCII" "Set G1 to USASCII".
Definition DECALN : FunctionDefinition :=
  detail.ESC (Some (chr "#")) (chr "8") VT100 "DECALN" "Screen Alignment Pattern".
Definition DECBI : FunctionDefinition :=
  detail.ESC None (chr "6") VT100 "DECBI" "Back Index".
Definition DECFI : FunctionDefinition :=
  detail.ESC None (chr "9") VT100 "DECFI" "Forward Index".
Definition DECKPAM : FunctionDefinition :=
  detail.ESC None (chr "=") VT100 "DECKPAM" "Keypad Application Mode".
Definition DECKPNM : FunctionDefinition :=
  detail.ESC None (chr ">") VT100 "DECKPNM" "Keypad Numeric Mode".
Definition DECRS : FunctionDefinition :=
  detail.ESC None (chr "8") VT100 "DECRS" "Restore Cursor".
Definition DECSC : FunctionDefinition :=
  detail.ESC None (chr "7") VT100 "DECSC" "Save Cursor".
Definition HTS : FunctionDefinition :=
  detail.ESC None (chr "H") VT100 "HTS" "Horizontal Tab Set".
Definition IND : FunctionDefinition :=
  detail.ESC None (chr "D") VT100 "IND" "Index".
Definition NEL : FunctionDefinition :=
  detail.ESC None (chr "E") VT100 "NEL" "Next Line".
Definition RI : FunctionDefinition :=
  detail.ESC None (chr "M") VT100 "RI" "Reverse Index".
Definition RIS : FunctionDefinition :=
  detail.ESC None (chr "c") VT100 "RIS" "Reset to Initial State (Hard Reset)".
Definition SS2 : FunctionDefinition :=
  detail.ESC None (chr "N") VT220 "SS2" "Single Shift Select (G2 Character Set)".
Definition SS3 : FunctionDefinition :=
  detail.ESC None (chr "O") VT220 "SS3" "Single Shift Select (G3 Character Set)".
(** CSI functions.  [ArgsMax] is the maximum number that fits into 7
    bits. *)
Definition ArgsMax : Z := 127.

Definition ANSISYSSC : FunctionDefinition :=
  detail.CSI None 0 0 None (chr "u") VT100 "ANSISYSSC" "Save Cursor (ANSI.SYS)".
Definition CBT : FunctionDefinition :=
  detail.CSI None 0 1 None (chr "Z") VT100 "CBT" "Cursor Backward Tabulation".
Definition CHA : FunctionDefinition :=
  detail.CSI None 0 1 None (chr "G") VT100 "CHA" "Move cursor to column".
Definition CHT : FunctionDefinition :=
  detail.CSI None 0 1 None (chr "I") VT100 "CHT" "Cursor Horizontal Forward Tabulation".
Definition CNL : FunctionDefinition :=
  detail.CSI None 0 1 None (chr "E") VT100 "CNL" "Move cursor to next line".
Definition CPL : FunctionDefinition :=
  detail.CSI None 0 1 None (chr "F") VT100 "CPL" "Move cursor to previous line".
Definition CPR : FunctionDefinition :=
  detail.CSI None 1 1 None (chr "n") VT100 "CPR" "Request Cursor position".
Definition CUB : FunctionDefinition :=
  detail.CSI None 0 1 None (chr "D") VT100 "CUB" "Move cursor backward".
Definition CUD : FunctionDefinition :=
  detail.CSI None 0 1 None (chr "B") VT100 "CUD" "Move cursor down".
Definition CUF : FunctionDefinition :=
  detail.CSI None 0 1 None (chr "C") VT100 "CUF" "Move cursor forward".
Definition CUP : FunctionDefinition :=
  detail.CSI None 0 2 None (chr "H") VT100 "CUP" "Move cursor to position".
Definition CUU : FunctionDefinition :=
  detail.CSI None 0 1 None (chr "A") VT100 "CUU" "Move cursor up".
Definition DA1 : FunctionDefinition :=
  detail.CSI None 0 1 None (chr "c") VT100 "DA1" "Send primary device attributes".
Definition DA2 : FunctionDefinition :=
  detail.CSI (Some (chr ">")) 0 1 None (chr "c") VT100 "DA2" "Send secondary device attributes".
Definition DA3 : FunctionDefinition :=
  detail.CSI (Some (chr "=")) 0 1 None (chr "c") VT100 "DA3" "Send tertiary device attributes".
Definition DCH : FunctionDefinition :=
  detail.CSI None 0 1 None (chr "P") VT100 "DCH" "Delete characters".
Definition DECCARA : FunctionDefinition :=
  detail.CSI None 5 ArgsMax (Some (chr "$")) (chr "r") VT420 "DECCARA" "Change Attributes in Rectangular Area".
Definition DECCRA : FunctionDefinition :=
  detail.CSI None 0 8 (Some (chr "$")) (chr "v") VT420 "DECCRA" "Copy rectangular area".
Definition DECERA : FunctionDefinition :=
  detail.CSI None 0 4 (Some (chr "$")) (chr "z") VT420 "DECERA" "Erase rectangular area".
Definition DECFRA : FunctionDefinition :=
  detail.CSI None 0 4 (Some (chr "$")) (chr "x") VT420 "DECFRA" "Fill rectangular area".
Definition DECDC : FunctionDefinition :=
  detail.CSI None 0 1 (Some (chr "039")) (chr "~") VT420 "DECDC" "Delete column".
Definition DECIC : FunctionDefinition :=
  detail.CSI None 0 1 (Some (chr "039")) (chr "}") VT420 "DECIC" "Insert column".
Definition DECSCA : FunctionDefinition :=
  detail.CSI None 0 1 (Some 34) (chr "q") VT240 "DECSCA" "Select Character Protection Attribute".
Definition DECSED : FunctionDefinition :=
  detail.CSI (Some (chr "?")) 0 1 None (chr "J") VT240 "DECSED" "Selective Erase in Display".
Definition DECSERA : FunctionDefinition :=
  detail.CSI None 0 4 (Some (chr "$")) (chr "{") VT240 "DECSERA" "Selective Erase in Rectangular Area".
Definition DECSEL : FunctionDefinition :=
  detail.CSI (Some (chr "?")) 0 1 None (chr "K") VT240 "DECSEL" "Selective Erase in Line".
Definition XTRESTORE : FunctionDefinition :=
  detail.CSI_ext (Some (chr "?")) 0 ArgsMax None (chr "r") ExtXTerm "XTRESTORE" "Restore DEC private modes.".
Definition XTSAVE : FunctionDefinition :=
  detail.CSI_ext (Some (chr "?")) 0 ArgsMax None (chr "s") ExtXTerm "XTSAVE" "Save DEC private modes.".
Definition DECRM : FunctionDefinition :=
  detail.CSI (Some (chr "?")) 1 ArgsMax None (chr "l") VT100 "DECRM" "Reset DEC-mode".
Definition DECRQM : FunctionDefinition :=
  detail.CSI (Some (chr "?")) 1 1 (Some (chr "$")) (chr "p") VT100 "DECRQM" "Request DEC-mode".
Definition DECRQM_ANSI : FunctionDefinition :=
  detail.CSI None 1 1 (Some (chr "$")) (chr "p") VT100 "DECRQM_ANSI" "Request ANSI-mode".
Definition DECRQPSR : FunctionDefinition :=
  detail.CSI None 1 1 (Some (chr "$")) (chr "w") VT320 "DECRQPSR" "Request presentation state report".
Definition DECSCL : FunctionDefinition :=
  detail.CSI None 2 2 (Some 34) (chr "p") VT220 "DECSCL" "Set conformance level (DECSCL), VT220 and up.".
Definition DECSCPP : FunctionDefinition :=
  detail.CSI None 0 1 (Some (chr "$")) (chr "|") VT100 "DECSCPP" "Select 80 or 132 Columns per Page".
Definition DECSNLS : FunctionDefinition :=
  detail.CSI None 0 1 (Some (chr "*")) (chr "|") VT420 "DECSNLS" "Select number of lines per screen.".
Definition DECSCUSR : FunctionDefinition :=
  detail.CSI None 0 1 (Some (chr " ")) (chr "q") VT520 "DECSCUSR" "Set Cursor Style".
Definition DECSLRM : FunctionDefinition :=
  detail.CSI None 2 2 None (chr "s") VT420 "DECSLRM" "Set left/right margin".
Definition DECSM : FunctionDefinition :=
  detail.CSI (Some (chr "?")) 1 ArgsMax None (chr "h") VT100 "DECSM" "Set DEC-mode".
Definition DECSTBM : FunctionDefinition :=
  detail.CSI None 0 2 None (chr "r") VT100 "DECSTBM" "Set top/bottom margin".
Definition DECSTR : FunctionDefinition :=
  detail.CSI None 0 0 (Some (chr "!")) (chr "p") VT100 "DECSTR" "Soft terminal reset".
Definition DECXCPR : FunctionDefinition :=
  detail.CSI None 0 0 None (chr "6") VT100 "DECXCPR" "Request extended cursor position".
Definition DL : FunctionDefinition :=
  detail.CSI None 0 1 None (chr "M") VT100 "DL" "Delete lines".
Definition ECH : FunctionDefinition :=
  detail.CSI None 0 1 None (chr "X") VT420 "ECH" "Erase characters".
Definition ED : FunctionDefinition :=
  detail.CSI None 0 ArgsMax None (chr "J") VT100 "ED" "Erase in display".
Definition EL : FunctionDefinition :=
  detail.CSI None 0 1 None (chr "K") VT100 "EL" "Erase in line".
Definition HPA : FunctionDefinition :=
  detail.CSI None 1 1 None (chr "`") VT100 "HPA" "Horizontal position absolute".
Definition HPR : FunctionDefinition :=
  detail.CSI None 1 1 None (chr "a") VT100 "HPR" "Horizontal position relative".
Definition HVP : FunctionDefinition :=
  detail.CSI None 0 2 None (chr "f") VT100 "HVP" "Horizontal and vertical position".
Definition ICH : FunctionDefinition :=
  detail.CSI None 0 1 None (chr "@") VT420 "ICH" "Insert character".
Definition IL : FunctionDefinition :=
  detail.CSI None 0 1 None (chr "L") VT100 "IL" "Insert lines".
Definition REP : FunctionDefinition :=
  detail.CSI None 1 1 None (chr "b") VT100 "REP" "Repeat the preceding graphic character Ps times".
Definition RM : FunctionDefinition :=
  detail.CSI None 1 ArgsMax None (chr "l") VT100 "RM" "Reset mode".
Definition SCOSC : FunctionDefinition :=
  detail.CSI None 0 0 None (chr "s") VT100 "SCOSC" "Save Cursor".
Definition SD : FunctionDefinition :=
  detail.CSI None 0 1 None (chr "T") VT100 "SD" "Scroll down (pan up)".
Definition SETMARK : FunctionDefinition :=
  detail.CSI_ext (Some (chr ">")) 0 0 None (chr "M") ExtContour "XTSETMARK" "Set Vertical Mark (experimental syntax)".
Definition SGR : FunctionDefinition :=
  detail.CSI None 0 ArgsMax None (chr "m") VT100 "SGR" "Select graphics rendition".
Definition SM : FunctionDefinition :=
  detail.CSI None 1 ArgsMax None (chr "h") VT100 "SM" "Set mode".
Definition SU : FunctionDefinition :=
  detail.CSI None 0 1 None (chr "S") VT100 "SU" "Scroll up (pan down)".
Definition TBC : FunctionDefinition :=
  detail.CSI None 0 1 None (chr "g") VT100 "TBC" "Horizontal Tab Clear".
Definition VPA : FunctionDefinition :=
  detail.CSI None 0 1 None (chr "d") VT100 "VPA" "Vertical Position Absolute".
Definition WINMANIP : FunctionDefinition :=
  detail.CSI_ext None 1 3 None (chr "t") ExtXTerm "WINMANIP" "Window Manipulation".
Definition XTSMGRAPHICS : FunctionDefinition :=
  detail.CSI_ext (Some (chr "?")) 2 4 None (chr "S") ExtXTerm "XTSMGRAPHICS" "Setting/getting Sixel/ReGIS graphics settings.".
Definition XTPOPCOLORS : FunctionDefinition :=
  detail.CSI_ext None 0 ArgsMax (Some (chr "#")) (chr "Q") ExtXTerm "XTPOPCOLORS" "Pops the color palette from the palette's saved-stack.".
Definition XTPUSHCOLORS : FunctionDefinition :=
  detail.CSI_ext None 0 ArgsMax (Some (chr "#")) (chr "P") ExtXTerm "XTPUSHCOLORS" "Pushes the color palette onto the palette's saved-stack.".
Definition XTREPORTCOLORS : FunctionDefinition :=
  detail.CSI_ext None 0 0 (Some (chr "#")) (chr "R") ExtXTerm "XTREPORTCOLORS" "Reports number of color palettes on the stack.".
Definition XTSHIFTESCAPE : FunctionDefinition :=
  detail.CSI_ext (Some (chr ">")) 0 1 None (chr "s") ExtXTerm "XTSHIFTESCAPE" "Set/reset shift-escape options.".
Definition XTVERSION : FunctionDefinition :=
  detail.CSI_ext (Some (chr ">")) 0 1 None (chr "q") ExtXTerm "XTVERSION" "Query terminal name and version".
Definition XTCAPTURE : FunctionDefinition :=
  detail.CSI_ext (Some (chr ">")) 0 2 None (chr "t") ExtContour "XTCAPTURE" "Report screen buffer capture.".
Definition DECSSDT : FunctionDefinition :=
  detail.CSI None 0 1 (Some (chr "$")) (chr "~") VT320 "DECSSDT" "Select Status Display (Line) Type".
Definition DECSASD : FunctionDefinition :=
  detail.CSI None 0 1 (Some (chr "$")) (chr "}") VT420 "DECSASD" "Select Active Status Display".
Definition DECPS : FunctionDefinition :=
  detail.CSI None 3 18 (Some (chr ",")) (chr "~") VT520 "DECPS" "Controls the sound frequency or notes".
(** DCS functions *)
Definition STP : FunctionDefinition :=
  detail.DCS_ext None 0 0 (Some (chr "$")) (chr "p") ExtContour "XTSETPROFILE" "Set Terminal Profile".
Definition DECRQSS : FunctionDefinition :=
  detail.DCS None 0 0 (Some (chr "$")) (chr "q") VT420 "DECRQSS" "Request Status String".
Definition DECSIXEL : FunctionDefinition :=
  detail.DCS None 0 3 None (chr "q") VT330 "DECSIXEL" "Sixel Graphics Image".
Definition XTGETTCAP : FunctionDefinition :=
  detail.DCS_ext None 0 0 (Some (chr "+")) (chr "q") ExtXTerm "XTGETTCAP" "Request Termcap/Terminfo String".
(** OSC *)
Definition SETTITLE : FunctionDefinition :=
  detail.OSC 0 ExtXTerm "SETINICON" "Change Window & Icon Title".
Definition SETICON : FunctionDefinition :=
  detail.OSC 1 ExtXTerm "SETWINICON" "Change Icon Title".
Definition SETWINTITLE : FunctionDefinition :=
  detail.OSC 2 ExtXTerm "SETWINTITLE" "Change Window Title".
Definition SETXPROP : FunctionDefinition :=
  detail.OSC 3 ExtXTerm "SETXPROP" "Set X11 property".
Definition SETCOLPAL : FunctionDefinition :=
  detail.OSC 4 ExtXTerm "SETCOLPAL" "Set/Query color palette".
Definition SETCWD : FunctionDefinition :=
  detail.OSC 7 ExtXTerm "SETCWD" "Set current working directory".
Definition HYPERLINK : FunctionDefinition :=
  detail.OSC 8 ExtUnknown "HYPERLINK" "Hyperlinked Text".
Definition COLORFG : FunctionDefinition :=
  detail.OSC 10 ExtXTerm "COLORFG" "Change or request text foreground color.".
Definition COLORBG : FunctionDefinition :=
  detail.OSC 11 ExtXTerm "COLORBG" "Change or request text background color.".
Definition COLORCURSOR : FunctionDefinition :=
  detail.OSC 12 ExtXTerm "COLORCURSOR" "Change text cursor color to Pt.".
Definition COLORMOUSEFG : FunctionDefinition :=
  detail.OSC 13 ExtXTerm "COLORMOUSEFG" "Change mouse foreground color.".
Definition COLORMOUSEBG : FunctionDefinition :=
  detail.OSC 14 ExtXTerm "COLORMOUSEBG" "Change mouse background color.".
Definition SETFONT : FunctionDefinition :=
  detail.OSC 50 ExtXTerm "SETFONT" "Get or set font.".
Definition SETFONTALL : FunctionDefinition :=
  detail.OSC 60 ExtContour "SETFONTALL" "Get or set all font faces, styles, size.".
Definition CLIPBOARD : FunctionDefinition :=
  detail.OSC 52 ExtXTerm "CLIPBOARD" "Clipboard management.".
Definition RCOLPAL : FunctionDefinition :=
  detail.OSC 104 ExtXTerm "RCOLPAL" "Reset color full palette or entry".
Definition COLORSPECIAL : FunctionDefinition :=
  detail.OSC 106 ExtXTerm "COLORSPECIAL" "Enable/disable Special Color Number c.".
Definition RCOLORFG : FunctionDefinition :=
  detail.OSC 110 ExtXTerm "RCOLORFG" "Reset VT100 text foreground color.".
Definition RCOLORBG : FunctionDefinition :=
  detail.OSC 111 ExtXTerm "RCOLORBG" "Reset VT100 text background color.".
Definition RCOLORCURSOR : FunctionDefinition :=
  detail.OSC 112 ExtXTerm "RCOLORCURSOR" "Reset text cursor color.".
Definition RCOLORMOUSEFG : FunctionDefinition :=
  detail.OSC 113 ExtXTerm "RCOLORMOUSEFG" "Reset mouse foreground color.".
Definition RCOLORMOUSEBG : FunctionDefinition :=
  detail.OSC 114 ExtXTerm "RCOLORMOUSEBG" "Reset mouse background color.".
Definition RCOLORHIGHLIGHTFG : FunctionDefinition :=
  detail.OSC 119 ExtXTerm "RCOLORHIGHLIGHTFG" "Reset highlight foreground color.".
Definition RCOLORHIGHLIGHTBG : FunctionDefinition :=
  detail.OSC 117 ExtXTerm "RCOLORHIGHLIGHTBG" "Reset highlight background color.".
Definition NOTIFY : FunctionDefinition :=
  detail.OSC 777 ExtXTerm "NOTIFY" "Send Notification.".
Definition DUMPSTATE : FunctionDefinition :=
  detail.OSC 888 ExtContour "DUMPSTATE" "Dumps internal state to debug stream.".
Local Close Scope string_scope.

Definition CaptureBufferCode : Z := 314.

(** The array literal of [functions()], in source order, before sorting. *)
Definition functions_unsorted : list FunctionDefinition :=
  [
     (* C0 *)
     EOT; BEL; BS; TAB; LF; VT; FF; CR;
     LS0; LS1;
     (* ESC *)
     DECALN; DECBI; DECFI; DECKPAM; DECKPNM; DECRS; DECSC; HTS;
     IND; NEL; RI; RIS; SCS_G0_SPECIAL; SCS_G0_USASCII; SCS_G1_SPECIAL; SCS_G1_USASCII;
     SS2; SS3;
     (* CSI *)
     ANSISYSSC; XTCAPTURE; CBT; CHA; CHT; CNL; CPL; CPR;
     CUB; CUD; CUF; CUP; CUU; DA1; DA2; DA3;
     DCH; DECCARA; DECCRA; DECDC; DECERA; DECFRA; DECIC; DECSCA;
     DECSED; DECSERA; DECSEL; XTRESTORE; XTSAVE; DECPS; DECRM; DECRQM;
     DECRQM_ANSI; DECRQPSR; DECSASD; DECSCL; DECSCPP; DECSCUSR; DECSLRM; DECSM;
     DECSNLS; DECSSDT; DECSTBM; DECSTR; DECXCPR; DL; ECH; ED;
     EL; HPA; HPR; HVP; ICH; IL; REP; RM;
     SCOSC; SD; SETMARK; SGR; SM; SU; TBC; VPA;
     WINMANIP; XTPOPCOLORS; XTPUSHCOLORS; XTREPORTCOLORS; XTSHIFTESCAPE; XTSMGRAPHICS; XTVERSION;
     (* DCS *)
     STP; DECRQSS; DECSIXEL; XTGETTCAP;
     (* OSC *)
     SETICON; SETTITLE; SETWINTITLE; SETXPROP; SETCOLPAL; SETCWD; HYPERLINK; COLORFG;
     COLORBG; COLORCURSOR; COLORMOUSEFG; COLORMOUSEBG; SETFONT; SETFONTALL; CLIPBOARD; RCOLPAL;
     COLORSPECIAL; RCOLORFG; RCOLORBG; RCOLORCURSOR; RCOLORMOUSEFG; RCOLORMOUSEBG; RCOLORHIGHLIGHTFG; RCOLORHIGHLIGHTBG;
     NOTIFY; DUMPSTATE
  ].

(** Modelled from the spec: [crispy::sort] (crispy/sort.h) is not among
    the sources embedded here.  The design document says the table is built
    once and sorted by this comparison; the sort is modelled as an insertion
    sort, and [sort_insert] puts [x] before the first element it does not
    compare greater than. *)
Fixpoint sort_insert {A : Type} (comp : A -> A -> Z) (x : A) (l : list A) : list A :=
  match l with
  | [] => [x]
  | y :: l' => if comp x y <=? 0 then x :: l else y :: sort_insert comp x l'
  end.

(** Modelled from the spec: [crispy::sort], see [sort_insert]; it orders
    ascending by the three-way comparator it is given. *)
Definition sort {A : Type} (comp : A -> A -> Z) (l : list A) : list A :=
  fold_right (sort_insert comp) [] l.

(** [functions()]: the array literal, sorted by the comparison of
    definitions. *)
Definition functions : list FunctionDefinition :=
  sort compare_definitions functions_unsorted.

(** Modelled from the spec: the body of [select] (Functions.cpp) is not among
    the sources embedded here, only its declaration is.  The design document
    says the sorted table is queried via binary search with the
    selector-to-definition comparison; [select_loop] searches the index
    interval from [a] to [b], both inclusive. *)
Fixpoint select_loop (fuel : nat) (selector : FunctionSelector)
  (funcs : list FunctionDefinition) (a b : nat) : option FunctionDefinition :=
  match fuel with
  | O => None
  | S fuel' =>
    if (b <? a)%nat then None
    else
      let i := ((a + b) / 2)%nat in
      match funcs !! i with
      | None => None
      | Some def =>
        let rel := compare selector def in
        if rel >? 0 then select_loop fuel' selector funcs (i + 1)%nat b
        else if rel <? 0 then
          if (i =? 0)%nat then None
          else select_loop fuel' selector funcs a (i - 1)%nat
        else Some def
      end
  end.

(** Modelled from the spec: [select], see [select_loop], over a given sorted
    table: the search starts with the whole index range. *)
Definition select_in (funcs : list FunctionDefinition) (selector : FunctionSelector)
  : option FunctionDefinition :=
  select_loop (S (length funcs)) selector funcs 0%nat (length funcs - 1)%nat.

(** Modelled from the spec: [select], see [select_loop]; the matching
    definition, or [None] where the source returns a null pointer. *)
Definition select (selector : FunctionSelector) : option FunctionDefinition :=
  select_in functions selector.

(** [selectEscape] *)
Definition selectEscape (intermediate finalCharacter : Z) : option FunctionDefinition :=
  select (mkFunctionSelector ESC 0 0 intermediate finalCharacter).

(** [selectControl] *)
Definition selectControl (leader argc intermediate finalCharacter : Z)
  : option FunctionDefinition :=
  select (mkFunctionSelector CSI leader argc intermediate finalCharacter).

(** [selectOSCommand] *)
Definition selectOSCommand (id : Z) : option FunctionDefinition :=
  select (mkFunctionSelector OSC 0 id 0 0).

(** The comparison in the words of the design document, in three steps.
    [first_difference] evaluates lexicographically: the first key that is
    not 0 decides, and when all are 0 the last criterion decides. *)
Fixpoint first_difference (keys : list Z) (otherwise : Z) : Z :=
  match keys with
  | [] => otherwise
  | k :: keys' => if k =? 0 then first_difference keys' otherwise else k
  end.

(** Parameter-count compatibility in the words of the design document: an
    OSC matches by the exact numeric id against [maximumParameters]; for the
    other categories the argument count must fall within
    [minimumParameters, maximumParameters]. *)
Definition parameter_count_compatibility (a : FunctionSelector) (b : FunctionDefinition)
  : Z :=
  match sel_category a with
  | OSC => sel_argc a - maximumParameters b
  | _ =>
      if sel_argc a <? minimumParameters b then -1
      else if maximumParameters b <? sel_argc a then 1
      else 0
  end.

(** The matching precedence in the words of the design document:
    category, then final byte, then leader, then intermediate, then
    parameter-count compatibility. *)
Definition compare_spec (a : FunctionSelector) (b : FunctionDefinition) : Z :=
  first_difference
    [category_int (sel_category a) - category_int (category b);
     sel_finalSymbol a - finalSymbol b;
     sel_leader a - leader b;
     sel_intermediate a - intermediate b]
    (parameter_count_compatibility a b).

(** The order of the sorted table in the words of the design document: the
    lexicographic order of the keys of the definitions. *)
Fixpoint lex_lt (k1 k2 : list Z) : Prop :=
  match k1, k2 with
  | x :: k1', y :: k2' => x < y \/ (x = y /\ lex_lt k1' k2')
  | _, _ => False
  end.

(** The keys of a definition, in the order the table is sorted by. *)
Definition sort_keys (d : FunctionDefinition) : list Z :=
  [category_int (category d); finalSymbol d; leader d; intermediate d;
   minimumParameters d; maximumParameters d].

(** Do two definitions have the same combination of category, final byte,
    leader and intermediate? *)
Definition same_combination (a b : FunctionDefinition) : bool :=
  category_eqb (category a) (category b)
  && (finalSymbol a =? finalSymbol b)
  && (leader a =? leader b)
  && (intermediate a =? intermediate b).

(** [a] sorts before [b] and, when both have the same combination, the
    parameter range of [a] ends before the range of [b] begins (for an OSC:
    the code of [a] is the smaller one). *)
Definition strictly_before (a b : FunctionDefinition) : bool :=
  (compare_definitions a b <? 0)
  && (negb (same_combination a b)
      || (if category_eqb (category a) OSC
          then maximumParameters a <? maximumParameters b
          else (minimumParameters a <=? maximumParameters a)
               && (maximumParameters a <? minimumParameters b))).

(** The design invariant of the table in the words of the design document:
    it is sorted, and no two registered functions have the same combination
    and overlapping parameter ranges. *)
Fixpoint unambiguous (funcs : list FunctionDefinition) : bool :=
  match funcs with
  | [] => true
  | a :: funcs' => forallb (strictly_before a) funcs' && unambiguous funcs'
  end.

(** The selector a definition describes, for a given argument count. *)
Definition selector_of (d : FunctionDefinition) (argc : Z) : FunctionSelector :=
  mkFunctionSelector (category d) (leader d) argc (intermediate d) (finalSymbol d).



(** [FunctionDefinition::id], computed in [id_type], which is [uint32_t]:
    the fields packed at the shifts 0, 3, 6, 10, 17 and 21. *)
Definition FunctionDefinition_id (d : FunctionDefinition) : Z :=
  let CategoryShift := 0 in
  let LeaderShift := 3 in
  let IntermediateShift := 3 + 3 in
  let FinalShift := 3 + 3 + 4 in
  let MinParamShift := 3 + 3 + 4 + 7 in
  let MaxParamShift := 3 + 3 + 4 + 7 + 4 in
  let maskCat := to_uint32 (Z.shiftl (to_uint32 (category_int (category d))) CategoryShift) in
  let maskLeader :=
    if leader d =? 0 then 0
    else to_uint32 (Z.shiftl (to_uint32 (to_uint32 (leader d) - 0x3C)) LeaderShift) in
  let maskInterm :=
    if intermediate d =? 0 then 0
    else to_uint32 (Z.shiftl (to_uint32 (to_uint32 (intermediate d) - 0x20 + 1))
                      IntermediateShift) in
  let maskFinalS :=
    if finalSymbol d =? 0 then 0
    else to_uint32 (Z.shiftl (to_uint32 (to_uint32 (finalSymbol d) - 0x40)) FinalShift) in
  let maskMinPar := to_uint32 (Z.shiftl (to_uint32 (minimumParameters d)) MinParamShift) in
  let maskMaxPar := to_uint32 (Z.shiftl (to_uint32 (maximumParameters d)) MaxParamShift) in
  Z.lor (Z.lor (Z.lor (Z.lor (Z.lor maskCat maskLeader) maskInterm) maskFinalS) maskMinPar)
    maskMaxPar.

(** [operator==] of definitions *)
Definition FunctionDefinition_eq (a b : FunctionDefinition) : bool :=
  compare_definitions a b =? 0.

(** [operator!=] of definitions *)
Definition FunctionDefinition_ne (a b : FunctionDefinition) : bool :=
  negb (compare_definitions a b =? 0).

(** [operator<=] of definitions *)
Definition FunctionDefinition_le (a b : FunctionDefinition) : bool :=
  compare_definitions a b <=? 0.

(** [operator>=] of definitions *)
Definition FunctionDefinition_ge (a b : FunctionDefinition) : bool :=
  compare_definitions a b >=? 0.

(** [operator<] of definitions *)
Definition FunctionDefinition_lt (a b : FunctionDefinition) : bool :=
  compare_definitions a b <? 0.

(** [operator>] of definitions *)
Definition FunctionDefinition_gt (a b : FunctionDefinition) : bool :=
  compare_definitions a b >? 0.

(** A definition with another leader, and with another final symbol. *)
Definition with_leader (d : FunctionDefinition) (ch : Z) : FunctionDefinition :=
  mkFunctionDefinition (category d) ch (intermediate d) (finalSymbol d)
    (minimumParameters d) (maximumParameters d) (conformanceLevel d) (extension d)
    (mnemonic d) (comment d).

(** A definition with another final symbol. *)
Definition with_finalSymbol (d : FunctionDefinition) (ch : Z) : FunctionDefinition :=
  mkFunctionDefinition (category d) (leader d) (intermediate d) ch
    (minimumParameters d) (maximumParameters d) (conformanceLevel d) (extension d)
    (mnemonic d) (comment d).

(** A definition with another intermediate. *)
Definition with_intermediate (d : FunctionDefinition) (ch : Z) : FunctionDefinition :=
  mkFunctionDefinition (category d) (leader d) ch (finalSymbol d)
    (minimumParameters d) (maximumParameters d) (conformanceLevel d) (extension d)
    (mnemonic d) (comment d).

(** The field values that fit the bit fields of [id]: no leader or one from
    0x3D to 0x43, no intermediate or one from 0x20 to 0x2E, no final symbol
    or one from 0x41 to 0x7F, a minimum of at most 15 and a maximum of at
    most 2047 parameters. *)
Definition id_fits (d : FunctionDefinition) : bool :=
  ((leader d =? 0) || ((0x3D <=? leader d) && (leader d <=? 0x43)))
  && ((intermediate d =? 0) || ((0x20 <=? intermediate d) && (intermediate d <=? 0x2E)))
  && ((finalSymbol d =? 0) || ((0x41 <=? finalSymbol d) && (finalSymbol d <=? 0x7F)))
  && ((0 <=? minimumParameters d) && (minimumParameters d <=? 15))
  && ((0 <=? maximumParameters d) && (maximumParameters d <=? 2047)).

End Functions.

(* ====================================================================== *)
(** * libunicode and std::string_view, as the sources use them *)
(* ====================================================================== *)

Module Unicode.

(** [unicode::convert_to<char>(char32_t)]: the UTF-8 encoding of one code
    point. *)
Definition encode (cp : Z) : list Z :=
  if cp <=? 0x7F then [cp]
  else if cp <=? 0x7FF then
    [Z.lor 0xC0 (Z.land (Z.shiftr cp 6) 0x1F);
     Z.lor 0x80 (Z.land cp 0x3F)]
  else if cp <=? 0xFFFF then
    [Z.lor 0xE0 (Z.land (Z.shiftr cp 12) 0x0F);
     Z.lor 0x80 (Z.land (Z.shiftr cp 6) 0x3F);
     Z.lor 0x80 (Z.land cp 0x3F)]
  else
    [Z.lor 0xF0 (Z.land (Z.shiftr cp 18) 0x07);
     Z.lor 0x80 (Z.land (Z.shiftr cp 12) 0x3F);
     Z.lor 0x80 (Z.land (Z.shiftr cp 6) 0x3F);
     Z.lor 0x80 (Z.land cp 0x3F)].

(** [unicode::convert_to<char>(std::u32string_view)] *)
Definition convert_to_char (text : list Z) : list Z :=
  concat (map encode text).

End Unicode.

Module StringView.

(** Length as a [size_t]. *)
Definition size {A : Type} (s : list A) : Z := Z.of_nat (length s).

(** Does [s] begin with [needle]? *)
Fixpoint starts_with (needle s : list Z) : bool :=
  match needle, s with
  | [], _ => true
  | _ :: _, [] => false
  | x :: needle', y :: s' => (x =? y) && starts_with needle' s'
  end.

(** First match of [needle] in [s], where [s] is the part of the viewed
    string that starts at index [i]. *)
Fixpoint find_from (needle s : list Z) (i : nat) : option nat :=
  if starts_with needle s then Some i
  else
    match s with
    | [] => None
    | _ :: s' => find_from needle s' (S i)
    end.

(** [std::string_view::find(needle, pos)] *)
Definition find (s needle : list Z) (pos : Z) : Z :=
  if pos >? size s then npos
  else
    match find_from needle (drop (Z.to_nat pos) s) (Z.to_nat pos) with
    | Some i => Z.of_nat i
    | None => npos
    end.

(** Last match of [needle] in [s] that starts at index [i] or before. *)
Fixpoint rfind_from (s needle : list Z) (i : nat) : option nat :=
  if starts_with needle (drop i s) then Some i
  else
    match i with
    | O => None
    | S i' => rfind_from s needle i'
    end.

(** [std::string_view::rfind(needle, pos)] *)
Definition rfind (s needle : list Z) (pos : Z) : Z :=
  if size needle >? size s then npos
  else
    match rfind_from s needle (Z.to_nat (Z.min (size s - size needle) pos)) with
    | Some i => Z.of_nat i
    | None => npos
    end.

(** [std::string_view::substr(pos)]; [None] when it throws
    [std::out_of_range]. *)
Definition substr {A : Type} (s : list A) (pos : Z) : option (list A) :=
  if pos >? size s then None else Some (drop (Z.to_nat pos) s).

(** [std::u32string_view::remove_suffix(n)]; [None] when [n] exceeds the
    size, where the behaviour is undefined. *)
Definition remove_suffix {A : Type} (s : list A) (n : Z) : option (list A) :=
  if (n <? 0) || (n >? size s) then None
  else Some (take (length s - Z.to_nat n) s).

(** [std::u32string_view::remove_prefix(n)]; [None] when [n] exceeds the
    size, where the behaviour is undefined. *)
Definition remove_prefix {A : Type} (s : list A) (n : Z) : option (list A) :=
  if (n <? 0) || (n >? size s) then None
  else Some (drop (Z.to_nat n) s).

End StringView.

(* ====================================================================== *)
(** * vtbackend/cell/CompactCell.cpp and the cell interface of Line<Cell> *)
(* ====================================================================== *)

Module Cell.

(** Modelled from the spec: [GraphicsAttributes] (GraphicsAttributes.h) is
    not among the sources embedded here.  The design document lists a
    cell's graphics attributes as foreground and background colour and a
    flag set (CellFlags.h: one bit per flag); the underline colour is the
    third colour. *)
Record GraphicsAttributes : Set := mkGraphicsAttributes {
  foregroundColor : Z;
  backgroundColor : Z;
  underlineColor : Z;
  flags : Z
}.

(** Modelled from the spec: the default graphics attributes, default colours
    and no flag. *)
Definition GraphicsAttributes_default : GraphicsAttributes :=
  mkGraphicsAttributes 0 0 0 0.

(** Modelled from the spec: [CellExtra] (CellExtra.h) is not among the
    sources embedded here; CompactCell.cpp reads [_extra->codepoints].  The
    design document gives a cell optional extra combining code points owned
    by the cell, graphics attributes and an optional hyperlink id; the
    payload holds those that the cell itself does not. *)
Record CellExtra : Set := mkCellExtra {
  codepoints : list Z;
  extra_underlineColor : Z;
  extra_hyperlink : Z;
  extra_flags : Z
}.

(** Modelled from the spec: the members of [CompactCell] (CompactCell.h) are
    not among the sources embedded here; CompactCell.cpp reads [_codepoint]
    and [_extra].  The design document gives a cell a primary code point
    (0 = empty), a display width, colours and the optional payload. *)
Record CompactCell : Set := mkCompactCell {
  _codepoint : Z;
  _width : Z;
  _foregroundColor : Z;
  _backgroundColor : Z;
  _extra : option CellExtra
}.

(** The combining code points stored in the cell's extra payload. *)
Definition extraCodepoints (c : CompactCell) : list Z :=
  match _extra c with
  | Some extra => codepoints extra
  | None => []
  end.

(** [CompactCell::codepoints] *)
Definition CompactCell_codepoints (c : CompactCell) : list Z :=
  let s := [] in
  if negb (_codepoint c =? 0) then
    let s := s ++ [_codepoint c] in
    match _extra c with
    | Some extra => fold_left (fun s cp => s ++ [cp]) (codepoints extra) s
    | None => s
    end
  else s.

(** [CompactCell::toUtf8] *)
Definition CompactCell_toUtf8 (c : CompactCell) : list Z :=
  if _codepoint c =? 0 then []
  else
    let text := [] ++ Unicode.encode (_codepoint c) in
    match _extra c with
    | Some extra =>
        fold_left (fun text cp => text ++ Unicode.encode cp) (codepoints extra) text
    | None => text
    end.

(** The operations [Line<Cell>] and [CellUtil] require of the [Cell]
    template parameter. *)
Class CellConcept (Cell : Type) := {
  (** [Cell { attributes }] *)
  cell_make : GraphicsAttributes -> Cell;
  (** [cell.reset()] *)
  cell_reset : Cell -> Cell;
  (** [cell.write(attributes, codepoint, width)] *)
  cell_write : Cell -> GraphicsAttributes -> Z -> Z -> Cell;
  (** [cell.setHyperlink(id)] *)
  cell_setHyperlink : Cell -> Z -> Cell;
  (** [cell.empty()] *)
  cell_empty : Cell -> bool;
  (** [cell.width()] *)
  cell_width : Cell -> Z;
  (** [cell.codepoints()] *)
  cell_codepoints : Cell -> list Z
}.

(** Modelled from the spec: the constructor of [CompactCell] from attributes
    (CompactCell.h) is not among the sources embedded here.  The cell holds
    no code point and carries the attributes; the payload is only allocated
    for attributes the cell itself cannot hold. *)
Definition CompactCell_make (attrs : GraphicsAttributes) : CompactCell :=
  {| _codepoint := 0;
     _width := 1;
     _foregroundColor := foregroundColor attrs;
     _backgroundColor := backgroundColor attrs;
     _extra :=
       if (underlineColor attrs =? 0) && (flags attrs =? 0) then None
       else Some (mkCellExtra [] (underlineColor attrs) 0 (flags attrs)) |}.

(** Modelled from the spec: [CompactCell::reset] (CompactCell.h) is not among
    the sources embedded here.  A reset cell is an empty cell with default
    attributes. *)
Definition CompactCell_reset (c : CompactCell) : CompactCell :=
  mkCompactCell 0 1 0 0 None.

(** Modelled from the spec: [CompactCell::write] (CompactCell.h) is not among
    the sources embedded here.  It stores the primary code point, the width
    and the attributes, and drops the combining code points. *)
Definition CompactCell_write (c : CompactCell) (attrs : GraphicsAttributes)
  (codepoint width : Z) : CompactCell :=
  {| _codepoint := codepoint;
     _width := width;
     _foregroundColor := foregroundColor attrs;
     _backgroundColor := backgroundColor attrs;
     _extra :=
       match _extra c with
       | Some extra =>
           Some (mkCellExtra [] (underlineColor attrs) (extra_hyperlink extra) (flags attrs))
       | None =>
           if (underlineColor attrs =? 0) && (flags attrs =? 0) then None
           else Some (mkCellExtra [] (underlineColor attrs) 0 (flags attrs))
       end |}.

(** Modelled from the spec: [CompactCell::setHyperlink] (CompactCell.h) is
    not among the sources embedded here.  The hyperlink id is kept in the
    payload. *)
Definition CompactCell_setHyperlink (c : CompactCell) (id : Z) : CompactCell :=
  match _extra c with
  | Some extra =>
      {| _codepoint := _codepoint c;
         _width := _width c;
         _foregroundColor := _foregroundColor c;
         _backgroundColor := _backgroundColor c;
         _extra := Some (mkCellExtra (codepoints extra) (extra_underlineColor extra)
                           id (extra_flags extra)) |}
  | None =>
      if id =? 0 then c
      else
        {| _codepoint := _codepoint c;
           _width := _width c;
           _foregroundColor := _foregroundColor c;
           _backgroundColor := _backgroundColor c;
           _extra := Some (mkCellExtra [] 0 id 0) |}
  end.

(** Modelled from the spec: [CompactCell::empty] (CompactCell.h) is not among
    the sources embedded here.  The design document calls a cell with the
    primary code point 0 empty. *)
Definition CompactCell_empty (c : CompactCell) : bool := _codepoint c =? 0.

(** [CompactCell] is a cell in the sense of [Line<Cell>]. *)
#[export] Instance CompactCell_concept : CellConcept CompactCell := {
  cell_make := CompactCell_make;
  cell_reset := CompactCell_reset;
  cell_write := CompactCell_write;
  cell_setHyperlink := CompactCell_setHyperlink;
  cell_empty := CompactCell_empty;
  cell_width := _width;
  cell_codepoints := CompactCell_codepoints
}.

(** Modelled from the spec: [CellUtil::beginsWith] (CellUtil.h) is not among
    the sources embedded here.  The design document says inflated lines are
    matched by per-cell codepoint comparison: the text has to begin with the
    code points the cell holds, and a cell without code points matches
    nothing. *)
Definition beginsWith {C : Type} `{CellConcept C} (text : list Z) (cell : C) : bool :=
  match cell_codepoints cell with
  | [] => false
  | cps => StringView.starts_with cps text
  end.

End Cell.

(* ====================================================================== *)
(** * vtbackend/Line.h *)
(* ====================================================================== *)

Module Line.

Import Cell.

(** [enum class LineFlags : uint8_t], a set of bits. *)
Definition LineFlags_None : Z := 0x0000.

(** [LineFlags::Wrappable] *)
Definition LineFlags_Wrappable : Z := 0x0001.

(** [LineFlags::Wrapped] *)
Definition LineFlags_Wrapped : Z := 0x0002.

(** [LineFlags::Marked] *)
Definition LineFlags_Marked : Z := 0x0004.

(** Line storage with all columns sharing the same SGR attributes.
    [ColumnCount], [ColumnOffset] and [HyperlinkId] box an [int]. *)
Record TrivialLineBuffer : Set := mkTrivialLineBuffer {
  displayWidth : Z;
  textAttributes : GraphicsAttributes;
  fillAttributes : GraphicsAttributes;
  hyperlink : Z;
  usedColumns : Z;
  text : list Z
}.

(** [TrivialBuffer { count, attributes }]: the remaining members take their
    default member initializers. *)
Definition TrivialLineBuffer_init (count : Z) (attributes : GraphicsAttributes)
  : TrivialLineBuffer :=
  mkTrivialLineBuffer count attributes attributes 0 0 [].

(** [TrivialLineBuffer::reset] *)
Definition TrivialLineBuffer_reset (b : TrivialLineBuffer) (attributes : GraphicsAttributes)
  : TrivialLineBuffer :=
  {| displayWidth := displayWidth b;
     textAttributes := attributes;
     fillAttributes := attributes;
     hyperlink := 0;
     usedColumns := 0;
     text := [] |}.

(** Modelled from the spec: [SearchResult] (primitives.h) is not among the
    sources embedded here.  A search reports the column of a full match, or
    a partial match that straddles the line boundary, with its length; the
    length is 0 for a full match. *)
Record SearchResult : Set := mkSearchResult {
  column : Z;
  partialMatchLength : Z
}.

Section WithCell.

Context {Cell : Type} `{CellConcept Cell}.

(** [LineStorage<Cell> = std::variant<TrivialLineBuffer, InflatedLineBuffer<Cell>>] *)
Inductive LineStorage : Type :=
| Trivial (buffer : TrivialLineBuffer)
| Inflated (buffer : list Cell).

(** [class Line<Cell>]: the storage and the flags, an [unsigned]. *)
Record Line : Type := mkLine {
  _storage : LineStorage;
  _flags : Z
}.

(** Modelled from the spec: [inflate<Cell>] is declared in Line.h and defined
    in a file that is not among the sources embedded here.  The design document
    describes the inflated form as one cell per column holding the content
    of the trivial run.  The packed text is taken to be US-ASCII, one column
    per byte, which is what [Line::fill(start, sgr, ascii)] writes: each byte
    becomes a cell of width 1 with the text attributes and the hyperlink,
    and the line is padded to the display width with cells carrying the fill
    attributes. *)
Definition inflate (input : TrivialLineBuffer) : list Cell :=
  let columns :=
    map (fun ch => cell_write (cell_setHyperlink (cell_make GraphicsAttributes_default)
                                 (hyperlink input))
                     (textAttributes input) ch 1)
        (text input) in
  columns ++ replicate (Z.to_nat (displayWidth input) - length columns)%nat
               (cell_make (fillAttributes input)).

(** [isTrivialBuffer] *)
Definition isTrivialBuffer (l : Line) : bool :=
  match _storage l with
  | Trivial _ => true
  | Inflated _ => false
  end.

(** [isInflatedBuffer] *)
Definition isInflatedBuffer (l : Line) : bool := negb (isTrivialBuffer l).

(** [setBuffer] *)
Definition setBuffer (l : Line) (buffer : LineStorage) : Line :=
  {| _storage := buffer; _flags := _flags l |}.

(** [Line::inflatedBuffer]: the line after the call, and the buffer the
    returned reference designates. *)
Definition inflatedBuffer (l : Line) : Line * list Cell :=
  match _storage l with
  | Trivial buffer =>
      let cells := inflate buffer in
      ({| _storage := Inflated cells; _flags := _flags l |}, cells)
  | Inflated cells => (l, cells)
  end.

(** [reset(flags, attributes)] *)
Definition reset (l : Line) (flags : Z) (attributes : GraphicsAttributes) : Line :=
  let l := {| _storage := _storage l; _flags := flags |} in
  match _storage l with
  | Trivial buffer => setBuffer l (Trivial (TrivialLineBuffer_reset buffer attributes))
  | Inflated cells =>
      setBuffer l (Trivial (TrivialLineBuffer_init (StringView.size cells) attributes))
  end.

(** [reset(flags, attributes, count)] *)
Definition reset_count (l : Line) (flags : Z) (attributes : GraphicsAttributes)
  (count : Z) : Line :=
  let l := {| _storage := _storage l; _flags := flags |} in
  setBuffer l (Trivial (TrivialLineBuffer_init count attributes)).

(** [fill(flags, attributes, codepoint, width)] *)
Definition fill (l : Line) (flags : Z) (attributes : GraphicsAttributes)
  (codepoint width : Z) : Line :=
  if codepoint =? 0 then reset l flags attributes
  else
    let l := {| _storage := _storage l; _flags := flags |} in
    let '(l, cells) := inflatedBuffer l in
    setBuffer l (Inflated
      (map (fun cell => cell_write (cell_reset cell) attributes codepoint width) cells)).

(** [empty]: tests if all cells are empty. *)
Definition empty (l : Line) : bool :=
  match _storage l with
  | Trivial buffer => bool_decide (text buffer = [])
  | Inflated cells => forallb cell_empty cells
  end.

(** The assertion of [fill(start, sgr, ascii)],
    [unbox<size_t>(start) + ascii.size() <= buffer.size()]: the sum is
    computed in [size_t] and wraps around. *)
Definition fill_ascii_assertion (buffer : list Cell) (start : Z) (ascii : list Z) : bool :=
  to_size_t (to_size_t start + StringView.size ascii) <=? StringView.size buffer.

(** [fill(start, sgr, ascii)]; [None] when the assertion fails, and when it
    holds only because the sum wrapped around: the cells from
    [&buffer[unbox<size_t>(start)]] on then lie outside the buffer.  Each
    character is written as [static_cast<char32_t>] of the [char]. *)
Definition fill_ascii (l : Line) (start : Z) (sgr : GraphicsAttributes) (ascii : list Z)
  : option Line :=
  let '(l, buffer) := inflatedBuffer l in
  if negb (fill_ascii_assertion buffer start ascii) then None
  else if negb (to_size_t start + StringView.size ascii <=? StringView.size buffer) then None
  else
    let i := Z.to_nat (to_size_t start) in
    Some (setBuffer l (Inflated
      (take i buffer
       ++ zip_with (fun cell ch => cell_write cell sgr (char_to_char32 ch) 1)
            (take (length ascii) (drop i buffer)) ascii
       ++ map cell_reset (drop (i + length ascii) buffer)))).

(** [size] *)
Definition size (l : Line) : Z :=
  match _storage l with
  | Trivial buffer => displayWidth buffer
  | Inflated cells => StringView.size cells
  end.

(** [cells]: a [const] member that nevertheless goes through
    [inflatedBuffer]. *)
Definition cells (l : Line) : Line * list Cell := inflatedBuffer l.

(** [useRange(start, count)]: the line after the call and the designated
    cells; [None] when the range leaves the buffer. *)
Definition useRange (l : Line) (start count : Z) : option (Line * list Cell) :=
  let '(l, buffer) := inflatedBuffer l in
  if (to_size_t start <=? StringView.size buffer)
     && (to_size_t count <=? StringView.size buffer - to_size_t start) then
    Some (l, take (Z.to_nat (to_size_t count)) (drop (Z.to_nat (to_size_t start)) buffer))
  else None.

(** [useCellAt(column)]: the line after the call and the designated cell;
    [None] when a [Require] fails or the sentinel position is read. *)
Definition useCellAt (l : Line) (column : Z) : option (Line * Cell) :=
  if (0 <=? column) && (column <=? size l) then
    let '(l, buffer) := inflatedBuffer l in
    match buffer !! Z.to_nat column with
    | Some cell => Some (l, cell)
    | None => None
    end
  else None.

(** [cellEmptyAt(column)] *)
Definition cellEmptyAt (l : Line) (column : Z) : option (Line * bool) :=
  match _storage l with
  | Trivial buffer =>
      if (0 <=? column) && (column <? size l) then
        Some (l, (to_size_t column >=? StringView.size (text buffer))
                 || match text buffer !! Z.to_nat column with
                    | Some ch => ch =? 0x20
                    | None => false
                    end)
      else None
  | Inflated cells =>
      match cells !! Z.to_nat (to_size_t column) with
      | Some cell => Some (l, cell_empty cell)
      | None => None
      end
  end.

(** [cellWidthAt(column)] *)
Definition cellWidthAt (l : Line) (column : Z) : option (Line * Z) :=
  let '(l, buffer) := inflatedBuffer l in
  match buffer !! Z.to_nat (to_size_t column) with
  | Some cell => Some (l, cell_width cell)
  | None => None
  end.

(** [flags] *)
Definition flags (l : Line) : Z := _flags l.

(** [setFlag]; [_flags] is an [unsigned]. *)
Definition setFlag (l : Line) (flag : Z) (enable : bool) : Line :=
  {| _storage := _storage l;
     _flags := if enable then Z.lor (_flags l) flag
               else Z.land (_flags l) (Z.lxor flag (2 ^ 32 - 1)) |}.

(** [isFlagEnabled] *)
Definition isFlagEnabled (l : Line) (flag : Z) : bool :=
  negb (Z.land (_flags l) flag =? 0).

(** [marked] *)
Definition marked (l : Line) : bool := isFlagEnabled l LineFlags_Marked.

(** [wrapped] *)
Definition wrapped (l : Line) : bool := isFlagEnabled l LineFlags_Wrapped.

(** [wrappable] *)
Definition wrappable (l : Line) : bool := isFlagEnabled l LineFlags_Wrappable.

(** The loop of the inflated branch of [matchTextAt]: [text] is
    [text.substr(i)]; [None] when [cells[baseColumn + i]] is out of range. *)
Fixpoint matchTextAt_loop (cells : list Cell) (baseColumn : Z) (text : list Z) (i : Z)
  : option bool :=
  match text with
  | [] => Some true
  | _ :: text' =>
      match cells !! Z.to_nat (to_size_t (baseColumn + i)) with
      | None => None
      | Some cell =>
          if negb (beginsWith text cell) then Some false
          else matchTextAt_loop cells baseColumn text' (i + 1)
      end
  end.

(** [matchTextAt]: tests if the given text can be matched in this line at
    the exact given start column.  [None] when the call has no defined
    result ([substr] throws, or a cell index is out of range). *)
Definition matchTextAt (l : Line) (text : list Z) (startColumn : Z) : option bool :=
  match _storage l with
  | Trivial buffer =>
      let u8Text := Unicode.convert_to_char text in
      if usedColumns buffer =? 0 then Some false
      else
        let column := Z.min startColumn (usedColumns buffer - 1) in
        if StringView.size text >? to_size_t (column - usedColumns buffer) then Some false
        else
          match StringView.substr (Line.text buffer) (to_size_t column) with
          | None => None
          | Some sub =>
              let resultIndex := StringView.find sub u8Text (to_size_t column) in
              Some (resultIndex =? 0)
          end
  | Inflated cells =>
      if StringView.size text >? to_size_t (size l - to_size_t startColumn) then Some false
      else matchTextAt_loop cells (to_size_t startColumn) text 0
  end.

(** The loop of the inflated branch of [search]; [n] counts the columns
    from [baseColumn] up to the right-most search position. *)
Fixpoint search_loop (n : nat) (l : Line) (startColumn : Z) (text : list Z)
  (baseColumn : Z) : option (option SearchResult) :=
  match n with
  | O => Some None
  | S n' =>
      if to_size_t (size l - to_size_t baseColumn) <? StringView.size text then
        match StringView.remove_suffix text
                (to_size_t (StringView.size text
                            - to_size_t (size l - to_size_t baseColumn))) with
        | None => None
        | Some text =>
            match matchTextAt l text baseColumn with
            | None => None
            | Some true => Some (Some (mkSearchResult startColumn (StringView.size text)))
            | Some false => search_loop n' l startColumn text (baseColumn + 1)
            end
        end
      else
        match matchTextAt l text baseColumn with
        | None => None
        | Some true => Some (Some (mkSearchResult baseColumn 0))
        | Some false => search_loop n' l startColumn text (baseColumn + 1)
        end
  end.

(** [search]: search a line from left to right.  The outer [option] is
    [None] when the call has no defined result, the inner one is the
    [std::optional] the function returns. *)
Definition search (l : Line) (text : list Z) (startColumn : Z)
  : option (option SearchResult) :=
  match _storage l with
  | Trivial buffer =>
      let u8Text := Unicode.convert_to_char text in
      if usedColumns buffer =? 0 then Some None
      else
        let column := Z.min startColumn (usedColumns buffer - 1) in
        let resultIndex := StringView.find (Line.text buffer) u8Text (to_size_t column) in
        if negb (resultIndex =? npos) then Some (Some (mkSearchResult resultIndex 0))
        else Some None
  | Inflated buffer =>
      if StringView.size buffer <? StringView.size text then Some None
      else
        let rightMostSearchPosition := StringView.size buffer in
        search_loop (Z.to_nat (rightMostSearchPosition - startColumn)) l startColumn
          text startColumn
  end.

(** The first loop of the inflated branch of [searchReverse]; [n] counts
    the columns from [baseColumn] down to 0. *)
Fixpoint searchReverse_loop (n : nat) (l : Line) (text : list Z) (baseColumn : Z)
  : option (option SearchResult) :=
  match n with
  | O => Some None
  | S n' =>
      match matchTextAt l text baseColumn with
      | None => None
      | Some true => Some (Some (mkSearchResult baseColumn 0))
      | Some false => searchReverse_loop n' l text (baseColumn - 1)
      end
  end.

(** The second loop of the inflated branch of [searchReverse], which drops
    one leading code point of the text per round. *)
Fixpoint searchReverse_partial (l : Line) (startColumn : Z) (text : list Z)
  : option (option SearchResult) :=
  match text with
  | [] => Some None
  | _ :: text' =>
      match matchTextAt l text 0 with
      | None => None
      | Some true => Some (Some (mkSearchResult startColumn (StringView.size text)))
      | Some false => searchReverse_partial l startColumn text'
      end
  end.

(** [searchReverse]: search a line from right to left. *)
Definition searchReverse (l : Line) (text : list Z) (startColumn : Z)
  : option (option SearchResult) :=
  match _storage l with
  | Trivial buffer =>
      let u8Text := Unicode.convert_to_char text in
      if usedColumns buffer =? 0 then Some None
      else
        let column := Z.min startColumn (usedColumns buffer - 1) in
        let resultIndex := StringView.rfind (Line.text buffer) u8Text (to_size_t column) in
        if negb (resultIndex =? npos) then Some (Some (mkSearchResult resultIndex 0))
        else Some None
  | Inflated buffer =>
      if StringView.size buffer <? StringView.size text then Some None
      else
        let baseColumn := Z.min startColumn (StringView.size buffer - StringView.size text) in
        match searchReverse_loop (Z.to_nat (baseColumn + 1)) l text baseColumn with
        | Some None => searchReverse_partial l startColumn text
        | r => r
        end
  end.

(** [setMarked] *)
Definition setMarked (l : Line) (enable : bool) : Line := setFlag l LineFlags_Marked enable.

(** [setWrapped] *)
Definition setWrapped (l : Line) (enable : bool) : Line := setFlag l LineFlags_Wrapped enable.

(** [setWrappable] *)
Definition setWrappable (l : Line) (enable : bool) : Line :=
  setFlag l LineFlags_Wrappable enable.

(** [wrappableFlag] *)
Definition wrappableFlag (l : Line) : Z :=
  if wrappable l then LineFlags_Wrappable else LineFlags_None.

(** [wrappedFlag]: the member the source tests is [marked()]. *)
Definition wrappedFlag (l : Line) : Z :=
  if marked l then LineFlags_Wrapped else LineFlags_None.

(** [markedFlag] *)
Definition markedFlag (l : Line) : Z :=
  if marked l then LineFlags_Marked else LineFlags_None.

(** [inheritableFlags]; the cast to [LineFlags] keeps the low 8 bits. *)
Definition inheritableFlags (l : Line) : Z :=
  let Inheritables := Z.lor LineFlags_Wrappable LineFlags_Marked in
  Z.land (_flags l) Inheritables mod 2 ^ 8.

(** [Line& operator=(Line const&)] and [Line& operator=(Line&&)], both
    defaulted: the storage and the flags of the other line are taken over. *)
Definition assign (l other : Line) : Line :=
  {| _storage := _storage other; _flags := _flags other |}.

(** [trivialBuffer]: the buffer the returned reference designates; [None]
    when [std::get] throws because the line is inflated. *)
Definition trivialBuffer (l : Line) : option TrivialLineBuffer :=
  match _storage l with
  | Trivial buffer => Some buffer
  | Inflated _ => None
  end.

(** The member functions of [Line] that Line.h defines, the defaulted copy
    and move assignment among them, as operations on a line.  Members that
    hand out references ([cells], [useRange], [useCellAt], [inflatedBuffer],
    [trivialBuffer]) let the caller change the contents of the buffer, not
    the alternative the storage holds.  [OpIsFlagEnabled] stands for
    [isFlagEnabled] and the members that only call it ([marked], [wrapped],
    [wrappable], [wrappableFlag], [wrappedFlag], [markedFlag]); [setMarked],
    [setWrapped] and [setWrappable] are calls of [setFlag].  Line.h only
    declares [resize], [reflow], [trim_blank_right], [toUtf8] and
    [toUtf8Trimmed]: their bodies are in a file that is not among the
    sources embedded here, and they are not operations of this type. *)
Inductive Operation : Type :=
| OpAssign (other : Line)
| OpReset (flags : Z) (attributes : GraphicsAttributes)
| OpResetCount (flags : Z) (attributes : GraphicsAttributes) (count : Z)
| OpFill (flags : Z) (attributes : GraphicsAttributes) (codepoint width : Z)
| OpFillAscii (start : Z) (sgr : GraphicsAttributes) (ascii : list Z)
| OpEmpty
| OpSize
| OpCells
| OpUseRange (start count : Z)
| OpUseCellAt (column : Z)
| OpCellEmptyAt (column : Z)
| OpCellWidthAt (column : Z)
| OpFlags
| OpInheritableFlags
| OpSetFlag (flag : Z) (enable : bool)
| OpIsFlagEnabled (flag : Z)
| OpInflatedBuffer
| OpTrivialBuffer
| OpIsTrivialBuffer
| OpIsInflatedBuffer
| OpSetBuffer (buffer : LineStorage)
| OpMatchTextAt (text : list Z) (startColumn : Z)
| OpSearch (text : list Z) (startColumn : Z)
| OpSearchReverse (text : list Z) (startColumn : Z).

(** The line a call leaves behind.  A call without a defined result leaves
    the line as it is at the point of failure. *)
Definition after (op : Operation) (l : Line) : Line :=
  match op with
  | OpAssign other => assign l other
  | OpReset flags attributes => reset l flags attributes
  | OpResetCount flags attributes count => reset_count l flags attributes count
  | OpFill flags attributes codepoint width => fill l flags attributes codepoint width
  | OpFillAscii start sgr ascii =>
      match fill_ascii l start sgr ascii with
      | Some l' => l'
      | None => fst (inflatedBuffer l)
      end
  | OpEmpty => l
  | OpSize => l
  | OpCells => fst (cells l)
  | OpUseRange start count =>
      match useRange l start count with
      | Some (l', _) => l'
      | None => fst (inflatedBuffer l)
      end
  | OpUseCellAt column =>
      match useCellAt l column with
      | Some (l', _) => l'
      | None => if (0 <=? column) && (column <=? size l) then fst (inflatedBuffer l) else l
      end
  | OpCellEmptyAt column =>
      match cellEmptyAt l column with
      | Some (l', _) => l'
      | None => l
      end
  | OpCellWidthAt column =>
      match cellWidthAt l column with
      | Some (l', _) => l'
      | None => fst (inflatedBuffer l)
      end
  | OpFlags => l
  | OpInheritableFlags => l
  | OpSetFlag flag enable => setFlag l flag enable
  | OpIsFlagEnabled _ => l
  | OpInflatedBuffer => fst (inflatedBuffer l)
  | OpTrivialBuffer => l
  | OpIsTrivialBuffer => l
  | OpIsInflatedBuffer => l
  | OpSetBuffer buffer => setBuffer l buffer
  | OpMatchTextAt _ _ => l
  | OpSearch _ _ => l
  | OpSearchReverse _ _ => l
  end.

(** The operations that install a storage of their own choosing: copy and
    move assignment, [reset] in both overloads, [fill] with the code point
    0, which is a [reset], and [setBuffer]. *)
Definition replaces_storage (op : Operation) : bool :=
  match op with
  | OpAssign _ => true
  | OpReset _ _ => true
  | OpResetCount _ _ _ => true
  | OpFill _ _ codepoint _ => codepoint =? 0
  | OpSetBuffer _ => true
  | _ => false
  end.

(** The calls that set the number of columns themselves: copy and move
    assignment, [reset] with a count, and [setBuffer]. *)
Definition sets_size (op : Operation) : bool :=
  match op with
  | OpAssign _ => true
  | OpResetCount _ _ _ => true
  | OpSetBuffer _ => true
  | _ => false
  end.

End WithCell.

Arguments LineStorage Cell : clear implicits.
Arguments Line Cell : clear implicits.


(** A trivial line holding US-ASCII text, with default attributes. *)
Definition trivialLine (width : Z) (content : list Z) : Line Cell.CompactCell :=
  mkLine
    (Trivial
       (mkTrivialLineBuffer width Cell.GraphicsAttributes_default
          Cell.GraphicsAttributes_default 0 (StringView.size content) content))
    0.

(** The same content forced into inflated form. *)
Definition inflatedLine (width : Z) (content : list Z) : Line Cell.CompactCell :=
  fst (inflatedBuffer (trivialLine width content)).

End Line.

(* ====================================================================== *)
(** * vtbackend/Sequencer.cpp *)
(* ====================================================================== *)

Module Sequencer.

Import Functions.

(** Modelled from the spec: [Sequence] (Sequence.h) is not among the sources
    embedded here.  The design document describes a Sequence as category,
    leader byte (0 if none), an ordered list of parameters, each a simple
    integer or colon-separated sub-parameters, the intermediate characters
    (the string collected for an OSC) and the final byte.  A parameter slot
    is the list of its value followed by its sub-parameters; the slot and
    the value being built are the last ones. *)
Record Sequence : Set := mkSequence {
  seq_category : FunctionCategory;
  leaderSymbol : Z;
  parameters : list (list Z);
  intermediateCharacters : list Z;
  finalChar : Z
}.

(** Modelled from the spec: [Sequence::setCategory], the setter of the category. *)
Definition setCategory (s : Sequence) (c : FunctionCategory) : Sequence :=
  mkSequence c (leaderSymbol s) (parameters s) (intermediateCharacters s) (finalChar s).

(** Modelled from the spec: [Sequence::setLeader], the setter of the leader byte. *)
Definition setLeader (s : Sequence) (ch : Z) : Sequence :=
  mkSequence (seq_category s) ch (parameters s) (intermediateCharacters s) (finalChar s).

(** Modelled from the spec: [Sequence::setFinalChar], the setter of the final byte. *)
Definition setFinalChar (s : Sequence) (ch : Z) : Sequence :=
  mkSequence (seq_category s) (leaderSymbol s) (parameters s) (intermediateCharacters s) ch.

(** Modelled from the spec: assignment through the reference
    [Sequence::intermediateCharacters] returns. *)
Definition setIntermediateCharacters (s : Sequence) (ic : list Z) : Sequence :=
  mkSequence (seq_category s) (leaderSymbol s) (parameters s) ic (finalChar s).

(** Modelled from the spec: assignment through the reference
    [Sequence::parameters] returns. *)
Definition setParameters (s : Sequence) (ps : list (list Z)) : Sequence :=
  mkSequence (seq_category s) (leaderSymbol s) ps (intermediateCharacters s) (finalChar s).

(** [SequenceParameterBuilder] (Sequence.h), which is not among the sources
    embedded here. *)
Module ParameterBuilder.

(** Apply [f] to the last element of a list. *)
Definition update_last {A : Type} (f : A -> A) (l : list A) : list A :=
  match reverse l with
  | [] => []
  | x :: r => reverse (f x :: r)
  end.

(** Modelled from the spec: [SequenceParameterBuilder::reset]; collection
    starts with one parameter of value 0. *)
Definition reset : list (list Z) := [[0]].

(** Modelled from the spec: [SequenceParameterBuilder::set]; the value being
    built is overwritten. *)
Definition set (ps : list (list Z)) (value : Z) : list (list Z) :=
  update_last (update_last (fun _ => value)) ps.

(** Modelled from the spec: [SequenceParameterBuilder::multiplyBy10AndAdd];
    parameters are collected as ASCII digits. *)
Definition multiplyBy10AndAdd (ps : list (list Z)) (digit : Z) : list (list Z) :=
  update_last (update_last (fun v => v * 10 + digit)) ps.

(** Modelled from the spec: [SequenceParameterBuilder::nextParameter]; a
    semicolon separates top-level parameters. *)
Definition nextParameter (ps : list (list Z)) : list (list Z) := ps ++ [[0]].

(** Modelled from the spec: [SequenceParameterBuilder::nextSubParameter]; a
    colon separates sub-parameters within one parameter slot. *)
Definition nextSubParameter (ps : list (list Z)) : list (list Z) :=
  update_last (fun slot => slot ++ [0]) ps.

(** Modelled from the spec: [SequenceParameterBuilder::fixiate]; it closes the
    list of parameters, which in this model is the list itself. *)
Definition fixiate (ps : list (list Z)) : list (list Z) := ps.

End ParameterBuilder.

(** Modelled from the spec: [parser::extractCodePrefix], see
    [extractCodePrefix]; the loop over the leading decimal digits, which
    returns the code, the number of digits and the rest of the string. *)
Fixpoint extractCodePrefix_digits (data : list Z) (code : Z) (i : Z) : Z * Z * list Z :=
  match data with
  | ch :: data' =>
      if (chr "0" <=? ch) && (ch <=? chr "9") then
        extractCodePrefix_digits data' (code * 10 + (ch - chr "0")) (i + 1)
      else (code, i, data)
  | [] => (code, i, data)
  end.

(** Modelled from the spec: [parser::extractCodePrefix] is not among the
    sources embedded here.  For an OSC the numeric code prefix is extracted
    from the accumulated string before the remaining string is handed on:
    the leading decimal digits give the code, and the semicolon after them
    is skipped as well.  The result is the code and the number of bytes to
    skip. *)
Definition extractCodePrefix (data : list Z) : Z * Z :=
  let '(code, i, rest) := extractCodePrefix_digits data 0 0 in
  match rest with
  | ch :: _ => if ch =? chr ";" then (code, i + 1) else (code, i)
  | [] => (code, i)
  end.

(** Modelled from the spec: [ScreenType] (primitives.h) is not among the
    sources embedded here.  The screen buffer selection is Primary or
    Alternate. *)
Inductive ScreenType : Set := Primary | Alternate.

(** The collaborators of the Sequencer whose code is not among the sources
    embedded here, as an interface: the screen that handles text, control
    codes and sequences ([Terminal::sequenceHandler]), the queries the
    Sequencer makes of a screen, the parser an extension hooks for a DCS
    sequence, and the constant [Sequence::MaxOscLength].  The handlers act
    on the screen; the instruction counter belongs to the terminal. *)
Class Collaborators (Cell Screen Hooked : Type) := {
  (** [Screen::writeText(char32_t)] *)
  writeText : Screen -> Z -> Screen;
  (** [Screen::writeText(std::string_view, size_t)] *)
  writeText_run : Screen -> list Z -> Z -> Screen;
  (** The C0 handler that [Screen::executeControlCode] selects. *)
  executeC0 : Screen -> Z -> Screen;
  (** [Screen::processSequence]; it may hook a parser for a DCS. *)
  processSequence : Screen -> Sequence -> Screen * option Hooked;
  (** [ParserExtension::pass] and [ParserExtension::finalize] *)
  pass : Hooked -> Z -> Hooked;
  finalize : Hooked -> Screen -> Screen;
  (** [cursor().position.column], [margin().horizontal.to], [currentLine()] *)
  cursor_position_column : Screen -> Z;
  margin_horizontal_to : Screen -> Z;
  currentLine : Screen -> Line.Line Cell;
  (** [Sequence::MaxOscLength], a [size_t] *)
  MaxOscLength : nat
}.

Section WithCollaborators.

Context {Cell Screen Hooked : Type} `{Collaborators Cell Screen Hooked}.

(** Modelled from the spec: [Terminal] (Terminal.h) is not among the sources
    embedded here.  What the Sequencer uses of the terminal is modelled: the
    instruction counter of its state, the page width of its settings, and
    its screen buffers, one of which is the active one. *)
Record Terminal : Type := mkTerminal {
  instructionCounter : Z;
  pageSize_columns : Z;
  activeScreen : ScreenType;
  primaryScreen : Screen;
  alternateScreen : Screen
}.

(** Modelled from the spec: [Terminal::isPrimaryScreen]; the active screen
    buffer is the primary one. *)
Definition isPrimaryScreen (t : Terminal) : bool :=
  match activeScreen t with
  | Primary => true
  | Alternate => false
  end.

(** Modelled from the spec: [Terminal::currentScreen], the active screen buffer. *)
Definition currentScreen (t : Terminal) : Screen :=
  match activeScreen t with
  | Primary => primaryScreen t
  | Alternate => alternateScreen t
  end.

(** Modelled from the spec: the effect of a handler on the screen that
    [Terminal::sequenceHandler] designates, the active one. *)
Definition setCurrentScreen (t : Terminal) (s : Screen) : Terminal :=
  match activeScreen t with
  | Primary =>
      mkTerminal (instructionCounter t) (pageSize_columns t) (activeScreen t)
        s (alternateScreen t)
  | Alternate =>
      mkTerminal (instructionCounter t) (pageSize_columns t) (activeScreen t)
        (primaryScreen t) s
  end.

(** Modelled from the spec: assignment to [Terminal::state().instructionCounter],
    modelled without an upper bound. *)
Definition setInstructionCounter (t : Terminal) (n : Z) : Terminal :=
  mkTerminal n (pageSize_columns t) (activeScreen t) (primaryScreen t) (alternateScreen t).

(** Modelled from the spec: [Screen::executeControlCode] is not among
    the sources embedded here.  The design document has [execute(controlByte)] invoke
    the matching C0 handler immediately and names the increment of the
    instruction counter as a side effect of every print and execute;
    [Sequencer::execute] does nothing but call this function, so the
    increment is placed here. *)
Definition executeControlCode (t : Terminal) (controlCode : Z) : Terminal :=
  let t := setInstructionCounter t (instructionCounter t + 1) in
  setCurrentScreen t (executeC0 (currentScreen t) controlCode).

(** [class Sequencer]: the members Sequencer.cpp uses.  The parameter
    builder works on the parameters of [_sequence] and has no state of its
    own in this model. *)
Record Sequencer : Type := mkSequencer {
  _terminal : Terminal;
  _sequence : Sequence;
  _hookedParser : option Hooked
}.

(** The Sequencer with its terminal replaced. *)
Definition withTerminal (sq : Sequencer) (t : Terminal) : Sequencer :=
  mkSequencer t (_sequence sq) (_hookedParser sq).

(** The Sequencer with its sequence replaced. *)
Definition withSequence (sq : Sequencer) (s : Sequence) : Sequencer :=
  mkSequencer (_terminal sq) s (_hookedParser sq).

(** Modelled from the spec: [Sequencer::clear] (Sequencer.h) is not among the
    sources embedded here.  A Sequence is consumed and reset after
    dispatch: the collected sequence is forgotten and parameter collection
    starts afresh. *)
Definition clear (sq : Sequencer) : Sequencer :=
  withSequence sq (mkSequence C0 0 ParameterBuilder.reset [] 0).

(** [Sequencer::print(char32_t)] *)
Definition print (sq : Sequencer) (codepoint : Z) : Sequencer :=
  let t := _terminal sq in
  let t := setInstructionCounter t (instructionCounter t + 1) in
  let t := setCurrentScreen t (writeText (currentScreen t) codepoint) in
  withTerminal sq t.

(** [Sequencer::print(string_view, size_t)]; [None] when the assertion
    [!chars.empty()] fails. *)
Definition print_run (sq : Sequencer) (chars : list Z) (cellCount : Z)
  : option (Sequencer * Z) :=
  if bool_decide (chars = []) then None
  else
    let t := _terminal sq in
    let t := setInstructionCounter t (instructionCounter t + StringView.size chars) in
    let t := setCurrentScreen t (writeText_run (currentScreen t) chars cellCount) in
    Some (withTerminal sq t,
          to_size_t (to_size_t (pageSize_columns t)
                     - to_size_t (cursor_position_column (currentScreen t)))).

(** [Sequencer::execute] *)
Definition execute (sq : Sequencer) (controlCode : Z) : Sequencer :=
  withTerminal sq (executeControlCode (_terminal sq) controlCode).

(** [Sequencer::collect] *)
Definition collect (sq : Sequencer) (ch : Z) : Sequencer :=
  withSequence sq
    (setIntermediateCharacters (_sequence sq)
       (intermediateCharacters (_sequence sq) ++ [ch])).

(** [Sequencer::collectLeader] *)
Definition collectLeader (sq : Sequencer) (leader : Z) : Sequencer :=
  withSequence sq (setLeader (_sequence sq) leader).

(** Modelled from the spec: [Sequencer::paramSeparator] (Sequencer.h) is not
    among the sources embedded here; a semicolon starts the next
    parameter. *)
Definition paramSeparator (sq : Sequencer) : Sequencer :=
  withSequence sq
    (setParameters (_sequence sq) (ParameterBuilder.nextParameter (parameters (_sequence sq)))).

(** Modelled from the spec: [Sequencer::paramSubSeparator] (Sequencer.h) is
    not among the sources embedded here; a colon starts the next
    sub-parameter. *)
Definition paramSubSeparator (sq : Sequencer) : Sequencer :=
  withSequence sq
    (setParameters (_sequence sq)
       (ParameterBuilder.nextSubParameter (parameters (_sequence sq)))).

(** Modelled from the spec: [Sequencer::paramDigit] (Sequencer.h) is not
    among the sources embedded here; the digit is appended to the
    parameter being built. *)
Definition paramDigit (sq : Sequencer) (ch : Z) : Sequencer :=
  withSequence sq
    (setParameters (_sequence sq)
       (ParameterBuilder.multiplyBy10AndAdd (parameters (_sequence sq)) (ch - chr "0"))).

(** [Sequencer::param] *)
Definition param (sq : Sequencer) (ch : Z) : Sequencer :=
  if ch =? chr ";" then paramSeparator sq
  else if ch =? chr ":" then paramSubSeparator sq
  else if (chr "0" <=? ch) && (ch <=? chr "9") then paramDigit sq ch
  else sq.

(** [Sequencer::handleSequence] *)
Definition handleSequence (sq : Sequencer) : Sequencer :=
  let sq :=
    withSequence sq
      (setParameters (_sequence sq) (ParameterBuilder.fixiate (parameters (_sequence sq)))) in
  let t := _terminal sq in
  let '(screen, hooked) := processSequence (currentScreen t) (_sequence sq) in
  mkSequencer (setCurrentScreen t screen) (_sequence sq)
    (match hooked with
     | Some p => Some p
     | None => _hookedParser sq
     end).

(** [Sequencer::dispatchESC] *)
Definition dispatchESC (sq : Sequencer) (finalChar : Z) : Sequencer :=
  let sq := withSequence sq (setCategory (_sequence sq) ESC) in
  let sq := withSequence sq (setFinalChar (_sequence sq) finalChar) in
  handleSequence sq.

(** [Sequencer::dispatchCSI] *)
Definition dispatchCSI (sq : Sequencer) (finalChar : Z) : Sequencer :=
  let sq := withSequence sq (setCategory (_sequence sq) CSI) in
  let sq := withSequence sq (setFinalChar (_sequence sq) finalChar) in
  handleSequence sq.

(** [Sequencer::startOSC] *)
Definition startOSC (sq : Sequencer) : Sequencer :=
  withSequence sq (setCategory (_sequence sq) OSC).

(** [Sequencer::putOSC] *)
Definition putOSC (sq : Sequencer) (ch : Z) : Sequencer :=
  if StringView.size (intermediateCharacters (_sequence sq)) + 1 <? Z.of_nat MaxOscLength then
    withSequence sq
      (setIntermediateCharacters (_sequence sq)
         (intermediateCharacters (_sequence sq) ++ [ch]))
  else sq.

(** The Sequencer after an OSC has been started on a cleared sequence and
    the bytes of its string have been put one after the other. *)
Definition collectOSC (sq : Sequencer) (bytes : list Z) : Sequencer :=
  fold_left putOSC bytes (startOSC (clear sq)).

(** The sequence [dispatchOSC] hands to [handleSequence]: the code prefix
    becomes the parameter and is erased from the string. *)
Definition prepareOSC (s : Sequence) : Sequence :=
  let '(code, skipCount) := extractCodePrefix (intermediateCharacters s) in
  let s := setParameters s (ParameterBuilder.set (parameters s) code) in
  setIntermediateCharacters s (drop (Z.to_nat skipCount) (intermediateCharacters s)).

(** [Sequencer::dispatchOSC] *)
Definition dispatchOSC (sq : Sequencer) : Sequencer :=
  let sq := withSequence sq (prepareOSC (_sequence sq)) in
  let sq := handleSequence sq in
  clear sq.

(** [Sequencer::hook] *)
Definition hook (sq : Sequencer) (finalChar : Z) : Sequencer :=
  let t := _terminal sq in
  let sq := withTerminal sq (setInstructionCounter t (instructionCounter t + 1)) in
  let sq := withSequence sq (setCategory (_sequence sq) DCS) in
  let sq := withSequence sq (setFinalChar (_sequence sq) finalChar) in
  handleSequence sq.

(** [Sequencer::put] *)
Definition put (sq : Sequencer) (ch : Z) : Sequencer :=
  match _hookedParser sq with
  | Some p => mkSequencer (_terminal sq) (_sequence sq) (Some (pass p ch))
  | None => sq
  end.

(** [Sequencer::unhook] *)
Definition unhook (sq : Sequencer) : Sequencer :=
  match _hookedParser sq with
  | Some p =>
      let t := _terminal sq in
      mkSequencer (setCurrentScreen t (finalize p (currentScreen t))) (_sequence sq) None
  | None => sq
  end.

(** [Sequencer::maxBulkTextSequenceWidth]; [None] when the assertion that
    the cursor is not beyond the right margin fails. *)
Definition maxBulkTextSequenceWidth (sq : Sequencer) : option Z :=
  let t := _terminal sq in
  if negb (isPrimaryScreen t) then Some 0
  else if negb (Line.isTrivialBuffer (currentLine (primaryScreen t))) then Some 0
  else if margin_horizontal_to (currentScreen t)
          >=? cursor_position_column (currentScreen t) then
    Some (to_size_t (margin_horizontal_to (currentScreen t)
                     - cursor_position_column (currentScreen t)))
  else None.

End WithCollaborators.

Arguments Terminal Screen : clear implicits.
Arguments Sequencer Screen Hooked : clear implicits.

End Sequencer.

(* ====================================================================== *)
(** * vtparser: the escape-sequence state machine *)
(* ====================================================================== *)

Module Parser.

Import Sequencer.

(** Modelled from the spec: [State] (Parser.h) is not among the sources
    embedded here; Parser.cpp prints the table's [transitions], in which
    [State::Undefined] stands for no transition.  The design document lists
    the states. *)
Inductive State : Set :=
| Undefined
| Ground
| Escape
| EscapeIntermediate
| CSI_Entry
| CSI_Param
| CSI_Intermediate
| CSI_Ignore
| DCS_Entry
| DCS_Param
| DCS_Intermediate
| DCS_PassThrough
| DCS_Ignore
| OSC_String
| SOS_PM_APC_String.

(** Modelled from the spec: [Action] (Parser.h) is not among the sources
    embedded here.  The design document lists the action tags. *)
Inductive Action : Set :=
| Ignore
| Print
| Execute
| Clear
| Collect
| CollectLeader
| Param
| ESC_Dispatch
| CSI_Dispatch
| Hook
| Put
| Unhook
| OSC_Start
| OSC_Put
| OSC_End.

(** Modelled from the spec: [ParserTable] (Parser.h) is not among the sources
    embedded here.  The transition table is a dense mapping from state and
    byte to the next state, plus an action tag per transition. *)
Record ParserTable : Type := mkParserTable {
  transitions : State -> Z -> State;
  events : State -> Z -> Action
}.

(** Modelled from the spec: the state of the code point decoder of the print
    path, which is not among the sources embedded here: the number of
    continuation bytes still expected and the bits accumulated so far. *)
Record Utf8Decoder : Set := mkUtf8Decoder {
  expected : nat;
  accumulated : Z
}.

(** Modelled from the spec: the replacement emitted on invalid sequences, U+FFFD. *)
Definition ReplacementCharacter : Z := 0xFFFD.

(** Modelled from the spec: the code point decoder of the print path.  It
    accumulates continuation bytes and emits one code point once complete,
    or the replacement character on an invalid sequence. *)
Definition decode (d : Utf8Decoder) (byte : Z) : Utf8Decoder * option Z :=
  match expected d with
  | O =>
      if byte <? 0x80 then (mkUtf8Decoder 0 0, Some byte)
      else if Z.land byte 0xE0 =? 0xC0 then (mkUtf8Decoder 1 (Z.land byte 0x1F), None)
      else if Z.land byte 0xF0 =? 0xE0 then (mkUtf8Decoder 2 (Z.land byte 0x0F), None)
      else if Z.land byte 0xF8 =? 0xF0 then (mkUtf8Decoder 3 (Z.land byte 0x07), None)
      else (mkUtf8Decoder 0 0, Some ReplacementCharacter)
  | S n =>
      if Z.land byte 0xC0 =? 0x80 then
        let cp := Z.lor (Z.shiftl (accumulated d) 6) (Z.land byte 0x3F) in
        match n with
        | O => (mkUtf8Decoder 0 0, Some cp)
        | S _ => (mkUtf8Decoder n cp, None)
        end
      else (mkUtf8Decoder 0 0, Some ReplacementCharacter)
  end.

Section WithTable.

Context {Cell Screen Hooked : Type} `{Collaborators Cell Screen Hooked}.

Variable table : ParserTable.

(** Modelled from the spec: [Parser] (Parser.h) is not among the sources
    embedded here.  The parser holds the current state of the machine, the
    decoder of the print path and the event listener, which is the
    Sequencer. *)
Record Parser : Type := mkParser {
  _state : State;
  _decoder : Utf8Decoder;
  _eventListener : Sequencer Screen Hooked
}.

(** Modelled from the spec: [Parser::handle] (Parser.h) is not among the
    sources embedded here.  Each action tag stands for one primitive event,
    which is delivered to the Sequencer; printing goes through the
    decoder. *)
Definition handle (p : Parser) (action : Action) (ch : Z) : Parser :=
  let sq := _eventListener p in
  match action with
  | Ignore => p
  | Print =>
      let '(d, emitted) := decode (_decoder p) ch in
      match emitted with
      | Some codepoint => mkParser (_state p) d (print sq codepoint)
      | None => mkParser (_state p) d sq
      end
  | Execute => mkParser (_state p) (_decoder p) (execute sq ch)
  | Clear => mkParser (_state p) (_decoder p) (clear sq)
  | Collect => mkParser (_state p) (_decoder p) (collect sq ch)
  | CollectLeader => mkParser (_state p) (_decoder p) (collectLeader sq ch)
  | Param => mkParser (_state p) (_decoder p) (param sq ch)
  | ESC_Dispatch => mkParser (_state p) (_decoder p) (dispatchESC sq ch)
  | CSI_Dispatch => mkParser (_state p) (_decoder p) (dispatchCSI sq ch)
  | Hook => mkParser (_state p) (_decoder p) (hook sq ch)
  | Put => mkParser (_state p) (_decoder p) (put sq ch)
  | Unhook => mkParser (_state p) (_decoder p) (unhook sq)
  | OSC_Start => mkParser (_state p) (_decoder p) (startOSC sq)
  | OSC_Put => mkParser (_state p) (_decoder p) (putOSC sq ch)
  | OSC_End => mkParser (_state p) (_decoder p) (dispatchOSC sq)
  end.

(** Modelled from the spec: the step of the state machine (Parser.h) is not
    among the sources embedded here.  The machine is driven by one input
    byte at a time; the byte's action is performed and the state changes
    when the table has a transition. *)
Definition processByte (p : Parser) (ch : Z) : Parser :=
  let p' := handle p (events table (_state p) ch) ch in
  match transitions table (_state p) ch with
  | Undefined => p'
  | t => mkParser t (_decoder p') (_eventListener p')
  end.

(** The parser with its event listener replaced. *)
Definition withListener (p : Parser) (sq : Sequencer Screen Hooked) : Parser :=
  mkParser (_state p) (_decoder p) sq.

(** Modelled from the spec: the text path of [Parser::parseFragment]
    (Parser.h) is not among the sources embedded here.  Text is printed
    through [print(codepoint)] and [print(run, cellCount)]: a run write only
    occurs when the destination line is in trivial form and the full run
    fits in the remaining margin, otherwise the text is placed one code
    point at a time.  The parser learns both from the width the Sequencer
    permits, [maxBulkTextSequenceWidth]; a run of US-ASCII text has one cell
    per byte.  [None] when the assertion of [maxBulkTextSequenceWidth]
    fails. *)
Definition printText (sq : Sequencer Screen Hooked) (run : list Z)
  : option (Sequencer Screen Hooked) :=
  match run with
  | [] => Some sq
  | _ :: _ =>
      match maxBulkTextSequenceWidth sq with
      | None => None
      | Some width =>
          if StringView.size run <=? width then
            match print_run sq run (StringView.size run) with
            | Some (sq', _) => Some sq'
            | None => None
            end
          else Some (fold_left print run sq)
      end
  end.

(** Modelled from the spec: the bytes of a bulk run.  Ground's default
    action for printable bytes is to print; the printable bytes that are a
    code point of their own are those of US-ASCII, and they start a run
    when the parser is in Ground and the decoder of the print path is not
    in the middle of a code point. *)
Definition inBulkText (p : Parser) (ch : Z) : bool :=
  match _state p, expected (_decoder p) with
  | Ground, O => (0x20 <=? ch) && (ch <=? 0x7E)
  | _, _ => false
  end.

(** Modelled from the spec: the run collected so far is handed to the text
    path. *)
Definition flushRun (p : Parser) (run : list Z) : option Parser :=
  match printText (_eventListener p) run with
  | None => None
  | Some sq => Some (withListener p sq)
  end.

(** Modelled from the spec: the loop of [Parser::parseFragment] over the
    bytes of one call; [run] is the text met since the last byte that went
    through the state machine.  A run ends with the first byte that is not
    text, or with the buffer. *)
Fixpoint parseLoop (p : Parser) (run : list Z) (bytes : list Z) : option Parser :=
  match bytes with
  | [] => flushRun p run
  | ch :: rest =>
      if inBulkText p ch then parseLoop p (run ++ [ch]) rest
      else
        match flushRun p run with
        | None => None
        | Some p' => parseLoop (processByte p' ch) [] rest
        end
  end.

(** Modelled from the spec: [Parser::parseFragment] (Parser.h) is not among
    the sources embedded here.  A contiguous byte buffer is fed to the
    parser: runs of text go to the text path, every other byte drives the
    state machine, and what is left of an incomplete sequence stays in the
    parser as state.  [None] when an assertion of the Sequencer fails on
    the way. *)
Definition parseFragment (p : Parser) (bytes : list Z) : option Parser :=
  parseLoop p [] bytes.

(** The grid state a parser run results in: the terminal with its
    screens. *)
Definition terminal (p : Parser) : Terminal Screen := _terminal (_eventListener p).

(** Feeding a byte sequence cut into chunks, one chunk per call of
    [parseFragment]. *)
Fixpoint parseChunks (p : Parser) (chunks : list (list Z)) : option Parser :=
  match chunks with
  | [] => Some p
  | chunk :: rest =>
      match parseFragment p chunk with
      | None => None
      | Some p' => parseChunks p' rest
      end
  end.

(** Feeding a byte sequence one byte per call of [parseFragment]. *)
Definition parseBytewise (p : Parser) (bytes : list Z) : option Parser :=
  parseChunks p (map (fun ch => [ch]) bytes).


End WithTable.

Arguments Parser Screen Hooked : clear implicits.

(** Is [ch] between [lo] and [hi], both inclusive? *)
Definition between (lo hi ch : Z) : bool := (lo <=? ch) && (ch <=? hi).

(** Modelled from the spec: the contents of the table (Parser.h) are not
    among the sources embedded here.  These are the transitions the design
    document spells out: CAN and SUB return to Ground from anywhere, ESC
    restarts sequence collection from anywhere, a CSI consists of leader or
    parameter bytes, intermediates and a final byte, and an OSC string is
    collected until BEL. *)
Definition vt_transitions (s : State) (ch : Z) : State :=
  if (ch =? 0x18) || (ch =? 0x1A) then Ground
  else if ch =? 0x1B then Escape
  else
    match s with
    | Escape =>
        if ch =? chr "[" then CSI_Entry
        else if ch =? chr "]" then OSC_String
        else if ch =? chr "P" then DCS_Entry
        else if between 0x20 0x2F ch then EscapeIntermediate
        else if between 0x30 0x7E ch then Ground
        else Undefined
    | EscapeIntermediate => if between 0x30 0x7E ch then Ground else Undefined
    | CSI_Entry =>
        if between 0x30 0x3B ch then CSI_Param
        else if between 0x3C 0x3F ch then CSI_Param
        else if between 0x20 0x2F ch then CSI_Intermediate
        else if between 0x40 0x7E ch then Ground
        else Undefined
    | CSI_Param =>
        if between 0x30 0x3B ch then Undefined
        else if between 0x3C 0x3F ch then CSI_Ignore
        else if between 0x20 0x2F ch then CSI_Intermediate
        else if between 0x40 0x7E ch then Ground
        else Undefined
    | CSI_Intermediate =>
        if between 0x30 0x3F ch then CSI_Ignore
        else if between 0x40 0x7E ch then Ground
        else Undefined
    | CSI_Ignore => if between 0x40 0x7E ch then Ground else Undefined
    | OSC_String => if ch =? 0x07 then Ground else Undefined
    | _ => Undefined
    end.

(** Modelled from the spec: the action tags of the transitions the design
    document spells out: CAN and SUB are executed and ESC clears the
    sequence, Ground prints printable bytes and executes controls,
    parameters are digits separated by semicolon or colon, and the OSC
    string is started, put byte by byte and dispatched at BEL. *)
Definition vt_events (s : State) (ch : Z) : Action :=
  if (ch =? 0x18) || (ch =? 0x1A) then Execute
  else if ch =? 0x1B then Clear
  else
    match s with
    | Ground =>
        if between 0x00 0x1F ch || (ch =? 0x7F) then Execute else Print
    | Escape =>
        if ch =? chr "[" then Clear
        else if ch =? chr "]" then OSC_Start
        else if ch =? chr "P" then Clear
        else if between 0x00 0x1F ch then Execute
        else if between 0x20 0x2F ch then Collect
        else if between 0x30 0x7E ch then ESC_Dispatch
        else Ignore
    | EscapeIntermediate =>
        if between 0x00 0x1F ch then Execute
        else if between 0x20 0x2F ch then Collect
        else if between 0x30 0x7E ch then ESC_Dispatch
        else Ignore
    | CSI_Entry =>
        if between 0x00 0x1F ch then Execute
        else if between 0x30 0x3B ch then Param
        else if between 0x3C 0x3F ch then CollectLeader
        else if between 0x20 0x2F ch then Collect
        else if between 0x40 0x7E ch then CSI_Dispatch
        else Ignore
    | CSI_Param =>
        if between 0x00 0x1F ch then Execute
        else if between 0x30 0x3B ch then Param
        else if between 0x20 0x2F ch then Collect
        else if between 0x40 0x7E ch then CSI_Dispatch
        else Ignore
    | CSI_Intermediate =>
        if between 0x00 0x1F ch then Execute
        else if between 0x20 0x2F ch then Collect
        else if between 0x40 0x7E ch then CSI_Dispatch
        else Ignore
    | CSI_Ignore => if between 0x00 0x1F ch then Execute else Ignore
    | OSC_String =>
        if ch =? 0x07 then OSC_End
        else if between 0x20 0xFF ch then OSC_Put
        else Ignore
    | _ => Ignore
    end.

(** Modelled from the spec: the table made of [vt_transitions] and [vt_events]. *)
Definition vt_table : ParserTable := mkParserTable vt_transitions vt_events.

End Parser.

(* ====================================================================== *)
(** * A recording screen *)
(* ====================================================================== *)

Module Recorder.

Import Sequencer.

(** What a recording screen was asked to do. *)
Inductive Event : Set :=
| WriteText (codepoint : Z)
| WriteTextRun (chars : list Z) (cellCount : Z)
| ExecuteControlCode (controlCode : Z)
| ProcessSequence (s : Sequence)
| Finalize (passed : list Z).

(** A stand-in for the screen, used to run the Sequencer and the parser on
    concrete input: it records what it is asked to do and moves its cursor
    column by the cells written. *)
Record Screen : Type := mkScreen {
  events : list Event;
  column : Z;
  rightMargin : Z;
  line : Line.Line Cell.CompactCell
}.

(** Record an event and advance the cursor column. *)
Definition record (s : Screen) (e : Event) (cells : Z) : Screen :=
  mkScreen (events s ++ [e]) (column s + cells) (rightMargin s) (line s).

(** The recording screen as the collaborators of the Sequencer, with a given
    value of [Sequence::MaxOscLength].  A DCS hooks a parser that collects
    the bytes passed to it. *)
Definition collaborators (cap : nat)
  : Collaborators Cell.CompactCell Screen (list Z) := {|
  writeText s codepoint := record s (WriteText codepoint) 1;
  writeText_run s chars cellCount := record s (WriteTextRun chars cellCount) cellCount;
  executeC0 s controlCode := record s (ExecuteControlCode controlCode) 0;
  processSequence s sequence :=
    (record s (ProcessSequence sequence) 0,
     match seq_category sequence with
     | Functions.DCS => Some []
     | _ => None
     end);
  pass p ch := p ++ [ch];
  finalize p s := record s (Finalize p) 0;
  cursor_position_column := column;
  margin_horizontal_to := rightMargin;
  currentLine := line;
  MaxOscLength := cap
|}.

(** The recorder with room for an OSC string of 511 bytes. *)
Definition recorder : Collaborators Cell.CompactCell Screen (list Z) :=
  collaborators 512.

(** The recorder with room for an OSC string of 7 bytes only. *)
Definition recorder8 : Collaborators Cell.CompactCell Screen (list Z) :=
  collaborators 8.

(** An empty recording screen of 80 columns, the cursor at the left of an
    empty trivial line. *)
Definition screen0 : Screen := mkScreen [] 0 79 (Line.trivialLine 80 []).

(** An 80 column terminal on its primary screen. *)
Definition terminal0 : Terminal Screen := mkTerminal 0 80 Primary screen0 screen0.

(** A Sequencer on that terminal, with nothing collected. *)
Definition sequencer0 : Sequencer Screen (list Z) :=
  mkSequencer terminal0 (mkSequence Functions.C0 0 ParameterBuilder.reset [] 0) None.

(** The same terminal switched to its alternate screen. *)
Definition sequencer_alternate : Sequencer Screen (list Z) :=
  mkSequencer (mkTerminal 0 80 Alternate screen0 screen0)
    (mkSequence Functions.C0 0 ParameterBuilder.reset [] 0) None.

(** A parser in Ground state in front of that Sequencer. *)
Definition parser0 : Parser.Parser Screen (list Z) :=
  Parser.mkParser Parser.Ground (Parser.mkUtf8Decoder 0 0) sequencer0.

(** The code of each character of a string literal. *)
Fixpoint bytes_of (s : string) : list Z :=
  match s with
  | EmptyString => []
  | String c s' => chr c :: bytes_of s'
  end.

End Recorder.

(* ====================================================================== *)
(** * A screen of one line of text *)
(* ====================================================================== *)

Module TextScreen.

Import Sequencer.

(** A stand-in for the screen on which a run written in bulk and the same
    text written one code point at a time leave the same state: it holds
    the code points written to its only line and the room that is left up
    to the right margin, column 79. *)
Record Screen : Set := mkScreen {
  written : list Z;
  room : nat
}.

(** The screen as the collaborators of the Sequencer.  Control codes and
    sequences leave it as it is, and no parser is hooked. *)
Definition collaborators : Collaborators Cell.CompactCell Screen unit := {|
  writeText s codepoint := mkScreen (written s ++ [codepoint]) (room s - 1);
  writeText_run s chars cellCount :=
    mkScreen (written s ++ chars) (room s - Z.to_nat cellCount);
  executeC0 s controlCode := s;
  processSequence s sequence := (s, None);
  pass p ch := p;
  finalize p s := s;
  cursor_position_column s := 79 - Z.of_nat (room s);
  margin_horizontal_to s := 79;
  currentLine s := Line.trivialLine 80 (written s);
  MaxOscLength := 512
|}.

(** An empty screen, the cursor at column 0. *)
Definition screen0 : Screen := mkScreen [] 79.

(** A parser in Ground state in front of a Sequencer on that screen. *)
Definition parser0 : Parser.Parser Screen unit :=
  Parser.mkParser Parser.Ground (Parser.mkUtf8Decoder 0 0)
    (mkSequencer (mkTerminal 0 80 Primary screen0 screen0)
       (mkSequence Functions.C0 0 ParameterBuilder.reset [] 0) None).

End TextScreen.

(* ====================================================================== *)
(** * vtbackend/CellFlags.h *)
(* ====================================================================== *)

Module CellFlags.

(** [enum class CellFlags : uint32_t]: one bit per flag. *)
Definition CellFlags_None : Z := 0.

(** [CellFlags::Bold] *)
Definition Bold : Z := Z.shiftl 1 0.

(** [CellFlags::Faint] *)
Definition Faint : Z := Z.shiftl 1 1.

(** [CellFlags::Italic] *)
Definition Italic : Z := Z.shiftl 1 2.

(** [CellFlags::Underline] *)
Definition Underline : Z := Z.shiftl 1 3.

(** [CellFlags::Blinking] *)
Definition Blinking : Z := Z.shiftl 1 4.

(** [CellFlags::Inverse] *)
Definition Inverse : Z := Z.shiftl 1 5.

(** [CellFlags::Hidden] *)
Definition Hidden : Z := Z.shiftl 1 6.

(** [CellFlags::CrossedOut] *)
Definition CrossedOut : Z := Z.shiftl 1 7.

(** [CellFlags::DoublyUnderlined] *)
Definition DoublyUnderlined : Z := Z.shiftl 1 8.

(** [CellFlags::CurlyUnderlined] *)
Definition CurlyUnderlined : Z := Z.shiftl 1 9.

(** [CellFlags::DottedUnderline] *)
Definition DottedUnderline : Z := Z.shiftl 1 10.

(** [CellFlags::DashedUnderline] *)
Definition DashedUnderline : Z := Z.shiftl 1 11.

(** [CellFlags::Framed] *)
Definition Framed : Z := Z.shiftl 1 12.

(** [CellFlags::Encircled] *)
Definition Encircled : Z := Z.shiftl 1 13.

(** [CellFlags::Overline] *)
Definition Overline : Z := Z.shiftl 1 14.

(** [CellFlags::RapidBlinking] *)
Definition RapidBlinking : Z := Z.shiftl 1 15.

(** [CellFlags::CharacterProtected] *)
Definition CharacterProtected : Z := Z.shiftl 1 16.

(** [operator|=]: the new value of [a]. *)
Definition or_assign (a b : Z) : Z := Z.lor a b.

(** [operator&=]: the new value of [a]. *)
Definition and_assign (a b : Z) : Z := Z.land a b.

(** [operator&] on flags, a [bool]. *)
Definition intersects (a b : Z) : bool := negb (Z.land a b =? 0).

(** [contains_all] *)
Definition contains_all (base test : Z) : bool := Z.land base test =? test.

(** [operator|]: merges two flag sets. *)
Definition merge (a b : Z) : Z := Z.lor a b.

(** [operator~]: inverts the flag set; the complement of an [unsigned]. *)
Definition invert (a : Z) : Z := to_uint32 (Z.lnot a).

(** [operator!]: tests for the state with all flags cleared. *)
Definition is_none (a : Z) : bool := a =? 0.

End CellFlags.

(* ====================================================================== *)
(** * vtbackend/ColorPalette.h *)
(* ====================================================================== *)

Module ColorPalette.

Section WithColor.

(** [RGBColor] (Color.h), whose definition is not among the sources
    embedded here. *)
Variable RGBColor : Type.

(** [struct ColorPalette]: the members its accessors read.  [Palette] is
    [std::array<RGBColor, 256 + 8>]. *)
Record ColorPalette : Type := mkColorPalette {
  useBrightColors : bool;
  palette : list RGBColor
}.

(** The number of entries of [Palette]. *)
Definition Palette_size : Z := 256 + 8.

(** [std::array::at]; [None] when it throws. *)
Definition at_ (p : list RGBColor) (index : Z) : option RGBColor :=
  if (0 <=? index) && (index <? StringView.size p) then p !! Z.to_nat index else None.

(** [normalColor]; [None] when the assertion fails. *)
Definition normalColor (c : ColorPalette) (index : Z) : option RGBColor :=
  if index <? 8 then at_ (palette c) index else None.

(** [brightColor]; [None] when the assertion fails. *)
Definition brightColor (c : ColorPalette) (index : Z) : option RGBColor :=
  if index <? 8 then at_ (palette c) (index + 8) else None.

(** [dimColor]; [None] when the assertion fails or the unchecked access
    leaves the array. *)
Definition dimColor (c : ColorPalette) (index : Z) : option RGBColor :=
  if index <? 8 then palette c !! Z.to_nat (256 + index) else None.

(** [indexedColor]; [None] when the assertion fails. *)
Definition indexedColor (c : ColorPalette) (index : Z) : option RGBColor :=
  if index <? 256 then at_ (palette c) index else None.

End WithColor.

End ColorPalette.

(* ====================================================================== *)
(** * crispy/point.h *)
(* ====================================================================== *)

Module Point.

(** [struct Point] *)
Record Point : Set := mkPoint {
  x : Z;
  y : Z
}.

(** Is the value an [int]? *)
Definition is_int (v : Z) : bool := (- 2 ^ 31 <=? v) && (v <? 2 ^ 31).

(** A result of [int] arithmetic; [None] on overflow, where the behaviour
    is undefined. *)
Definition int_result (v : Z) : option Z := if is_int v then Some v else None.

(** [operator+] *)
Definition add (a b : Point) : option Point :=
  match int_result (x a + x b), int_result (y a + y b) with
  | Some px, Some py => Some (mkPoint px py)
  | _, _ => None
  end.

(** [swap] *)
Definition swap (a b : Point) : Point * Point :=
  let c := a in
  let a := b in
  let b := c in
  (a, b).

(** [compare] *)
Definition compare (a b : Point) : option Z :=
  match int_result (y a - y b) with
  | None => None
  | Some dr => if negb (dr =? 0) then Some dr else int_result (x a - x b)
  end.

(** [operator<] *)
Definition lt (a b : Point) : option bool :=
  match compare a b with
  | Some c => Some (c <? 0)
  | None => None
  end.

(** [operator<=] *)
Definition le (a b : Point) : option bool :=
  match compare a b with
  | Some c => Some (c <=? 0)
  | None => None
  end.

(** [operator>] *)
Definition gt (a b : Point) : option bool :=
  match compare a b with
  | Some c => Some (c >? 0)
  | None => None
  end.

(** [operator>=] *)
Definition ge (a b : Point) : option bool :=
  match compare a b with
  | Some c => Some (c >=? 0)
  | None => None
  end.

(** [operator==] *)
Definition eq (a b : Point) : bool := (x a =? x b) && (y a =? y b).

(** [operator!=] *)
Definition ne (a b : Point) : bool := negb (eq a b).

End Point.

(* ====================================================================== *)
(** * contour/Config.cpp: helpers *)
(* ====================================================================== *)

Module Config.

(** [std::clamp(v, lo, hi)] *)
Definition clamp (v lo hi : Z) : Z :=
  if v <? lo then lo else if hi <? v then hi else v.

(** [sanitizeRange]: the result and the new value of the referenced
    variable; [None] when [std::clamp] is called with [_max < _min], where
    its behaviour is undefined. *)
Definition sanitizeRange (_value _min _max : Z) : option (bool * Z) :=
  if (_min <=? _value) && (_value <=? _max) then Some (true, _value)
  else if _max <? _min then None
  else Some (false, clamp _value _min _max).

End Config.

(* ====================================================================== *)
(** * vtparser/Parser.cpp: the ranges of parserTableDot *)
(* ====================================================================== *)

Module ParserTableDot.

Import Parser.

(** Equality of states is decidable. *)
#[export] Instance State_eq_dec : EqDecision State.
Proof. solve_decision. Defined.

(** Modelled from the spec: [ParserTable::Range] (Parser.h) is not among the
    sources embedded here; Parser.cpp builds it from two bytes and reads its
    members [first] and [last]. *)
Record Range : Set := mkRange {
  first : Z;
  last : Z
}.

(** [Transition = pair<State, State>]: source and target. *)
Definition Transition : Set := (State * State)%type.

(** [std::map<Transition, RangeSet>] as [operator[]] reads it: a key that
    was never written holds the empty range set.  The keys the map holds
    are those with a range set that is not empty. *)
Definition Transitions : Set := Transition -> list Range.

(** The empty map. *)
Definition no_transitions : Transitions := fun _ => [].

(** Assignment to [transitions[t]]. *)
Definition update (m : Transitions) (t : Transition) (ranges : list Range) : Transitions :=
  fun t' => if decide (t' = t) then ranges else m t'.

(** The body of the inner loop for a range set: the last range grows by
    one when the byte follows it directly, otherwise a range of this one
    byte is appended.  [last] is a [uint8_t]. *)
Fixpoint add_byte (ranges : list Range) (ch : Z) : list Range :=
  match ranges with
  | [] => [mkRange ch ch]
  | back :: [] =>
      if ch =? last back + 1 then [mkRange (first back) ((last back + 1) mod 2 ^ 8)]
      else [back; mkRange ch ch]
  | r :: rest => r :: add_byte rest ch
  end.

(** One round of the inner loop of [parserTableDot], for the byte with
    index [i] of the row of [sourceState]. *)
Definition visit (table : ParserTable) (sourceState : State) (m : Transitions) (i : nat)
  : Transitions :=
  let targetState := transitions table sourceState (Z.of_nat i) in
  let ch := Z.of_nat i mod 2 ^ 8 in
  if decide (targetState = Undefined) then m
  else
    let t := (sourceState, targetState) in
    update m t (add_byte (m t) ch).

(** The states in the order of their rows in the table. *)
Definition states : list State :=
  [Undefined; Ground; Escape; EscapeIntermediate; CSI_Entry; CSI_Param; CSI_Intermediate;
   CSI_Ignore; DCS_Entry; DCS_Param; DCS_Intermediate; DCS_PassThrough; DCS_Ignore;
   OSC_String; SOS_PM_APC_String].

(** The inner loop of [parserTableDot], over the 256 bytes of the row of
    [sourceState]. *)
Definition row (table : ParserTable) (sourceState : State) (m : Transitions)
  : Transitions :=
  fold_left (visit table sourceState) (seq 0 256) m.

(** The first loop of [parserTableDot]: the map from transitions to the
    byte ranges that take them. *)
Definition parserTableDot_transitions (table : ParserTable) : Transitions :=
  fold_left (fun m sourceState => row table sourceState m) states no_transitions.

End ParserTableDot.

(* ====================================================================== *)
(** * crispy/logstore.h *)
(* ====================================================================== *)

Module Logstore.

(** [Category::State] *)
Inductive State : Set := Enabled | Disabled.

(** [Category::Visibility] *)
Inductive Visibility : Set := Public | Hidden.

(** [class SourceLocation] *)
Record SourceLocation : Set := mkSourceLocation {
  _fileName : list Z;
  _line : Z;
  _functionName : list Z
}.

(** The line feed, ['\n']. *)
Definition newline : Z := 10.

(** [class Sink].  [_writer] is a [std::function] that receives every
    message written; its calls are recorded, in order, in [_written]. *)
Record Sink : Set := mkSink {
  _enabled : bool;
  _written : list (list Z)
}.

(** [Sink::set_enabled] *)
Definition set_enabled (s : Sink) (enabled : bool) : Sink :=
  mkSink enabled (_written s).

Section WithFormatter.

(** [Category::Formatter], a [std::function<std::string(MessageBuilder
    const&)>]; a function object that is empty is [None]. *)
Variable Formatter : Type.

(** [class Category]; [_sink] refers to a sink by its address. *)
Record Category : Type := mkCategory {
  _name : list Z;
  _description : list Z;
  _state : State;
  _visibility : Visibility;
  _formatter : option Formatter;
  _sink : Z
}.

(** [class MessageBuilder]; [_category] is a reference to a category that
    the builder only reads. *)
Record MessageBuilder : Type := mkMessageBuilder {
  _category : Category;
  _location : SourceLocation;
  _buffer : list Z
}.

(** The call of a formatter. *)
Variable call_formatter : Formatter -> MessageBuilder -> list Z.

(** [Category::is_enabled] *)
Definition is_enabled (c : Category) : bool :=
  match _state c with
  | Enabled => true
  | Disabled => false
  end.

(** [Category::enable] *)
Definition Category_enable (c : Category) (enabled : bool) : Category :=
  mkCategory (_name c) (_description c) (if enabled then Enabled else Disabled)
    (_visibility c) (_formatter c) (_sink c).

(** [Category::disable] *)
Definition Category_disable (c : Category) : Category :=
  mkCategory (_name c) (_description c) Disabled (_visibility c) (_formatter c) (_sink c).

(** [Category::visible] *)
Definition visible (c : Category) : bool :=
  match _visibility c with
  | Public => true
  | Hidden => false
  end.

(** [Category::set_visible] *)
Definition set_visible (c : Category) (v : bool) : Category :=
  mkCategory (_name c) (_description c) (_state c) (if v then Public else Hidden)
    (_formatter c) (_sink c).

(** [Category::set_formatter] *)
Definition Category_set_formatter (c : Category) (f : option Formatter) : Category :=
  mkCategory (_name c) (_description c) (_state c) (_visibility c) f (_sink c).

(** [Category::set_sink] *)
Definition Category_set_sink (c : Category) (s : Z) : Category :=
  mkCategory (_name c) (_description c) (_state c) (_visibility c) (_formatter c) s.

(** [Category::build] and [Category::operator()] *)
Definition build (c : Category) (location : SourceLocation) : MessageBuilder :=
  mkMessageBuilder c location [].

(** [MessageBuilder::append] and [MessageBuilder::operator()] with a
    string. *)
Definition append (mb : MessageBuilder) (msg : list Z) : MessageBuilder :=
  mkMessageBuilder (_category mb) (_location mb) (_buffer mb ++ msg).

(** [MessageBuilder::message] *)
Definition message (mb : MessageBuilder) : list Z :=
  match _formatter (_category mb) with
  | Some f => call_formatter f mb
  | None =>
      if negb (bool_decide (_buffer mb = []))
         && bool_decide (last (_buffer mb) = Some newline)
      then _buffer mb
      else if negb (bool_decide (_buffer mb = [])) then _buffer mb ++ [newline]
      else []
  end.

(** [Sink::write] *)
Definition write (s : Sink) (mb : MessageBuilder) : Sink :=
  if _enabled s && is_enabled (_category mb) then
    mkSink (_enabled s) (_written s ++ [message mb])
  else s.

(** The categories in [logstore::get()], in the order of their
    registration.  The store holds references; an entry is the address of
    a category and the object at that address, and a category is alive
    exactly while it is registered. *)
Definition Registry : Type := list (Z * Category).

(** [Category::Category]: the registry after the construction of a
    category at the address [this]; [None] when the assertion that no
    registered category has the name fails.  [console] is the address of
    [Sink::console()]. *)
Definition construct (console : Z) (this : Z) (name desc : list Z) (state : State)
  (visibility : Visibility) (r : Registry) : option Registry :=
  if forallb (fun x => negb (bool_decide (_name (snd x) = name))) r then
    Some (r ++ [(this, mkCategory name desc state visibility None console)])
  else None.

(** [Category::~Category]: the first reference to the category at [this]
    is erased. *)
Fixpoint destroy (this : Z) (r : Registry) : Registry :=
  match r with
  | [] => []
  | i :: rest => if fst i =? this then rest else i :: destroy this rest
  end.

(** [logstore::get(categoryName)]; [None] is the null pointer. *)
Fixpoint get (categoryName : list Z) (r : Registry) : option (Z * Category) :=
  match r with
  | [] => None
  | cat :: rest =>
      if bool_decide (_name (snd cat) = categoryName) then Some cat
      else get categoryName rest
  end.

(** [logstore::set_sink] *)
Definition set_sink (s : Z) (r : Registry) : Registry :=
  map (fun cat => (fst cat, Category_set_sink (snd cat) s)) r.

(** [logstore::set_formatter] *)
Definition set_formatter (f : option Formatter) (r : Registry) : Registry :=
  map (fun cat => (fst cat, Category_set_formatter (snd cat) f)) r.

(** [logstore::enable] *)
Definition enable (categoryName : list Z) (enabled : bool) (r : Registry) : Registry :=
  map (fun cat =>
         if bool_decide (_name (snd cat) = categoryName)
         then (fst cat, Category_enable (snd cat) enabled)
         else cat) r.

(** [logstore::disable] *)
Definition disable (categoryName : list Z) (r : Registry) : Registry :=
  enable categoryName false r.

(** The comparison [std::equal] makes, element by element, of a first
    range with the beginning of a second one that is at least as long. *)
Fixpoint equal_range (first1 first2 : list Z) : bool :=
  match first1, first2 with
  | [], _ => true
  | _ :: _, [] => false
  | a :: first1', b :: first2' => (a =? b) && equal_range first1' first2'
  end.

(** [std::equal(begin(filterPattern), prev(end(filterPattern)),
    begin(name))], with [prefix] the pattern without its last character.
    The form with three iterators requires the second range to hold as many
    elements as the first: when the name is shorter than the prefix the call
    has no defined result, [None], wherever the first difference is. *)
Definition equal_prefix (prefix name : list Z) : option bool :=
  if (length name <? length prefix)%nat then None
  else Some (equal_range prefix name).

(** The predicate [configure] applies to a filter pattern; [None] when the
    pattern is empty, where [back()] has no defined result, or when the
    name is shorter than what the pattern has before its asterisk. *)
Definition filter_matches (name filterPattern : list Z) : option bool :=
  match last filterPattern with
  | None => None
  | Some back =>
      if negb (back =? chr "*") then Some (bool_decide (name = filterPattern))
      else equal_prefix (removelast filterPattern) name
  end.

(** [crispy::any_of] over the filters, which stops at the first pattern
    that matches. *)
Fixpoint any_of (filters : list (list Z)) (name : list Z) : option bool :=
  match filters with
  | [] => Some false
  | filterPattern :: rest =>
      match filter_matches name filterPattern with
      | None => None
      | Some true => Some true
      | Some false => any_of rest name
      end
  end.

(** [crispy::split] (crispy/utils.h), which is not among the sources
    embedded here. *)
Variable split : list Z -> Z -> list (list Z).

(** The loop of [configure] over the categories. *)
Fixpoint configure_loop (filters : list (list Z)) (r : Registry) : option Registry :=
  match r with
  | [] => Some []
  | category :: rest =>
      match any_of filters (_name (snd category)) with
      | None => None
      | Some enabled =>
          match configure_loop filters rest with
          | None => None
          | Some rest' => Some ((fst category, Category_enable (snd category) enabled) :: rest')
          end
      end
  end.

(** [logstore::configure] *)
Definition configure (filterString : list Z) (r : Registry) : option Registry :=
  if bool_decide (filterString = [chr "a"; chr "l"; chr "l"]) then
    Some (map (fun category => (fst category, Category_enable (snd category) true)) r)
  else
    let filters := split filterString (chr ",") in
    configure_loop filters r.

End WithFormatter.

(** The names a filter pattern stands for: a pattern that ends in an
    asterisk stands for every name that begins with the rest of the
    pattern, any other pattern for the equal name. *)
Definition pattern_matches (name filterPattern : list Z) : Prop :=
  (last filterPattern <> Some (chr "*") /\ name = filterPattern)
  \/ exists prefix rest, filterPattern = prefix ++ [chr "*"] /\ name = prefix ++ rest.

(** The patterns the predicate of [configure] has a defined result on, for
    a name: the pattern is not empty, and what it has before a final
    asterisk is not longer than the name. *)
Definition pattern_defined (name filterPattern : list Z) : Prop :=
  filterPattern <> []
  /\ forall prefix, filterPattern = prefix ++ [chr "*"] -> (length prefix <= length name)%nat.

(** The pattern at index [i] is reached: every pattern before it has a
    defined result on the name and does not match it. *)
Definition reached (filters : list (list Z)) (name : list Z) (i : nat) : Prop :=
  forall j q, (j < i)%nat -> filters !! j = Some q ->
    pattern_defined name q /\ ~ pattern_matches name q.

(** What the patterns, tried in order, decide for a name: enabled when a
    pattern that matches is reached, disabled when all are defined and none
    matches, and no defined result, [None], when a pattern without a
    defined result is reached. *)
Definition outcome (filters : list (list Z)) (name : list Z) (o : option bool) : Prop :=
  match o with
  | Some true =>
      exists i p, filters !! i = Some p /\ reached filters name i
                  /\ pattern_defined name p /\ pattern_matches name p
  | Some false =>
      forall q, In q filters -> pattern_defined name q /\ ~ pattern_matches name q
  | None =>
      exists i p, filters !! i = Some p /\ reached filters name i
                  /\ ~ pattern_defined name p
  end.

(** A splitting function to run [configure] on examples: the fields
    between the occurrences of the delimiter. *)
Fixpoint split_fields (s : list Z) (delimiter : Z) : list (list Z) :=
  match s with
  | [] => [[]]
  | ch :: s' =>
      if ch =? delimiter then [] :: split_fields s' delimiter
      else
        match split_fields s' delimiter with
        | field :: fields => (ch :: field) :: fields
        | [] => [[ch]]
        end
  end.

End Logstore.

(* ====================================================================== *)
(** * crispy/AtlasRenderer.cpp: the execution scheduler *)
(* ====================================================================== *)

Module AtlasRenderer.

Section WithCommands.

(** [GLfloat] and its addition. *)
Variable GLfloat : Type.
Variable fadd : GLfloat -> GLfloat -> GLfloat.

(** The commands [CreateAtlas], [UploadTexture] and [DestroyAtlas]
    (Atlas.h), whose definitions are not among the sources embedded here;
    the scheduler only stores them. *)
Variable CreateAtlas UploadTexture DestroyAtlas : Type.

(** Modelled from the spec: [TextureInfo] (Atlas.h) is not among the sources
    embedded here; the scheduler reads these members of the texture a
    render command refers to and converts each to [GLfloat]. *)
Record TextureInfo : Type := mkTextureInfo {
  width : GLfloat;
  height : GLfloat;
  relativeX : GLfloat;
  relativeY : GLfloat;
  relativeWidth : GLfloat;
  relativeHeight : GLfloat;
  z : GLfloat
}.

(** Modelled from the spec: [RenderTexture] (Atlas.h) is not among the
    sources embedded here; the scheduler reads the position, the texture
    and the four components of the colour. *)
Record RenderTexture : Type := mkRenderTexture {
  render_x : GLfloat;
  render_y : GLfloat;
  render_z : GLfloat;
  texture : TextureInfo;
  color : nat -> GLfloat
}.

(** [struct Renderer::ExecutionScheduler] *)
Record ExecutionScheduler : Type := mkExecutionScheduler {
  createAtlases : list CreateAtlas;
  uploadTextures : list UploadTexture;
  renderTextures : list RenderTexture;
  vertexCoords : list GLfloat;
  texCoords : list GLfloat;
  colors : list GLfloat;
  destroyAtlases : list DestroyAtlas
}.

(** A scheduler as it is constructed. *)
Definition ExecutionScheduler_init : ExecutionScheduler :=
  mkExecutionScheduler [] [] [] [] [] [] [].

(** [createAtlas] *)
Definition createAtlas (s : ExecutionScheduler) (_atlas : CreateAtlas) : ExecutionScheduler :=
  mkExecutionScheduler (createAtlases s ++ [_atlas]) (uploadTextures s) (renderTextures s)
    (vertexCoords s) (texCoords s) (colors s) (destroyAtlases s).

(** [uploadTexture] *)
Definition uploadTexture (s : ExecutionScheduler) (_texture : UploadTexture)
  : ExecutionScheduler :=
  mkExecutionScheduler (createAtlases s) (uploadTextures s ++ [_texture]) (renderTextures s)
    (vertexCoords s) (texCoords s) (colors s) (destroyAtlases s).

(** The six vertices of the two triangles of a render command. *)
Definition vertices (_render : RenderTexture) : list GLfloat :=
  let xpos := render_x _render in
  let ypos := render_y _render in
  let zpos := render_z _render in
  let w := width (texture _render) in
  let h := height (texture _render) in
  [xpos; fadd ypos h; zpos;
   xpos; ypos; zpos;
   fadd xpos w; ypos; zpos;
   xpos; fadd ypos h; zpos;
   fadd xpos w; ypos; zpos;
   fadd xpos w; fadd ypos h; zpos].

(** The texture coordinates of the six vertices. *)
Definition textureCoordinates (_render : RenderTexture) : list GLfloat :=
  let rx := relativeX (texture _render) in
  let ry := relativeY (texture _render) in
  let w := relativeWidth (texture _render) in
  let h := relativeHeight (texture _render) in
  let i := z (texture _render) in
  [rx; ry; i;
   rx; fadd ry h; i;
   fadd rx w; fadd ry h; i;
   rx; ry; i;
   fadd rx w; fadd ry h; i;
   fadd rx w; ry; i].

(** The loop that pushes the colour of a render command once per vertex. *)
Fixpoint push_colors (n : nat) (_render : RenderTexture) (colors : list GLfloat)
  : list GLfloat :=
  match n with
  | O => colors
  | S n' =>
      push_colors n' _render
        (colors ++ [color _render 0%nat; color _render 1%nat; color _render 2%nat;
                    color _render 3%nat])
  end.

(** [renderTexture]; [None] when one of its two assertions fails. *)
Definition renderTexture (s : ExecutionScheduler) (_render : RenderTexture)
  : option ExecutionScheduler :=
  let renderTextures' := renderTextures s ++ [_render] in
  let vertexCoords' := vertexCoords s ++ vertices _render in
  if negb (length vertexCoords' =? 6 * 3 * length renderTextures')%nat then None
  else
    let texCoords' := texCoords s ++ textureCoordinates _render in
    let colors' := push_colors 6 _render (colors s) in
    if negb (length colors' =? 6 * 4 * length renderTextures')%nat then None
    else
      Some (mkExecutionScheduler (createAtlases s) (uploadTextures s) renderTextures'
              vertexCoords' texCoords' colors' (destroyAtlases s)).

(** [destroyAtlas] *)
Definition destroyAtlas (s : ExecutionScheduler) (_atlas : DestroyAtlas)
  : ExecutionScheduler :=
  mkExecutionScheduler (createAtlases s) (uploadTextures s) (renderTextures s)
    (vertexCoords s) (texCoords s) (colors s) (destroyAtlases s ++ [_atlas]).

(** [size], which returns a [bool]: whether any command is scheduled. *)
Definition size (s : ExecutionScheduler) : bool :=
  negb (to_size_t (StringView.size (createAtlases s)
                   + StringView.size (uploadTextures s)
                   + StringView.size (renderTextures s)
                   + StringView.size (destroyAtlases s)) =? 0).

(** [reset] *)
Definition reset (s : ExecutionScheduler) : ExecutionScheduler :=
  mkExecutionScheduler [] [] [] [] [] [] [].

(** The calls a [CommandListener] receives. *)
Inductive Command : Type :=
| DoCreateAtlas (_atlas : CreateAtlas)
| DoUploadTexture (_texture : UploadTexture)
| DoRenderTexture (_render : RenderTexture)
| DoDestroyAtlas (_atlas : DestroyAtlas).

(** The scheduler after a command. *)
Definition schedule (s : ExecutionScheduler) (c : Command) : option ExecutionScheduler :=
  match c with
  | DoCreateAtlas a => Some (createAtlas s a)
  | DoUploadTexture t => Some (uploadTexture s t)
  | DoRenderTexture r => renderTexture s r
  | DoDestroyAtlas a => Some (destroyAtlas s a)
  end.

(** The scheduler after a list of commands. *)
Fixpoint schedule_all (s : ExecutionScheduler) (cs : list Command)
  : option ExecutionScheduler :=
  match cs with
  | [] => Some s
  | c :: cs' =>
      match schedule s c with
      | Some s' => schedule_all s' cs'
      | None => None
      end
  end.

End WithCommands.

End AtlasRenderer.

(* ====================================================================== *)
(** * Properties of the function table *)
(* ====================================================================== *)

Module FunctionsTheory.

Import Functions.

Lemma category_int_inj (a b : FunctionCategory) :
  category_int a = category_int b -> a = b.
Proof. destruct a, b; simpl; intros E; congruence || discriminate E. Qed.

Lemma category_eqb_eq (a b : FunctionCategory) :
  category_eqb a b = true <-> a = b.
Proof.
  unfold category_eqb. rewrite Z.eqb_eq. split.
  - apply category_int_inj.
  - intros ->. reflexivity.
Qed.

Ltac split_tests :=
  repeat match goal with
         | |- context [category_eqb ?x ?y] =>
             unfold category_eqb
         | |- context [?x =? ?y] => destruct (Z.eqb_spec x y)
         | |- context [?x <? ?y] => destruct (Z.ltb_spec x y)
         | |- context [?x >? ?y] => rewrite (Z.gtb_ltb x y)
         end.

(** The source's chain of tests computes the first difference of the keys. *)
Lemma compare_refines_spec (a : FunctionSelector) (b : FunctionDefinition) :
  compare a b = compare_spec a b.
Proof.
  unfold compare, compare_spec, parameter_count_compatibility, first_difference.
  destruct (sel_category a) eqn:Ecat;
    split_tests; cbn [category_int negb] in *; try reflexivity; lia.
Qed.

Lemma compare_zero_iff (a : FunctionSelector) (b : FunctionDefinition) :
  compare a b = 0 <->
  sel_category a = category b
  /\ sel_finalSymbol a = finalSymbol b
  /\ sel_leader a = leader b
  /\ sel_intermediate a = intermediate b
  /\ match sel_category a with
     | OSC => sel_argc a = maximumParameters b
     | _ => minimumParameters b <= sel_argc a <= maximumParameters b
     end.
Proof.
  unfold compare. split.
  - destruct (category_eqb (sel_category a) (category b)) eqn:Ecat; simpl.
    2:{ unfold category_eqb in Ecat. apply Z.eqb_neq in Ecat. lia. }
    apply category_eqb_eq in Ecat.
    destruct (Z.eqb_spec (sel_finalSymbol a) (finalSymbol b)); simpl; [|lia].
    destruct (Z.eqb_spec (sel_leader a) (leader b)); simpl; [|lia].
    destruct (Z.eqb_spec (sel_intermediate a) (intermediate b)); simpl; [|lia].
    destruct (sel_category a);
      split_tests; cbn [category_int negb] in *; intros;
      repeat split; try assumption; lia.
  - intros (Ecat & -> & -> & -> & Hargc).
    apply category_eqb_eq in Ecat. rewrite Ecat. rewrite !Z.eqb_refl. simpl.
    destruct (sel_category a); split_tests; cbn [category_int negb] in *; lia.
Qed.

(** C3.  The selector-to-definition comparison is lexicographic in the
    order category, final byte, leader, intermediate, parameter-count
    compatibility: it equals the first difference of these keys, and it is
    0, the verdict "matches", exactly when the four keys agree and the
    argument count lies within the definition's parameter range, or, for
    an OSC, equals the definition's [maximumParameters]. *)
Theorem compare_lexicographic (a : FunctionSelector) (b : FunctionDefinition) :
  compare a b = compare_spec a b
  /\ (compare a b = 0 <->
      sel_category a = category b
      /\ sel_finalSymbol a = finalSymbol b
      /\ sel_leader a = leader b
      /\ sel_intermediate a = intermediate b
      /\ match sel_category a with
         | OSC => sel_argc a = maximumParameters b
         | _ => minimumParameters b <= sel_argc a <= maximumParameters b
         end).
Proof. split; [apply compare_refines_spec | apply compare_zero_iff]. Qed.

(** ** Correctness of the binary search *)

Lemma select_loop_sound (selector : FunctionSelector) (funcs : list FunctionDefinition)
  (d : FunctionDefinition) (fuel a b : nat) :
  select_loop fuel selector funcs a b = Some d ->
  In d funcs /\ compare selector d = 0.
Proof.
  revert a b. induction fuel as [|fuel IH]; intros a b; cbn [select_loop]; [discriminate|].
  destruct (b <? a)%nat; [discriminate|].
  destruct (funcs !! ((a + b) / 2)%nat) as [e|] eqn:Elookup; [|discriminate].
  rewrite Z.gtb_ltb.
  destruct (Z.ltb_spec 0 (compare selector e)) as [Hpos|Hnpos]; [apply IH|].
  destruct (Z.ltb_spec (compare selector e) 0) as [Hneg|Hnneg].
  - destruct ((a + b) / 2 =? 0)%nat; [discriminate|apply IH].
  - intros [= <-]. split; [|lia].
    apply list_elem_of_In. apply list_elem_of_lookup. eauto.
Qed.

(** When the table has a match at index [k], the entries before it compare
    greater and the entries after it compare smaller, the search finds the
    entry at [k] from every interval that contains [k]. *)
Lemma select_loop_complete (selector : FunctionSelector) (funcs : list FunctionDefinition)
  (d : FunctionDefinition) (k : nat) :
  funcs !! k = Some d ->
  compare selector d = 0 ->
  (forall i e, (i < k)%nat -> funcs !! i = Some e -> 0 < compare selector e) ->
  (forall i e, (k < i)%nat -> funcs !! i = Some e -> compare selector e < 0) ->
  forall (fuel a b : nat),
    (a <= k <= b)%nat -> (b < length funcs)%nat -> (b - a < fuel)%nat ->
    select_loop fuel selector funcs a b = Some d.
Proof.
  intros Hk Hzero Hbefore Hafter.
  induction fuel as [|fuel IH]; intros a b Hab Hb Hfuel; [lia|].
  cbn [select_loop].
  destruct (Nat.ltb_spec b a) as [Hlt|_]; [lia|].
  assert (Hmid : (a <= (a + b) / 2 <= b)%nat).
  { split.
    - apply Nat.div_le_lower_bound; lia.
    - apply Nat.Div0.div_le_upper_bound; lia. }
  destruct (lookup_lt_is_Some_2 funcs ((a + b) / 2)%nat ltac:(lia)) as [e Elookup].
  rewrite Elookup. rewrite Z.gtb_ltb.
  destruct (Nat.lt_trichotomy ((a + b) / 2) k) as [Hi|[Hi|Hi]].
  - pose proof (Hbefore _ _ Hi Elookup) as Hpos.
    destruct (Z.ltb_spec 0 (compare selector e)); [|lia].
    apply IH; lia.
  - rewrite Hi in Elookup. rewrite Hk in Elookup. injection Elookup as <-.
    rewrite Hzero. reflexivity.
  - pose proof (Hafter _ _ Hi Elookup) as Hneg.
    destruct (Z.ltb_spec 0 (compare selector e)); [lia|].
    destruct (Z.ltb_spec (compare selector e) 0); [|lia].
    destruct (Nat.eqb_spec ((a + b) / 2) 0); [lia|].
    apply IH; lia.
Qed.

Ltac split_bools :=
  repeat match goal with
         | H : _ && _ = true |- _ => apply andb_prop in H; destruct H
         | H : _ || _ = true |- _ => apply orb_prop in H; destruct H
         | H : negb _ = true |- _ => apply negb_true_iff in H
         | H : _ && _ = false |- _ => apply andb_false_iff in H; destruct H
         | H : category_eqb _ _ = true |- _ => apply category_eqb_eq in H
         | H : category_eqb _ _ = false |- _ => unfold category_eqb in H
         | H : (_ =? _) = true |- _ => apply Z.eqb_eq in H
         | H : (_ =? _) = false |- _ => apply Z.eqb_neq in H
         | H : (_ <? _) = true |- _ => apply Z.ltb_lt in H
         | H : (_ <=? _) = true |- _ => apply Z.leb_le in H
         | H : context [if ?b then _ else _] |- _ => destruct b eqn:?
         end.

Lemma compare_definitions_negative (a b : FunctionDefinition) :
  compare_definitions a b < 0 ->
  category_int (category a) < category_int (category b)
  \/ category a = category b
     /\ (finalSymbol a < finalSymbol b
         \/ finalSymbol a = finalSymbol b
            /\ (leader a < leader b
                \/ leader a = leader b
                   /\ (intermediate a < intermediate b
                       \/ intermediate a = intermediate b))).
Proof.
  unfold compare_definitions.
  destruct (category_eqb (category a) (category b)) eqn:Ecat; cbn [negb].
  2:{ unfold category_eqb in Ecat. apply Z.eqb_neq in Ecat. lia. }
  apply category_eqb_eq in Ecat. intros Hlt. right. split; [assumption|].
  destruct (Z.eqb_spec (finalSymbol a) (finalSymbol b)); cbn [negb] in Hlt; [|lia].
  right. split; [assumption|].
  destruct (Z.eqb_spec (leader a) (leader b)); cbn [negb] in Hlt; [|lia].
  right. split; [assumption|].
  destruct (Z.eqb_spec (intermediate a) (intermediate b)); cbn [negb] in Hlt; [|lia].
  right. assumption.
Qed.

(** A selector that matches [d] compares greater than every entry that is
    strictly before [d], and smaller than every entry [d] is strictly
    before. *)
Lemma compare_before_match (selector : FunctionSelector) (e d : FunctionDefinition) :
  strictly_before e d = true -> compare selector d = 0 -> 0 < compare selector e.
Proof.
  intros Hbefore Hzero. apply compare_zero_iff in Hzero.
  destruct Hzero as (Ecat & Efinal & Eleader & Einterm & Hargc).
  unfold strictly_before in Hbefore. apply andb_prop in Hbefore.
  destruct Hbefore as [Hlt Hsep]. apply Z.ltb_lt in Hlt.
  apply compare_definitions_negative in Hlt.
  unfold compare. rewrite Ecat, Efinal, Eleader, Einterm.
  unfold same_combination in Hsep.
  destruct Hlt as [Hcat|[Ecat' Hlt]].
  { unfold category_eqb. destruct (Z.eqb_spec (category_int (category d))
      (category_int (category e))); cbn [negb]; lia. }
  rewrite <- Ecat'. rewrite (proj2 (category_eqb_eq (category e) (category e)) eq_refl).
  cbn [negb].
  destruct Hlt as [Hfinal|[Efinal' Hlt]].
  { destruct (Z.eqb_spec (finalSymbol d) (finalSymbol e)); cbn [negb]; lia. }
  rewrite <- Efinal', Z.eqb_refl. cbn [negb].
  destruct Hlt as [Hleader|[Eleader' Hlt]].
  { destruct (Z.eqb_spec (leader d) (leader e)); cbn [negb]; lia. }
  rewrite <- Eleader', Z.eqb_refl. cbn [negb].
  destruct Hlt as [Hinterm|Einterm'].
  { destruct (Z.eqb_spec (intermediate d) (intermediate e)); cbn [negb]; lia. }
  rewrite <- Einterm', Z.eqb_refl. cbn [negb].
  rewrite Ecat' in Hsep. rewrite Efinal', Eleader', Einterm' in Hsep.
  rewrite (proj2 (category_eqb_eq (category d) (category d)) eq_refl) in Hsep.
  rewrite !Z.eqb_refl in Hsep. cbn [andb negb orb] in Hsep.
  rewrite Ecat in Hargc. rewrite Ecat' in *.
  destruct (category d); cbn [category_eqb category_int Z.eqb Pos.eqb] in *;
    split_bools; rewrite ?Z.gtb_ltb;
    repeat match goal with
           | |- context [?x <? ?y] => destruct (Z.ltb_spec x y)
           end; lia.
Qed.

Lemma compare_after_match (selector : FunctionSelector) (d e : FunctionDefinition) :
  strictly_before d e = true -> compare selector d = 0 -> compare selector e < 0.
Proof.
  intros Hbefore Hzero. apply compare_zero_iff in Hzero.
  destruct Hzero as (Ecat & Efinal & Eleader & Einterm & Hargc).
  unfold strictly_before in Hbefore. apply andb_prop in Hbefore.
  destruct Hbefore as [Hlt Hsep]. apply Z.ltb_lt in Hlt.
  apply compare_definitions_negative in Hlt.
  unfold compare. rewrite Ecat, Efinal, Eleader, Einterm.
  unfold same_combination in Hsep.
  destruct Hlt as [Hcat|[Ecat' Hlt]].
  { unfold category_eqb. destruct (Z.eqb_spec (category_int (category d))
      (category_int (category e))); cbn [negb]; lia. }
  rewrite Ecat'. rewrite (proj2 (category_eqb_eq (category e) (category e)) eq_refl).
  cbn [negb].
  destruct Hlt as [Hfinal|[Efinal' Hlt]].
  { destruct (Z.eqb_spec (finalSymbol d) (finalSymbol e)); cbn [negb]; lia. }
  rewrite Efinal', Z.eqb_refl. cbn [negb].
  destruct Hlt as [Hleader|[Eleader' Hlt]].
  { destruct (Z.eqb_spec (leader d) (leader e)); cbn [negb]; lia. }
  rewrite Eleader', Z.eqb_refl. cbn [negb].
  destruct Hlt as [Hinterm|Einterm'].
  { destruct (Z.eqb_spec (intermediate d) (intermediate e)); cbn [negb]; lia. }
  rewrite Einterm', Z.eqb_refl. cbn [negb].
  rewrite Ecat' in Hsep. rewrite Efinal', Eleader', Einterm' in Hsep.
  rewrite (proj2 (category_eqb_eq (category e) (category e)) eq_refl) in Hsep.
  rewrite !Z.eqb_refl in Hsep. cbn [andb negb orb] in Hsep.
  rewrite Ecat in Hargc. rewrite <- Ecat' in *.
  destruct (category d); cbn [category_eqb category_int Z.eqb Pos.eqb] in *;
    split_bools; rewrite ?Z.gtb_ltb;
    repeat match goal with
           | |- context [?x <? ?y] => destruct (Z.ltb_spec x y)
           end; lia.
Qed.

Lemma unambiguous_lookup (funcs : list FunctionDefinition) :
  unambiguous funcs = true ->
  forall i j a b, (i < j)%nat -> funcs !! i = Some a -> funcs !! j = Some b ->
                  strictly_before a b = true.
Proof.
  induction funcs as [|x funcs IH]; intros Hok i j a b Hij Hi Hj.
  - discriminate Hi.
  - cbn [unambiguous] in Hok. apply andb_prop in Hok. destruct Hok as [Hx Hrest].
    destruct j as [|j]; [lia|]. cbn in Hj.
    destruct i as [|i].
    + cbn in Hi. injection Hi as <-.
      rewrite forallb_forall in Hx. apply Hx.
      apply list_elem_of_In. apply list_elem_of_lookup. eauto.
    + cbn in Hi. apply (IH Hrest i j); [lia|assumption|assumption].
Qed.

(** The sorted table satisfies the design invariant. *)
Lemma functions_unambiguous : unambiguous functions = true.
Proof. vm_compute. reflexivity. Qed.

(** [select] returns only registered definitions that the selector
    compares equal to. *)
Lemma select_sound (selector : FunctionSelector) (d : FunctionDefinition) :
  select selector = Some d -> In d functions /\ compare selector d = 0.
Proof. apply select_loop_sound. Qed.

(** [select] finds the registered definition a selector compares equal
    to, whatever the selector. *)
Lemma select_complete (selector : FunctionSelector) (d : FunctionDefinition) :
  In d functions -> compare selector d = 0 -> select selector = Some d.
Proof.
  intros Hd Hzero.
  apply list_elem_of_In in Hd. apply list_elem_of_lookup in Hd. destruct Hd as [k Hk].
  pose proof (lookup_lt_Some _ _ _ Hk) as Hlen.
  unfold select, select_in.
  apply (select_loop_complete selector functions d k Hk Hzero).
  - intros i e Hi He.
    apply (compare_before_match selector e d); [|exact Hzero].
    apply (unambiguous_lookup functions functions_unambiguous i k); assumption.
  - intros i e Hi He.
    apply (compare_after_match selector d e); [|exact Hzero].
    apply (unambiguous_lookup functions functions_unambiguous k i); assumption.
  - lia.
  - lia.
  - lia.
Qed.

(** The table after sorting holds the entries of the array literal. *)
Lemma sort_insert_perm {A : Type} (comp : A -> A -> Z) (x : A) (l : list A) :
  sort_insert comp x l ≡ₚ x :: l.
Proof.
  induction l as [|y l IH]; simpl; [reflexivity|].
  destruct (comp x y <=? 0); [reflexivity|].
  rewrite IH. apply Permutation_swap.
Qed.

Lemma sort_perm {A : Type} (comp : A -> A -> Z) (l : list A) :
  sort comp l ≡ₚ l.
Proof.
  induction l as [|x l IH]; simpl; [reflexivity|].
  rewrite sort_insert_perm. rewrite IH. reflexivity.
Qed.

Lemma functions_permutation : functions ≡ₚ functions_unsorted.
Proof. apply sort_perm. Qed.

Lemma functions_length : length functions = 129%nat.
Proof. vm_compute. reflexivity. Qed.

(** The table is strictly ascending in the order of
    [compare_definitions]: no two entries compare equal, so every sorting
    algorithm produces this very array. *)
Lemma functions_sorted :
  Sorted (fun a b => compare_definitions a b < 0) functions.
Proof.
  let table := eval vm_compute in functions in change functions with table.
  repeat (apply Sorted_cons; [|first [apply HdRel_nil | apply HdRel_cons; reflexivity]]).
  apply Sorted_nil.
Qed.

(** ** The sorted table does not depend on the sorting algorithm *)

(** The keys [compare_definitions] goes through, in its order. *)
Lemma lex_lt_asymmetric (k1 k2 : list Z) : lex_lt k1 k2 -> lex_lt k2 k1 -> False.
Proof.
  revert k2. induction k1 as [|x k1 IH]; intros [|y k2]; cbn [lex_lt]; try tauto.
  intros [Hlt|[-> H1]] [Hlt'|[E H2]]; try lia. apply (IH k2); assumption.
Qed.

Lemma lex_lt_transitive (k1 k2 k3 : list Z) :
  lex_lt k1 k2 -> lex_lt k2 k3 -> lex_lt k1 k3.
Proof.
  revert k2 k3. induction k1 as [|x k1 IH]; intros [|y k2] [|z k3]; cbn [lex_lt]; try tauto.
  intros [Hlt|[-> H1]] [Hlt'|[-> H2]].
  - left. lia.
  - left. exact Hlt.
  - left. exact Hlt'.
  - right. split; [reflexivity|]. apply (IH k2); assumption.
Qed.

Lemma compare_definitions_lex (a b : FunctionDefinition) :
  compare_definitions a b < 0 <-> lex_lt (sort_keys a) (sort_keys b).
Proof.
  unfold compare_definitions, category_eqb, sort_keys. cbn [lex_lt].
  repeat match goal with
         | |- context [?x =? ?y] => destruct (Z.eqb_spec x y)
         end; cbn [negb]; lia.
Qed.

Lemma compare_definitions_asymmetric (a b : FunctionDefinition) :
  compare_definitions a b < 0 -> compare_definitions b a < 0 -> False.
Proof. rewrite !compare_definitions_lex. apply lex_lt_asymmetric. Qed.

Lemma compare_definitions_transitive (a b c : FunctionDefinition) :
  compare_definitions a b < 0 -> compare_definitions b c < 0 ->
  compare_definitions a c < 0.
Proof. rewrite !compare_definitions_lex. apply lex_lt_transitive. Qed.

Lemma sorted_permutation_unique {A : Type} (R : A -> A -> Prop) (l1 l2 : list A) :
  (forall x y, R x y -> R y x -> False) ->
  StronglySorted R l1 -> StronglySorted R l2 -> l1 ≡ₚ l2 -> l1 = l2.
Proof.
  intros Hasym. revert l2.
  induction l1 as [|x l1 IH]; intros l2 S1 S2 P.
  - apply Permutation_nil in P. congruence.
  - destruct l2 as [|y l2]; [apply Permutation_sym, Permutation_nil in P; discriminate|].
    apply StronglySorted_inv in S1. destruct S1 as [S1 F1].
    apply StronglySorted_inv in S2. destruct S2 as [S2 F2].
    rewrite Forall_forall in F1, F2.
    assert (E : x = y).
    { assert (Hx : In x (y :: l2)) by (eapply Permutation_in; [exact P|left; reflexivity]).
      assert (Hy : In y (x :: l1))
        by (eapply Permutation_in; [exact (Permutation_sym P)|left; reflexivity]).
      destruct Hx as [Hx|Hx]; [congruence|].
      destruct Hy as [Hy|Hy]; [congruence|].
      exfalso. apply (Hasym x y).
      - apply F1. apply list_elem_of_In. exact Hy.
      - apply F2. apply list_elem_of_In. exact Hx. }
    subst y. f_equal. apply IH; [assumption|assumption|].
    apply (Permutation_cons_inv P).
Qed.

(** Whatever algorithm sorts the array literal by [compare_definitions]
    produces the table of this development. *)
Lemma functions_unique (table : list FunctionDefinition) :
  table ≡ₚ functions_unsorted ->
  Sorted (fun a b => compare_definitions a b < 0) table ->
  table = functions.
Proof.
  intros P S.
  assert (T : Relations_1.Transitive (fun a b => compare_definitions a b < 0)).
  { intros a b c. apply compare_definitions_transitive. }
  apply (sorted_permutation_unique (fun a b => compare_definitions a b < 0)).
  - apply compare_definitions_asymmetric.
  - apply Sorted_StronglySorted; assumption.
  - apply Sorted_StronglySorted; [exact T|apply functions_sorted].
  - rewrite P. symmetry. apply functions_permutation.
Qed.

(** The selector a definition describes compares equal to the definition
    for the argument counts the definition admits. *)
Lemma compare_own_selector (d : FunctionDefinition) (argc : Z) :
  match category d with
  | OSC => argc = maximumParameters d
  | _ => minimumParameters d <= argc <= maximumParameters d
  end ->
  compare (selector_of d argc) d = 0.
Proof.
  intros Hargc. apply compare_zero_iff. unfold selector_of. cbn.
  repeat split; try reflexivity. exact Hargc.
Qed.

(** The definition a selector matches is unique in the table, so the
    result of [select] does not depend on the way the table is searched. *)
Lemma match_unique (selector : FunctionSelector) (d d' : FunctionDefinition) :
  In d functions -> In d' functions ->
  compare selector d = 0 -> compare selector d' = 0 -> d' = d.
Proof.
  intros Hd Hd' Hzero Hzero'.
  pose proof (select_complete selector d Hd Hzero) as E.
  pose proof (select_complete selector d' Hd' Hzero') as E'.
  congruence.
Qed.

(** C2, as amended.  For every definition registered in the function table,
    [select] applied to the selector built from the definition's own
    category, leader, intermediate and final byte returns exactly that
    definition, provided the argument count lies within
    [minimumParameters, maximumParameters] for a C0, ESC, CSI or DCS
    definition and equals [maximumParameters], the numeric code, for an
    OSC definition. *)
Theorem select_roundtrip (d : FunctionDefinition) (argc : Z) :
  In d functions ->
  match category d with
  | OSC => argc = maximumParameters d
  | _ => minimumParameters d <= argc <= maximumParameters d
  end ->
  select (selector_of d argc) = Some d.
Proof.
  intros Hd Hargc.
  apply select_complete; [exact Hd|].
  apply compare_own_selector. exact Hargc.
Qed.

Lemma HYPERLINK_registered : In HYPERLINK functions.
Proof. vm_compute. do 105 right. left. reflexivity. Qed.

(** [CSI 1 ; 1 H] selects CUP. *)
Lemma select_roundtrip_witness : select (selector_of CUP 2) = Some CUP.
Proof.
  apply (select_roundtrip CUP 2).
  - vm_compute. do 37 right. left. reflexivity.
  - simpl. lia.
Defined.

(** The selecting functions on a few sequences. *)
Example select_cursor_position : selectControl 0 2 0 (chr "H") = Some CUP.
Proof. vm_compute. reflexivity. Qed.

Example select_by_leader :
  selectControl (chr "?") 1 (chr "$") (chr "p") = Some DECRQM
  /\ selectControl 0 1 (chr "$") (chr "p") = Some DECRQM_ANSI.
Proof. split; vm_compute; reflexivity. Qed.

Example select_by_parameter_count :
  selectControl 0 0 0 (chr "s") = Some SCOSC
  /\ selectControl 0 1 0 (chr "s") = None
  /\ selectControl 0 2 0 (chr "s") = Some DECSLRM.
Proof. repeat split; vm_compute; reflexivity. Qed.

Example select_escape : selectEscape (chr "#") (chr "8") = Some DECALN.
Proof. vm_compute. reflexivity. Qed.

Example select_operating_system_command :
  selectOSCommand 8 = Some HYPERLINK /\ selectOSCommand 9 = None.
Proof. split; vm_compute; reflexivity. Qed.

(** C2, as stated, fails: HYPERLINK is the registered OSC with code 8, so
    its parameter range is 0 to 8, and with the argument count 3 from that
    range the selector compares equal to SETXPROP, the OSC with code 3, and
    not to HYPERLINK; [select] returns SETXPROP. *)
Lemma select_roundtrip_fails_in_OSC_range :
  In HYPERLINK functions
  /\ minimumParameters HYPERLINK <= 3 <= maximumParameters HYPERLINK
  /\ compare (selector_of HYPERLINK 3) HYPERLINK = -5
  /\ compare (selector_of HYPERLINK 3) SETXPROP = 0
  /\ select (selector_of HYPERLINK 3) = Some SETXPROP
  /\ select (selector_of HYPERLINK 3) <> Some HYPERLINK.
Proof.
  split; [exact HYPERLINK_registered|].
  split; [simpl; lia|].
  split; [vm_compute; reflexivity|].
  split; [vm_compute; reflexivity|].
  split; [vm_compute; reflexivity|].
  vm_compute. discriminate.
Qed.

End FunctionsTheory.

(* ====================================================================== *)
(** * Properties of cells *)
(* ====================================================================== *)

Module CellTheory.

Import Cell.

Lemma fold_left_push {A : Type} (l s : list A) :
  fold_left (fun s x => s ++ [x]) l s = s ++ l.
Proof.
  revert s. induction l as [|x l IH]; intros s; simpl.
  - rewrite app_nil_r. reflexivity.
  - rewrite IH. rewrite <- app_assoc. reflexivity.
Qed.

Lemma fold_left_append_encoded (l : list Z) (text : list Z) :
  fold_left (fun text cp => text ++ Unicode.encode cp) l text
  = text ++ Unicode.convert_to_char l.
Proof.
  unfold Unicode.convert_to_char.
  revert text. induction l as [|cp l IH]; intros text; simpl.
  - rewrite app_nil_r. reflexivity.
  - rewrite IH. rewrite <- app_assoc. reflexivity.
Qed.

Lemma codepoints_nonzero (c : CompactCell) :
  _codepoint c <> 0 ->
  CompactCell_codepoints c = _codepoint c :: extraCodepoints c.
Proof.
  intros Hcp. unfold CompactCell_codepoints, extraCodepoints.
  destruct (Z.eqb_spec (_codepoint c) 0) as [E|_]; [contradiction|]. simpl.
  destruct (_extra c) as [extra|]; [|reflexivity].
  apply (fold_left_push (codepoints extra) [_codepoint c]).
Qed.

Lemma toUtf8_nonzero (c : CompactCell) :
  _codepoint c <> 0 ->
  CompactCell_toUtf8 c
  = Unicode.encode (_codepoint c) ++ Unicode.convert_to_char (extraCodepoints c).
Proof.
  intros Hcp. unfold CompactCell_toUtf8, extraCodepoints.
  destruct (Z.eqb_spec (_codepoint c) 0) as [E|_]; [contradiction|]. simpl.
  destruct (_extra c) as [extra|].
  - apply fold_left_append_encoded.
  - unfold Unicode.convert_to_char. simpl. rewrite app_nil_r. reflexivity.
Qed.

(** C10.  A cell whose primary code point is 0 yields the empty string from
    both [codepoints] and [toUtf8], whatever its extra payload holds; a cell
    whose primary code point is not 0 yields the primary code point followed
    by the extra code points in stored order, as code points and as their
    UTF-8 encodings. *)
Theorem CompactCell_text (c : CompactCell) :
  (_codepoint c = 0 ->
   CompactCell_codepoints c = [] /\ CompactCell_toUtf8 c = [])
  /\ (_codepoint c <> 0 ->
      CompactCell_codepoints c = _codepoint c :: extraCodepoints c
      /\ CompactCell_toUtf8 c
         = Unicode.encode (_codepoint c)
           ++ Unicode.convert_to_char (extraCodepoints c)).
Proof.
  split.
  - intros E. unfold CompactCell_codepoints, CompactCell_toUtf8.
    rewrite E. simpl. split; reflexivity.
  - intros Hcp. split; [apply codepoints_nonzero | apply toUtf8_nonzero]; exact Hcp.
Qed.

(** An empty cell that still carries a combining acute accent, and the
    letter e with the same accent. *)
Lemma CompactCell_text_witness :
  (CompactCell_codepoints (mkCompactCell 0 1 0 0 (Some (mkCellExtra [0x301] 0 0 0))) = []
   /\ CompactCell_toUtf8 (mkCompactCell 0 1 0 0 (Some (mkCellExtra [0x301] 0 0 0))) = [])
  /\ (CompactCell_codepoints (mkCompactCell 0x65 1 0 0 (Some (mkCellExtra [0x301] 0 0 0)))
      = [0x65; 0x301]
      /\ CompactCell_toUtf8 (mkCompactCell 0x65 1 0 0 (Some (mkCellExtra [0x301] 0 0 0)))
         = [0x65; 0xCC; 0x81]).
Proof.
  split.
  - apply (proj1 (CompactCell_text (mkCompactCell 0 1 0 0 (Some (mkCellExtra [0x301] 0 0 0))))).
    reflexivity.
  - apply (proj2 (CompactCell_text (mkCompactCell 0x65 1 0 0 (Some (mkCellExtra [0x301] 0 0 0))))).
    simpl. lia.
Defined.

(** The two renderings agree: [toUtf8] is the UTF-8 encoding of
    [codepoints]. *)
Lemma toUtf8_encodes_codepoints (c : CompactCell) :
  CompactCell_toUtf8 c = Unicode.convert_to_char (CompactCell_codepoints c).
Proof.
  destruct (Z.eq_dec (_codepoint c) 0) as [E|Hcp].
  - unfold CompactCell_codepoints, CompactCell_toUtf8. rewrite E. reflexivity.
  - rewrite toUtf8_nonzero, codepoints_nonzero by exact Hcp. reflexivity.
Qed.

End CellTheory.

(* ====================================================================== *)
(** * Properties of lines *)
(* ====================================================================== *)

Module LineTheory.

Import Cell Line.

Section WithCell.

Context {C : Type} `{CellConcept C}.

Lemma reset_is_trivial (l : Line C) (flags : Z) (attributes : GraphicsAttributes) :
  isTrivialBuffer (reset l flags attributes) = true.
Proof. unfold reset. simpl. destruct (_storage l); reflexivity. Qed.

Lemma reset_text_empty (l : Line C) (flags : Z) (attributes : GraphicsAttributes) :
  exists buffer,
    _storage (reset l flags attributes) = Trivial buffer /\ text buffer = [].
Proof.
  unfold reset. simpl. destruct (_storage l) as [b|cells]; simpl; eauto.
Qed.

(** C9.  Whatever state a line is in and whatever flags, attributes and
    width are passed, after [fill] with the code point 0, which resets the
    line, [empty] returns true. *)
Theorem fill_zero_empty (l : Line C) (flags : Z) (attributes : GraphicsAttributes)
  (width : Z) :
  empty (fill l flags attributes 0 width) = true.
Proof.
  unfold fill. simpl.
  destruct (reset_text_empty l flags attributes) as (buffer & Hs & Ht).
  unfold empty. rewrite Hs, Ht. reflexivity.
Qed.

Lemma inflatedBuffer_is_inflated (l : Line C) :
  isInflatedBuffer (fst (inflatedBuffer l)) = true.
Proof. destruct l as [[buffer|cells] f]; reflexivity. Qed.

Lemma inflatedBuffer_inflated_id (l : Line C) :
  isInflatedBuffer l = true -> fst (inflatedBuffer l) = l.
Proof.
  destruct l as [[buffer|cells] f]; [discriminate|reflexivity].
Qed.

Lemma inflatedBuffer_promotes (l : Line C) (buffer : TrivialLineBuffer) :
  _storage l = Trivial buffer ->
  inflatedBuffer l = (mkLine (Inflated (inflate buffer)) (_flags l), inflate buffer).
Proof. intros E. unfold inflatedBuffer. rewrite E. reflexivity. Qed.

Lemma inflatedBuffer_idempotent (l : Line C) :
  inflatedBuffer (fst (inflatedBuffer l)) = inflatedBuffer l.
Proof. destruct l as [[buffer|cells] f]; reflexivity. Qed.

(** ** The trivial branches of the matching functions *)

Lemma find_from_ge (needle s : list Z) (i j : nat) :
  StringView.find_from needle s i = Some j -> (i <= j)%nat.
Proof.
  revert i. induction s as [|x s IH]; intros i; cbn [StringView.find_from].
  - destruct (StringView.starts_with needle []); intros [= <-] || discriminate. lia.
  - destruct (StringView.starts_with needle (x :: s)).
    + intros [= <-]. lia.
    + intros E. apply IH in E. lia.
Qed.

Lemma find_ge (s needle : list Z) (pos : Z) :
  0 <= pos < npos -> StringView.find s needle pos <> npos ->
  pos <= StringView.find s needle pos.
Proof.
  intros Hpos. unfold StringView.find.
  destruct (pos >? StringView.size s); [congruence|].
  destruct (StringView.find_from needle (drop (Z.to_nat pos) s) (Z.to_nat pos)) as [j|] eqn:E;
    [|congruence].
  intros _. apply find_from_ge in E. lia.
Qed.

(** On a trivial line [matchTextAt] never answers true for a start column
    other than 0: the text is looked for from position [column] in the
    substring that already starts at [column], and the position found is
    compared with 0. *)
Lemma matchTextAt_trivial_beyond_column_0 (buffer : TrivialLineBuffer) (f : Z)
  (text : list Z) (startColumn : Z) :
  1 <= startColumn < 2 ^ 31 -> 2 <= usedColumns buffer < 2 ^ 31 ->
  matchTextAt (mkLine (Trivial buffer) f) text startColumn <> Some true.
Proof.
  intros Hstart Hused. unfold matchTextAt. cbn [_storage].
  destruct (Z.eqb_spec (usedColumns buffer) 0); [lia|].
  destruct (StringView.size text
            >? to_size_t (Z.min startColumn (usedColumns buffer - 1) - usedColumns buffer));
    [discriminate|].
  assert (Hcolumn : to_size_t (Z.min startColumn (usedColumns buffer - 1))
                    = Z.min startColumn (usedColumns buffer - 1)).
  { unfold to_size_t. apply Z.mod_small. lia. }
  rewrite Hcolumn.
  destruct (StringView.substr (Line.text buffer)
              (Z.min startColumn (usedColumns buffer - 1))) as [sub|] eqn:Esub;
    [|discriminate].
  intros [= E]. apply Z.eqb_eq in E.
  assert (Hnpos : StringView.find sub (Unicode.convert_to_char text)
                    (Z.min startColumn (usedColumns buffer - 1)) <> npos)
    by (rewrite E; unfold npos; lia).
  apply find_ge in Hnpos; [lia|]. unfold npos. lia.
Qed.

(** On a trivial line [search] and [searchReverse] never report a partial
    match. *)
Lemma search_trivial_no_partial_match (buffer : TrivialLineBuffer) (f : Z)
  (text : list Z) (startColumn : Z) (r : SearchResult) :
  search (mkLine (Trivial buffer) f) text startColumn = Some (Some r)
  \/ searchReverse (mkLine (Trivial buffer) f) text startColumn = Some (Some r) ->
  partialMatchLength r = 0.
Proof.
  unfold search, searchReverse. cbn [_storage].
  destruct (usedColumns buffer =? 0).
  - intros [E|E]; discriminate E.
  - intros [E|E];
      match type of E with
      | (if ?b then _ else _) = _ => destruct b
      end; try discriminate E; injection E as <-; reflexivity.
Qed.

Ltac case_line l :=
  let buffer := fresh "buffer" in
  let cells := fresh "cells" in
  let f := fresh "f" in
  destruct l as [[buffer|cells] f].

Ltac case_tests :=
  repeat match goal with
         | |- context [if ?b then _ else _] => destruct b eqn:?
         | |- context [match ?x !! ?i with _ => _ end] => destruct (x !! i) eqn:?
         end.

(** A call that does not install a storage of its own leaves an inflated
    line inflated. *)
Lemma inflated_stays_inflated (l : Line C) (op : Operation) :
  replaces_storage op = false ->
  isInflatedBuffer l = true ->
  isInflatedBuffer (after op l) = true.
Proof.
  intros Hop Hl. case_line l; [discriminate|].
  destruct op; simpl in Hop; try discriminate;
    cbn [after]; try reflexivity.
  - unfold fill. rewrite Hop. reflexivity.
  - unfold fill_ascii. simpl. case_tests; reflexivity.
  - unfold useRange. simpl. case_tests; reflexivity.
  - unfold useCellAt. simpl. case_tests; reflexivity.
  - unfold cellEmptyAt. simpl. case_tests; reflexivity.
  - unfold cellWidthAt. simpl. case_tests; reflexivity.
Qed.

(** A call that does not install a storage of its own and leaves a trivial
    line inflated has the effect it has after a preceding call of
    [inflatedBuffer]. *)
Lemma promotion_through_inflatedBuffer (l : Line C) (op : Operation) :
  replaces_storage op = false ->
  isTrivialBuffer l = true ->
  isInflatedBuffer (after op l) = true ->
  after op l = after op (fst (inflatedBuffer l)).
Proof.
  intros Hop Hl Hafter. case_line l; [|discriminate].
  destruct op; simpl in Hop; try discriminate;
    cbn [after] in *; try discriminate Hafter; try reflexivity.
  - unfold fill in *. rewrite Hop in *. reflexivity.
  - unfold useCellAt in *. cbn [inflatedBuffer _storage fst size] in *.
    destruct ((0 <=? column0) && (column0 <=? displayWidth buffer)) eqn:Hreq.
    + cbn [inflatedBuffer _storage fst] in *.
      destruct (inflate buffer !! Z.to_nat column0) eqn:Hcell;
        case_tests; reflexivity.
    + discriminate Hafter.
  - unfold cellEmptyAt in *. cbn [_storage] in *.
    revert Hafter. case_tests; intros Hafter; discriminate Hafter.
Qed.

(** The operations that install a storage of their own, by name. *)
Lemma replaces_storage_spec (op : Operation (Cell:=C)) :
  replaces_storage op = true <->
  (exists other, op = OpAssign other)
  \/ (exists flags attributes, op = OpReset flags attributes)
  \/ (exists flags attributes count, op = OpResetCount flags attributes count)
  \/ (exists flags attributes width, op = OpFill flags attributes 0 width)
  \/ (exists storage, op = OpSetBuffer storage).
Proof.
  split.
  - destruct op; cbn [replaces_storage]; try discriminate; intros E.
    + left. eauto.
    + right. left. eauto.
    + right. right. left. eauto.
    + apply Z.eqb_eq in E. subst codepoint. right. right. right. left. eauto.
    + right. right. right. right. eauto.
  - intros [[? ->]|[(? & ? & ->)|[(? & ? & ? & ->)|[(? & ? & ? & ->)|[? ->]]]]]; reflexivity.
Qed.

(** C5, as amended.  Among the member functions Line.h defines, the
    defaulted copy and move assignment included, the storage of a line is
    promoted from trivial to inflated only through [inflatedBuffer]: a
    member function that leaves a trivial line inflated, and does not
    install a storage of its own, has the effect it has after a preceding
    call of [inflatedBuffer], which turns a trivial buffer into its inflated
    copy.  An inflated line stays inflated under every such member function
    except assignment, [reset] in both overloads, [fill] with the code point
    0 and [setBuffer].  Those install a storage of their own: [reset]
    without a count and [fill] with the code point 0 leave every line,
    inflated ones included, in trivial form, [reset] with a count installs
    the trivial buffer of that many columns, [setBuffer] installs the
    storage it is given, trivial or inflated, and assignment takes over the
    storage of the other line. *)
Theorem storage_representation (l : Line C) (op : Operation) :
  (replaces_storage op = false ->
   isTrivialBuffer l = true ->
   isInflatedBuffer (after op l) = true ->
   after op l = after op (fst (inflatedBuffer l)))
  /\ (forall buffer, _storage l = Trivial buffer ->
      _storage (after OpInflatedBuffer l) = Inflated (inflate buffer))
  /\ (replaces_storage op = false ->
      isInflatedBuffer l = true ->
      isInflatedBuffer (after op l) = true)
  /\ (forall flags attributes width,
        isTrivialBuffer (after (OpReset flags attributes) l) = true
        /\ isTrivialBuffer (after (OpFill flags attributes 0 width) l) = true)
  /\ (forall flags attributes count,
        _storage (after (OpResetCount flags attributes count) l)
        = Trivial (TrivialLineBuffer_init count attributes))
  /\ (forall storage, _storage (after (OpSetBuffer storage) l) = storage)
  /\ (forall other, _storage (after (OpAssign other) l) = _storage other)
  /\ (replaces_storage op = true <->
      (exists other, op = OpAssign other)
      \/ (exists flags attributes, op = OpReset flags attributes)
      \/ (exists flags attributes count, op = OpResetCount flags attributes count)
      \/ (exists flags attributes width, op = OpFill flags attributes 0 width)
      \/ (exists storage, op = OpSetBuffer storage)).
Proof.
  split; [apply promotion_through_inflatedBuffer|].
  split.
  { intros buffer E. cbn [after]. rewrite (inflatedBuffer_promotes l buffer E). reflexivity. }
  split; [apply inflated_stays_inflated|].
  split.
  { intros flags attributes width. cbn [after]. unfold fill. simpl.
    split; apply reset_is_trivial. }
  split; [reflexivity|].
  split; [reflexivity|].
  split; [reflexivity|].
  apply replaces_storage_spec.
Qed.

End WithCell.

End LineTheory.

(* ====================================================================== *)
(** * Properties of the Sequencer *)
(* ====================================================================== *)

Module SequencerTheory.

Import Functions Sequencer.

Section WithCollaborators.

Context {Cell Screen Hooked : Type} `{Collaborators Cell Screen Hooked}.

Lemma instructionCounter_setCurrentScreen (t : Terminal Screen) (s : Screen) :
  instructionCounter (setCurrentScreen t s) = instructionCounter t.
Proof. unfold setCurrentScreen. destruct (activeScreen t); reflexivity. Qed.

Lemma print_counter (sq : Sequencer Screen Hooked) (codepoint : Z) :
  instructionCounter (_terminal (print sq codepoint))
  = instructionCounter (_terminal sq) + 1.
Proof.
  unfold print. simpl. rewrite instructionCounter_setCurrentScreen. reflexivity.
Qed.

Lemma print_run_counter (sq : Sequencer Screen Hooked) (chars : list Z) (cellCount : Z) :
  chars <> [] ->
  exists sq' remaining,
    print_run sq chars cellCount = Some (sq', remaining)
    /\ instructionCounter (_terminal sq')
       = instructionCounter (_terminal sq) + StringView.size chars
    /\ instructionCounter (_terminal sq) < instructionCounter (_terminal sq').
Proof.
  intros Hne. unfold print_run.
  rewrite bool_decide_eq_false_2 by exact Hne.
  eexists. eexists. split; [reflexivity|]. simpl.
  rewrite instructionCounter_setCurrentScreen. simpl.
  split; [reflexivity|].
  unfold StringView.size. destruct chars; [contradiction|]. simpl length. lia.
Qed.

Lemma execute_counter (sq : Sequencer Screen Hooked) (controlCode : Z) :
  instructionCounter (_terminal (execute sq controlCode))
  = instructionCounter (_terminal sq) + 1.
Proof.
  unfold execute, executeControlCode. simpl.
  rewrite instructionCounter_setCurrentScreen. reflexivity.
Qed.

(** C6.  Every call of the Sequencer's [print] and [execute] increments the
    terminal's instruction counter: printing one code point and executing a
    control code add 1, printing a run, which the source asserts to be
    non-empty, adds the number of its bytes. *)
Theorem print_execute_increment (sq : Sequencer Screen Hooked) :
  (forall codepoint,
      instructionCounter (_terminal (print sq codepoint))
      = instructionCounter (_terminal sq) + 1)
  /\ (forall chars cellCount,
        chars <> [] ->
        exists sq' remaining,
          print_run sq chars cellCount = Some (sq', remaining)
          /\ instructionCounter (_terminal sq')
             = instructionCounter (_terminal sq) + StringView.size chars
          /\ instructionCounter (_terminal sq) < instructionCounter (_terminal sq'))
  /\ (forall controlCode,
        instructionCounter (_terminal (execute sq controlCode))
        = instructionCounter (_terminal sq) + 1).
Proof.
  split; [apply print_counter|].
  split; [apply print_run_counter | apply execute_counter].
Qed.

(** ** The OSC length cap *)








(** ** The width permitted for a bulk text run *)

(** The width [maxBulkTextSequenceWidth] permits for a bulk text run is 0
    whenever the active screen is not the primary screen or the current
    line is not a trivial buffer, so a positive width is only reported for
    a trivial line on the primary screen; otherwise it is the space between
    the cursor column and the right margin. *)
Lemma maxBulkTextSequenceWidth_spec (sq : Sequencer Screen Hooked) :
  (isPrimaryScreen (_terminal sq) = false ->
   maxBulkTextSequenceWidth sq = Some 0)
  /\ (Line.isTrivialBuffer (currentLine (primaryScreen (_terminal sq))) = false ->
      maxBulkTextSequenceWidth sq = Some 0)
  /\ (forall width,
        maxBulkTextSequenceWidth sq = Some width -> width <> 0 ->
        isPrimaryScreen (_terminal sq) = true
        /\ Line.isTrivialBuffer (currentLine (primaryScreen (_terminal sq))) = true)
  /\ (isPrimaryScreen (_terminal sq) = true ->
      Line.isTrivialBuffer (currentLine (primaryScreen (_terminal sq))) = true ->
      cursor_position_column (currentScreen (_terminal sq))
      <= margin_horizontal_to (currentScreen (_terminal sq)) ->
      margin_horizontal_to (currentScreen (_terminal sq))
      - cursor_position_column (currentScreen (_terminal sq)) < 2 ^ 64 ->
      maxBulkTextSequenceWidth sq
      = Some (margin_horizontal_to (currentScreen (_terminal sq))
              - cursor_position_column (currentScreen (_terminal sq)))).
Proof.
  unfold maxBulkTextSequenceWidth.
  destruct (isPrimaryScreen (_terminal sq)) eqn:Eprimary; cbn [negb].
  2:{ split; [reflexivity|]. split; [reflexivity|].
      split; [|discriminate].
      intros width E Hw. injection E as <-. contradiction. }
  destruct (Line.isTrivialBuffer (currentLine (primaryScreen (_terminal sq)))) eqn:Etrivial;
    cbn [negb].
  2:{ split; [discriminate|]. split; [reflexivity|].
      split; [|discriminate].
      intros width E Hw. injection E as <-. contradiction. }
  split; [discriminate|]. split; [discriminate|].
  split; [intros width _ _; split; reflexivity|].
  intros _ _ Hle Hrange.
  destruct (Z.geb_spec (margin_horizontal_to (currentScreen (_terminal sq)))
              (cursor_position_column (currentScreen (_terminal sq)))) as [_|Hlt]; [|lia].
  unfold to_size_t. rewrite Z.mod_small by lia. reflexivity.
Qed.

End WithCollaborators.

End SequencerTheory.

(* ====================================================================== *)
(** * Properties of the parser *)
(* ====================================================================== *)

Module ParserTheory.

Import Sequencer Parser.

Section WithTable.

Context {Cell Screen Hooked : Type} `{Collaborators Cell Screen Hooked}.

Variable table : ParserTable.

Lemma currentScreen_setCurrentScreen (t : Terminal Screen) (s : Screen) :
  currentScreen (setCurrentScreen t s) = s.
Proof. unfold currentScreen, setCurrentScreen. destruct (activeScreen t); reflexivity. Qed.

Lemma currentScreen_setInstructionCounter (t : Terminal Screen) (n : Z) :
  currentScreen (setInstructionCounter t n) = currentScreen t.
Proof. reflexivity. Qed.


(** The run write [print(run, cellCount)] performs. *)
Lemma print_run_terminal (sq : Sequencer Screen Hooked) (run : list Z) (cellCount : Z) :
  run <> [] ->
  exists remaining,
    print_run sq run cellCount
    = Some (withTerminal sq
              (setCurrentScreen
                 (setInstructionCounter (_terminal sq)
                    (instructionCounter (_terminal sq) + StringView.size run))
                 (writeText_run (currentScreen (_terminal sq)) run cellCount)),
            remaining).
Proof.
  intros Hne. unfold print_run. rewrite bool_decide_eq_false_2 by exact Hne.
  eexists. reflexivity.
Qed.

Lemma to_size_t_le (x : Z) : 0 <= x -> to_size_t x <= x.
Proof. intros Hx. unfold to_size_t. apply Z.mod_le; lia. Qed.

(** A positive width is permitted on a trivial line of the primary screen
    only, and it is the space between the cursor and the right margin. *)
Lemma maxBulkTextSequenceWidth_positive (sq : Sequencer Screen Hooked) (width : Z) :
  maxBulkTextSequenceWidth sq = Some width -> width <> 0 ->
  isPrimaryScreen (_terminal sq) = true
  /\ Line.isTrivialBuffer (currentLine (primaryScreen (_terminal sq))) = true
  /\ cursor_position_column (currentScreen (_terminal sq))
     <= margin_horizontal_to (currentScreen (_terminal sq))
  /\ width = to_size_t (margin_horizontal_to (currentScreen (_terminal sq))
                        - cursor_position_column (currentScreen (_terminal sq))).
Proof.
  unfold maxBulkTextSequenceWidth.
  destruct (isPrimaryScreen (_terminal sq)); cbn [negb]; [|intros [= <-]; contradiction].
  destruct (Line.isTrivialBuffer (currentLine (primaryScreen (_terminal sq))));
    cbn [negb]; [|intros [= <-]; contradiction].
  destruct (Z.geb_spec (margin_horizontal_to (currentScreen (_terminal sq)))
              (cursor_position_column (currentScreen (_terminal sq)))) as [Hle|Hlt];
    [|discriminate].
  intros [= <-] _. auto.
Qed.

(** C8.  A bulk write of a text run occurs only when the destination line
    is in trivial form and the full run fits in the remaining margin.  The
    width [maxBulkTextSequenceWidth] permits is 0 whenever the active screen
    is not the primary screen or the current line is not a trivial buffer,
    so a positive width is only reported for a trivial line on the primary
    screen; otherwise it is the space between the cursor column and the
    right margin.  The text path writes a run through [print(run,
    cellCount)] only if the primary screen is active, its current line is
    trivial and the run ends at or before the right margin, and it does
    write it so in that case; in every other case in which it has a result
    the run is printed one code point at a time. *)
Theorem bulk_write_only_when_it_fits (sq : Sequencer Screen Hooked) (run : list Z) :
  let t := _terminal sq in
  let column := cursor_position_column (currentScreen t) in
  let margin := margin_horizontal_to (currentScreen t) in
  (isPrimaryScreen t = false -> maxBulkTextSequenceWidth sq = Some 0)
  /\ (Line.isTrivialBuffer (currentLine (primaryScreen t)) = false ->
      maxBulkTextSequenceWidth sq = Some 0)
  /\ (forall width,
        maxBulkTextSequenceWidth sq = Some width -> width <> 0 ->
        isPrimaryScreen t = true
        /\ Line.isTrivialBuffer (currentLine (primaryScreen t)) = true)
  /\ (isPrimaryScreen t = true ->
      Line.isTrivialBuffer (currentLine (primaryScreen t)) = true ->
      column <= margin -> margin - column < 2 ^ 64 ->
      maxBulkTextSequenceWidth sq = Some (margin - column))
  /\ (forall sq',
        run <> [] -> printText sq run = Some sq' ->
        ((exists remaining,
             print_run sq run (StringView.size run) = Some (sq', remaining))
         /\ isPrimaryScreen t = true
         /\ Line.isTrivialBuffer (currentLine (primaryScreen t)) = true
         /\ column + StringView.size run <= margin)
        \/ (sq' = fold_left print run sq
            /\ (isPrimaryScreen t = false
                \/ Line.isTrivialBuffer (currentLine (primaryScreen t)) = false
                \/ to_size_t (margin - column) < StringView.size run)))
  /\ (run <> [] ->
      isPrimaryScreen t = true ->
      Line.isTrivialBuffer (currentLine (primaryScreen t)) = true ->
      column <= margin -> column + StringView.size run <= margin ->
      margin - column < 2 ^ 64 ->
      exists sq' remaining,
        printText sq run = Some sq'
        /\ print_run sq run (StringView.size run) = Some (sq', remaining)).
Proof.
  intros t column margin.
  destruct (SequencerTheory.maxBulkTextSequenceWidth_spec sq)
    as (Hsecondary & Hinflated & Hpositive & Hwidth).
  fold t in Hsecondary, Hinflated, Hpositive, Hwidth.
  fold column in Hwidth. fold margin in Hwidth.
  split; [exact Hsecondary|]. split; [exact Hinflated|].
  split; [exact Hpositive|]. split; [exact Hwidth|].
  split.
  - clear Hsecondary Hinflated Hpositive Hwidth.
    intros sq' Hne Hprint. unfold printText in Hprint.
    destruct run as [|ch run]; [contradiction|].
    destruct (maxBulkTextSequenceWidth sq) as [width|] eqn:Ewidth; [|discriminate].
    destruct (Z.leb_spec (StringView.size (ch :: run)) width) as [Hfits|Hwide].
    + destruct (print_run_terminal sq (ch :: run) (StringView.size (ch :: run)) Hne)
        as (remaining & E).
      rewrite E in Hprint. injection Hprint as <-. left.
      assert (Hnonzero : width <> 0).
      { unfold StringView.size in Hfits. cbn [length] in Hfits. lia. }
      destruct (maxBulkTextSequenceWidth_positive sq width Ewidth Hnonzero)
        as (Hprimary & Htrivial & Hle & ->).
      fold t in Hprimary, Htrivial, Hle, Hfits. fold column in Hle, Hfits.
      fold margin in Hle, Hfits.
      split; [exists remaining; exact E|]. split; [exact Hprimary|].
      split; [exact Htrivial|].
      pose proof (to_size_t_le (margin - column) ltac:(lia)). lia.
    + injection Hprint as <-. right. split; [reflexivity|].
      destruct (isPrimaryScreen t) eqn:Eprimary; [|left; reflexivity].
      destruct (Line.isTrivialBuffer (currentLine (primaryScreen t))) eqn:Etrivial;
        [|right; left; reflexivity].
      right. right.
      destruct (Z.eq_dec width 0) as [->|Hnonzero].
      * revert Ewidth. unfold maxBulkTextSequenceWidth. fold t.
        rewrite Eprimary, Etrivial. cbn [negb]. fold column. fold margin.
        destruct (margin >=? column); [|discriminate]. intros [= ->]. exact Hwide.
      * destruct (maxBulkTextSequenceWidth_positive sq width Ewidth Hnonzero)
          as (_ & _ & _ & ->).
        exact Hwide.
  - intros Hne Hprimary Htrivial Hle Hfits Hrange.
    unfold printText. destruct run as [|ch run]; [contradiction|].
    rewrite (Hwidth Hprimary Htrivial Hle Hrange).
    destruct (Z.leb_spec (StringView.size (ch :: run)) (margin - column)); [|lia].
    destruct (print_run_terminal sq (ch :: run) (StringView.size (ch :: run)) Hne)
      as (remaining & E).
    rewrite E. eauto.
Qed.

Section Chunking.

(** What the parser relies on in the screen, whose code is not among the
    sources embedded here: the cursor stays within the right margin, and on
    a trivial line a run that fits, written in bulk, leaves the screen as
    its code points written one at a time do. *)
Hypothesis cursor_within_margin :
  forall s : Screen, cursor_position_column s <= margin_horizontal_to s.

Hypothesis bulk_write_agrees :
  forall (s : Screen) (run : list Z),
    Line.isTrivialBuffer (currentLine s) = true ->
    run <> [] ->
    StringView.size run <= to_size_t (margin_horizontal_to s - cursor_position_column s) ->
    writeText_run s run (StringView.size run) = fold_left writeText run s.










End Chunking.

End WithTable.

End ParserTheory.

Module LineExamples.

Import Cell Line LineTheory.

(** Writing the letter x over a trivial line promotes it, with the effect
    the call has on the inflated copy; writing a run of text into an
    inflated line leaves it inflated; [reset] with a count of 3 leaves an
    inflated line trivial, with 3 columns; [setBuffer] and assignment
    install the storage they are given. *)
Lemma storage_representation_witness :
  after (OpFill 0 GraphicsAttributes_default 120 1) (trivialLine 2 [97; 98])
  = after (OpFill 0 GraphicsAttributes_default 120 1) (inflatedLine 2 [97; 98])
  /\ isInflatedBuffer
       (after (OpFillAscii 0 GraphicsAttributes_default [99]) (inflatedLine 2 [97; 98]))
     = true
  /\ _storage (after (OpResetCount 0 GraphicsAttributes_default 3) (inflatedLine 2 [97; 98]))
     = Trivial (TrivialLineBuffer_init 3 GraphicsAttributes_default)
  /\ _storage (after (OpSetBuffer (Inflated [])) (trivialLine 2 [97; 98])) = Inflated []
  /\ _storage (after (OpAssign (trivialLine 5 [])) (inflatedLine 2 [97; 98]))
     = _storage (trivialLine 5 []).
Proof.
  split; [|split; [|split; [|split]]].
  - apply (proj1 (storage_representation (trivialLine 2 [97; 98])
                    (OpFill 0 GraphicsAttributes_default 120 1))); reflexivity.
  - apply (proj1 (proj2 (proj2 (storage_representation (inflatedLine 2 [97; 98])
                    (OpFillAscii 0 GraphicsAttributes_default [99]))))); reflexivity.
  - apply (proj1 (proj2 (proj2 (proj2 (proj2
             (storage_representation (inflatedLine 2 [97; 98]) OpSize)))))).
  - apply (proj1 (proj2 (proj2 (proj2 (proj2 (proj2
             (storage_representation (trivialLine 2 [97; 98]) OpSize))))))).
  - apply (proj1 (proj2 (proj2 (proj2 (proj2 (proj2 (proj2
             (storage_representation (inflatedLine 2 [97; 98]) OpSize)))))))).
Defined.

(** C5, as stated, fails: [reset] turns an inflated line back into a
    trivial one, and [setBuffer] changes the representation without
    [inflatedBuffer]. *)
Lemma reset_demotes_inflated_line :
  isInflatedBuffer (inflatedLine 2 [97; 98]) = true
  /\ isTrivialBuffer (after (OpReset 0 GraphicsAttributes_default) (inflatedLine 2 [97; 98]))
     = true
  /\ isTrivialBuffer (trivialLine 2 [97; 98]) = true
  /\ isInflatedBuffer (after (OpSetBuffer (Inflated [])) (trivialLine 2 [97; 98])) = true.
Proof. repeat split; reflexivity. Qed.

(** C1: the code at inputs on which the two representations of the line
    with the content ab disagree.  Matching b at column 1 fails on the
    trivial form and succeeds on the inflated one, and so does matching the
    empty text, for which no cell is compared at all; searching bc from
    column 0 finds nothing on the trivial form and reports a partial match
    of length 1 on the inflated one, and so does searching xa in reverse
    from column 1. *)
Theorem trivial_and_inflated_disagree :
  matchTextAt (trivialLine 2 [97; 98]) [98] 1 = Some false
  /\ matchTextAt (inflatedLine 2 [97; 98]) [98] 1 = Some true
  /\ matchTextAt (trivialLine 2 [97; 98]) [] 1 = Some false
  /\ matchTextAt (inflatedLine 2 [97; 98]) [] 1 = Some true
  /\ search (trivialLine 2 [97; 98]) [98; 99] 0 = Some None
  /\ search (inflatedLine 2 [97; 98]) [98; 99] 0 = Some (Some (mkSearchResult 0 1))
  /\ searchReverse (trivialLine 2 [97; 98]) [120; 97] 1 = Some None
  /\ searchReverse (inflatedLine 2 [97; 98]) [120; 97] 1
     = Some (Some (mkSearchResult 1 1)).
Proof. repeat split; vm_compute; reflexivity. Qed.

(** Where both forms hold a full match they report the same column. *)
Example full_match_agrees :
  search (trivialLine 2 [97; 98]) [98] 0 = Some (Some (mkSearchResult 1 0))
  /\ search (inflatedLine 2 [97; 98]) [98] 0 = Some (Some (mkSearchResult 1 0))
  /\ searchReverse (trivialLine 2 [97; 98]) [97] 1 = Some (Some (mkSearchResult 0 0))
  /\ searchReverse (inflatedLine 2 [97; 98]) [97] 1 = Some (Some (mkSearchResult 0 0)).
Proof. repeat split; vm_compute; reflexivity. Qed.

End LineExamples.

Module SequencerExamples.

Import Functions Sequencer SequencerTheory Recorder.

#[local] Existing Instance recorder8.

(** Printing the letter H, the run Hi and executing a line feed on the
    recording screen. *)
Lemma print_execute_increment_witness :
  instructionCounter (_terminal (print sequencer0 72))
  = instructionCounter (_terminal sequencer0) + 1
  /\ (exists sq' remaining,
        print_run sequencer0 [72; 105] 2 = Some (sq', remaining)
        /\ instructionCounter (_terminal sq')
           = instructionCounter (_terminal sequencer0) + StringView.size [72; 105]
        /\ instructionCounter (_terminal sequencer0) < instructionCounter (_terminal sq'))
  /\ instructionCounter (_terminal (execute sequencer0 10))
     = instructionCounter (_terminal sequencer0) + 1.
Proof.
  destruct (print_execute_increment sequencer0) as (Hprint & Hrun & Hexecute).
  split; [apply Hprint|].
  split; [apply Hrun; discriminate | apply Hexecute].
Defined.


Example osc_truncated_title :
  Recorder.events (currentScreen (_terminal
     (dispatchOSC (collectOSC sequencer0 (bytes_of "0;My Title")))))
  = [ProcessSequence (mkSequence OSC 0 [[0]] (bytes_of "My Ti") 0)].
Proof. vm_compute. reflexivity. Qed.

End SequencerExamples.

Module ParserExamples.

Import Functions Sequencer Recorder Parser ParserTheory.

Section OnTheTextScreen.

#[local] Existing Instance TextScreen.collaborators.





(** What that input leaves on the screen of one line: the ten letters, and
    eleven instructions counted. *)
Example hello_world :
  option_map (fun p => (TextScreen.written (currentScreen (terminal p)),
                        instructionCounter (terminal p)))
    (parseFragment vt_table TextScreen.parser0
       (bytes_of "Hello" ++ [0x1B] ++ bytes_of "[31mWorld" ++ [0x1B] ++ bytes_of "[0m"
        ++ [0x0A]))
  = Some (bytes_of "HelloWorld", 11).
Proof. vm_compute. reflexivity. Qed.

End OnTheTextScreen.

#[local] Existing Instance recorder.

(** On the primary screen with the cursor at the left of a trivial line the
    run Hi is written in bulk; on the alternate screen no width is
    permitted. *)
Lemma bulk_write_only_when_it_fits_witness :
  (exists sq' remaining,
      printText sequencer0 (bytes_of "Hi") = Some sq'
      /\ print_run sequencer0 (bytes_of "Hi") (StringView.size (bytes_of "Hi"))
         = Some (sq', remaining))
  /\ maxBulkTextSequenceWidth sequencer_alternate = Some 0.
Proof.
  split.
  - apply (proj2 (proj2 (proj2 (proj2 (proj2
             (bulk_write_only_when_it_fits sequencer0 (bytes_of "Hi")))))));
      try reflexivity; vm_compute; congruence.
  - apply (proj1 (bulk_write_only_when_it_fits sequencer_alternate [])). reflexivity.
Defined.

(** The recording screen tells a run write from code points written one at
    a time: the run Hi reaches it in one call from one chunk and in two
    calls from two, and on the alternate screen it is placed one code point
    at a time. *)
Example bulk_write_calls :
  option_map (fun p => Recorder.events (currentScreen (terminal p)))
    (parseFragment vt_table parser0 (bytes_of "Hi"))
  = Some [WriteTextRun (bytes_of "Hi") 2]
  /\ option_map (fun p => Recorder.events (currentScreen (terminal p)))
       (parseBytewise vt_table parser0 (bytes_of "Hi"))
     = Some [WriteTextRun (bytes_of "H") 1; WriteTextRun (bytes_of "i") 1]
  /\ option_map (fun p => Recorder.events (currentScreen (terminal p)))
       (parseFragment vt_table
          (mkParser Ground (mkUtf8Decoder 0 0) sequencer_alternate) (bytes_of "Hi"))
     = Some [WriteText (chr "H"); WriteText (chr "i")].
Proof. repeat split; vm_compute; reflexivity. Qed.

(** The scenario of the design document: the OSC that sets the window title
    reaches the screen with the code 0 and the exact title, without the
    terminator. *)
Example osc_title :
  option_map (fun p => Recorder.events (currentScreen (terminal p)))
    (parseFragment vt_table parser0 ([0x1B] ++ bytes_of "]0;My Title" ++ [0x07]))
  = Some [ProcessSequence (mkSequence OSC 0 [[0]] (bytes_of "My Title") 0)].
Proof. vm_compute. reflexivity. Qed.

(** The scenario of the design document: a CAN in the middle of the
    parameters of a CSI aborts the sequence, and the byte after it is
    printed as fresh Ground input. *)
Example can_aborts_csi :
  option_map (fun p => Recorder.events (currentScreen (terminal p)))
    (parseFragment vt_table parser0 ([0x1B] ++ bytes_of "[3" ++ [0x18] ++ bytes_of "1"))
  = Some [ExecuteControlCode 0x18; WriteTextRun (bytes_of "1") 1].
Proof. vm_compute. reflexivity. Qed.

(** A code point whose UTF-8 encoding is cut by a chunk boundary: the
    decoder keeps the first two bytes of the euro sign until the third
    arrives. *)
Example utf8_across_chunks :
  option_map (fun p => Recorder.events (currentScreen (terminal p)))
    (parseChunks vt_table parser0 [[0xE2; 0x82]; [0xAC]])
  = Some [WriteText 0x20AC]
  /\ option_map _decoder (parseFragment vt_table parser0 [0xE2; 0x82])
     = Some (mkUtf8Decoder 1 0x82).
Proof. split; vm_compute; reflexivity. Qed.

End ParserExamples.

(* ====================================================================== *)
(** * Further properties of the function table *)
(* ====================================================================== *)

Module FunctionsOrderTheory.

Import Functions FunctionsTheory.

Lemma compare_definitions_zero (a b : FunctionDefinition) :
  compare_definitions a b = 0 <->
  category a = category b
  /\ finalSymbol a = finalSymbol b
  /\ leader a = leader b
  /\ intermediate a = intermediate b
  /\ minimumParameters a = minimumParameters b
  /\ maximumParameters a = maximumParameters b.
Proof.
  unfold compare_definitions. split.
  - destruct (category_eqb (category a) (category b)) eqn:Ecat; cbn [negb].
    2:{ unfold category_eqb in Ecat. apply Z.eqb_neq in Ecat. lia. }
    apply category_eqb_eq in Ecat.
    repeat match goal with
           | |- context [?x =? ?y] => destruct (Z.eqb_spec x y); cbn [negb]; [|lia]
           end.
    intros. repeat split; try assumption; lia.
  - intros (Ecat & -> & -> & -> & -> & ->).
    rewrite (proj2 (category_eqb_eq _ _) Ecat). rewrite !Z.eqb_refl. cbn [negb]. lia.
Qed.

Lemma compare_definitions_opposite (a b : FunctionDefinition) :
  compare_definitions b a = - compare_definitions a b.
Proof.
  unfold compare_definitions, category_eqb.
  repeat match goal with
         | |- context [?x =? ?y] => destruct (Z.eqb_spec x y)
         end; cbn [negb]; lia.
Qed.

(** X1.  The comparison of definitions is a total order on the six syntax
    fields: swapping the operands negates the result, the result is 0, which
    is what [operator==] tests, exactly when category, final symbol, leader,
    intermediate and both parameter bounds agree, whatever the conformance
    level, extension, mnemonic and comment are, and [operator<] is
    transitive. *)
Theorem definition_order (a b c : FunctionDefinition) :
  compare_definitions b a = - compare_definitions a b
  /\ (FunctionDefinition_eq a b = true <->
      category a = category b
      /\ finalSymbol a = finalSymbol b
      /\ leader a = leader b
      /\ intermediate a = intermediate b
      /\ minimumParameters a = minimumParameters b
      /\ maximumParameters a = maximumParameters b)
  /\ (FunctionDefinition_lt a b = true -> FunctionDefinition_lt b c = true ->
      FunctionDefinition_lt a c = true)
  /\ (FunctionDefinition_lt a b = true \/ FunctionDefinition_eq a b = true
      \/ FunctionDefinition_gt a b = true).
Proof.
  split; [apply compare_definitions_opposite|].
  split.
  { unfold FunctionDefinition_eq. rewrite Z.eqb_eq. apply compare_definitions_zero. }
  split.
  { unfold FunctionDefinition_lt. rewrite !Z.ltb_lt.
    apply compare_definitions_transitive. }
  unfold FunctionDefinition_lt, FunctionDefinition_eq, FunctionDefinition_gt.
  rewrite Z.gtb_ltb, !Z.ltb_lt, Z.eqb_eq. lia.
Qed.

(** DECRQM sorts after DECRQM_ANSI, which sorts after DECSTR. *)
Lemma definition_order_witness :
  FunctionDefinition_lt DECSTR DECRQM = true.
Proof.
  apply (proj1 (proj2 (proj2 (definition_order DECSTR DECRQM_ANSI DECRQM)))).
  - vm_compute. reflexivity.
  - vm_compute. reflexivity.
Defined.

Lemma NoDup_map_injective {A B : Type} (f : A -> B) (l : list A) (a b : A) :
  NoDup (map f l) -> In a l -> In b l -> f a = f b -> a = b.
Proof.
  induction l as [|x l IH]; intros Hnd Ha Hb E; [contradiction|].
  cbn [map] in Hnd. apply NoDup_cons in Hnd. destruct Hnd as [Hx Hnd].
  destruct Ha as [->|Ha], Hb as [->|Hb].
  - reflexivity.
  - exfalso. apply Hx. rewrite E. apply list_elem_of_In. apply in_map. exact Hb.
  - exfalso. apply Hx. rewrite <- E. apply list_elem_of_In. apply in_map. exact Ha.
  - apply IH; assumption.
Qed.

Lemma ids_distinct : NoDup (map FunctionDefinition_id functions_unsorted).
Proof.
  apply (bool_decide_unpack (NoDup (map FunctionDefinition_id functions_unsorted))).
  vm_compute. reflexivity.
Qed.

(** X2.  The packed id, which [std::hash] of a definition returns, is a
    perfect hash of the function table: no two registered definitions have
    the same id. *)
Theorem id_perfect_on_table (a b : FunctionDefinition) :
  In a functions_unsorted -> In b functions_unsorted ->
  FunctionDefinition_id a = FunctionDefinition_id b -> a = b.
Proof. apply NoDup_map_injective. apply ids_distinct. Qed.

(** The id 0x4402 belongs to CUP only. *)
Lemma id_perfect_on_table_witness : CUP = CUP.
Proof.
  apply (id_perfect_on_table CUP CUP).
  - vm_compute. do 39 right. left. reflexivity.
  - vm_compute. do 39 right. left. reflexivity.
  - reflexivity.
Defined.

Lemma lor_disjoint_add (a b k : Z) :
  0 <= k -> 0 <= a < 2 ^ k -> 0 <= b -> Z.lor a (b * 2 ^ k) = a + b * 2 ^ k.
Proof.
  intros Hk Ha Hb.
  assert (Hdisjoint : Z.land a (b * 2 ^ k) = 0).
  { apply Z.bits_inj'. intros n Hn. rewrite Z.land_spec, Z.bits_0.
    destruct (Z.ltb_spec n k).
    - rewrite Z.mul_pow2_bits_low by lia. apply andb_false_r.
    - destruct (Z.eq_dec a 0) as [->|Hne]; [rewrite Z.bits_0; reflexivity|].
      rewrite (Z.bits_above_log2 a n); [reflexivity|lia|].
      assert (Z.log2 a < k) by (apply Z.log2_lt_pow2; lia). lia. }
  rewrite <- Z.lxor_lor by exact Hdisjoint.
  symmetry. apply Z.add_nocarry_lxor. exact Hdisjoint.
Qed.

Lemma id_sum (d : FunctionDefinition) :
  id_fits d = true ->
  FunctionDefinition_id d
  = category_int (category d)
    + 8 * (if leader d =? 0 then 0 else leader d - 0x3C)
    + 64 * (if intermediate d =? 0 then 0 else intermediate d - 0x20 + 1)
    + 1024 * (if finalSymbol d =? 0 then 0 else finalSymbol d - 0x40)
    + 131072 * minimumParameters d
    + 2097152 * maximumParameters d.
Proof.
  unfold id_fits. rewrite !andb_true_iff, !orb_true_iff, !andb_true_iff.
  rewrite !Z.eqb_eq, !Z.leb_le.
  intros ((((Hleader & Hintermediate) & Hfinal) & Hmin) & Hmax).
  unfold FunctionDefinition_id, to_uint32.
  rewrite !Z.shiftl_mul_pow2 by lia.
  assert (Hcat : 0 <= category_int (category d) < 8)
    by (destruct (category d); cbn; lia).
  set (L := if leader d =? 0 then 0 else leader d - 0x3C).
  set (I := if intermediate d =? 0 then 0 else intermediate d - 0x20 + 1).
  set (F := if finalSymbol d =? 0 then 0 else finalSymbol d - 0x40).
  assert (HL : 0 <= L <= 7) by (subst L; destruct (Z.eqb_spec (leader d) 0); lia).
  assert (HI : 0 <= I <= 15) by (subst I; destruct (Z.eqb_spec (intermediate d) 0); lia).
  assert (HF : 0 <= F <= 127) by (subst F; destruct (Z.eqb_spec (finalSymbol d) 0); lia).
  assert (EL : (if leader d =? 0 then 0
                else ((leader d mod 2 ^ 32 - 0x3C) mod 2 ^ 32 * 2 ^ 3) mod 2 ^ 32)
               = L * 2 ^ 3).
  { subst L. destruct (Z.eqb_spec (leader d) 0); [reflexivity|].
    rewrite (Z.mod_small (leader d)) by lia.
    rewrite (Z.mod_small (leader d - 0x3C)) by lia.
    rewrite Z.mod_small by lia. lia. }
  assert (EI : (if intermediate d =? 0 then 0
                else ((intermediate d mod 2 ^ 32 - 0x20 + 1) mod 2 ^ 32 * 2 ^ (3 + 3))
                     mod 2 ^ 32)
               = I * 2 ^ 6).
  { subst I. destruct (Z.eqb_spec (intermediate d) 0); [reflexivity|].
    rewrite (Z.mod_small (intermediate d)) by lia.
    rewrite (Z.mod_small (intermediate d - 0x20 + 1)) by lia.
    rewrite Z.mod_small by lia. lia. }
  assert (EF : (if finalSymbol d =? 0 then 0
                else ((finalSymbol d mod 2 ^ 32 - 0x40) mod 2 ^ 32 * 2 ^ (3 + 3 + 4))
                     mod 2 ^ 32)
               = F * 2 ^ 10).
  { subst F. destruct (Z.eqb_spec (finalSymbol d) 0); [reflexivity|].
    rewrite (Z.mod_small (finalSymbol d)) by lia.
    rewrite (Z.mod_small (finalSymbol d - 0x40)) by lia.
    rewrite Z.mod_small by lia. lia. }
  cbv zeta. rewrite EL, EI, EF.
  rewrite (Z.mod_small (category_int (category d))) by lia.
  rewrite (Z.mod_small (category_int (category d) * 2 ^ 0)) by lia.
  rewrite (Z.mod_small (minimumParameters d)) by lia.
  rewrite (Z.mod_small (maximumParameters d)) by lia.
  rewrite (Z.mod_small (minimumParameters d * 2 ^ (3 + 3 + 4 + 7))) by lia.
  rewrite (Z.mod_small (maximumParameters d * 2 ^ (3 + 3 + 4 + 7 + 4))) by lia.
  change (3 + 3 + 4 + 7) with 17. change (3 + 3 + 4 + 7 + 4) with 21.
  rewrite (lor_disjoint_add _ L 3) by lia.
  rewrite (lor_disjoint_add _ I 6) by lia.
  rewrite (lor_disjoint_add _ F 10) by lia.
  rewrite (lor_disjoint_add _ (minimumParameters d) 17) by lia.
  rewrite (lor_disjoint_add _ (maximumParameters d) 21) by lia.
  lia.
Qed.

(** X3.  Within the field values that fit its bit fields, the id tells
    definitions apart: two such definitions with the same id are equal in
    the sense of [operator==].  The bounds are tight: the leader [<] is
    packed like the absence of a leader, the final symbol [@] like the
    absence of a final symbol, and the intermediate [/] overflows into
    the field of the final symbol, where it is taken for the final symbol
    [A]. *)
Theorem id_injective_within_fields (a b d : FunctionDefinition) :
  (id_fits a = true -> id_fits b = true ->
   FunctionDefinition_id a = FunctionDefinition_id b ->
   FunctionDefinition_eq a b = true)
  /\ FunctionDefinition_id (with_leader d (chr "<")) = FunctionDefinition_id (with_leader d 0)
  /\ FunctionDefinition_id (with_finalSymbol d (chr "@"))
     = FunctionDefinition_id (with_finalSymbol d 0)
  /\ FunctionDefinition_id (with_finalSymbol (with_intermediate d (chr "/")) 0)
     = FunctionDefinition_id (with_finalSymbol (with_intermediate d 0) (chr "A")).
Proof.
  split; [|split; [reflexivity|split; [reflexivity|]]].
  2:{ unfold FunctionDefinition_id, with_finalSymbol, with_intermediate.
      cbn [leader intermediate finalSymbol category minimumParameters maximumParameters].
      change (chr "/" =? 0) with false. change (chr "A" =? 0) with false.
      change (0 =? 0) with true. cbv iota.
      change (to_uint32 (Z.shiftl (to_uint32 (to_uint32 (chr "/") - 32 + 1)) (3 + 3)))
        with 1024.
      change (to_uint32 (Z.shiftl (to_uint32 (to_uint32 (chr "A") - 64)) (3 + 3 + 4)))
        with 1024.
      rewrite !Z.lor_0_r. reflexivity. }
  intros Ha Hb E. rewrite (id_sum a Ha), (id_sum b Hb) in E.
  unfold id_fits in Ha, Hb.
  rewrite !andb_true_iff, !orb_true_iff, !andb_true_iff, !Z.eqb_eq, !Z.leb_le in Ha, Hb.
  destruct Ha as ((((HaL & HaI) & HaF) & Hamin) & Hamax).
  destruct Hb as ((((HbL & HbI) & HbF) & Hbmin) & Hbmax).
  unfold FunctionDefinition_eq. rewrite Z.eqb_eq.
  apply compare_definitions_zero.
  assert (Hca : 0 <= category_int (category a) < 8) by (destruct (category a); cbn; lia).
  assert (Hcb : 0 <= category_int (category b) < 8) by (destruct (category b); cbn; lia).
  destruct (Z.eqb_spec (leader a) 0), (Z.eqb_spec (leader b) 0),
    (Z.eqb_spec (intermediate a) 0), (Z.eqb_spec (intermediate b) 0),
    (Z.eqb_spec (finalSymbol a) 0), (Z.eqb_spec (finalSymbol b) 0);
    (split; [apply category_int_inj; lia|lia]).
Qed.

(** CUP has field values that fit, and is equal to itself. *)
Lemma id_injective_within_fields_witness : FunctionDefinition_eq CUP CUP = true.
Proof.
  apply (proj1 (id_injective_within_fields CUP CUP CUP)); reflexivity.
Defined.

(** X4.  The function table is unambiguous: whatever the selector, at most
    one registered definition compares equal to it. *)
Theorem table_unambiguous (selector : FunctionSelector) (d d' : FunctionDefinition) :
  In d functions_unsorted -> In d' functions_unsorted ->
  compare selector d = 0 -> compare selector d' = 0 -> d = d'.
Proof.
  intros Hd Hd' Hzero Hzero'.
  assert (P : forall x, In x functions_unsorted -> In x functions).
  { intros x Hx. eapply Permutation_in; [|exact Hx].
    symmetry. apply functions_permutation. }
  apply (match_unique selector d' d); auto.
Qed.

(** The selector of [CSI 1 ; 1 H] matches CUP and nothing else. *)
Lemma table_unambiguous_witness : CUP = CUP.
Proof.
  apply (table_unambiguous (selector_of CUP 2) CUP CUP).
  - vm_compute. do 39 right. left. reflexivity.
  - vm_compute. do 39 right. left. reflexivity.
  - vm_compute. reflexivity.
  - vm_compute. reflexivity.
Defined.

End FunctionsOrderTheory.

(* ====================================================================== *)
(** * Further properties of lines *)
(* ====================================================================== *)

Module LineFlagsTheory.

Import Cell Line.

Lemma testbit_below_32 (x n : Z) :
  0 <= x < 2 ^ 32 -> 0 <= n -> Z.testbit x n = true -> n < 32.
Proof.
  intros Hx Hn Hbit.
  destruct (Z.ltb_spec n 32) as [|Hge]; [assumption|exfalso].
  destruct (Z.eq_dec x 0) as [->|Hne].
  - rewrite Z.testbit_0_l in Hbit. discriminate.
  - rewrite Z.bits_above_log2 in Hbit; [discriminate|lia|].
    assert (Z.log2 x < 32) by (apply Z.log2_lt_pow2; lia). lia.
Qed.

Lemma testbit_mask (n : Z) : 0 <= n -> Z.testbit (2 ^ 32 - 1) n = (n <? 32).
Proof.
  intros Hn. change (2 ^ 32 - 1) with (Z.ones 32).
  destruct (Z.ltb_spec n 32).
  - apply Z.ones_spec_low. lia.
  - apply Z.ones_spec_high. lia.
Qed.

Lemma land_complement_self (flag : Z) :
  0 <= flag < 2 ^ 32 -> Z.land (Z.lxor flag (2 ^ 32 - 1)) flag = 0.
Proof.
  intros Hflag. apply Z.bits_inj'. intros n Hn.
  rewrite Z.land_spec, Z.lxor_spec, Z.bits_0, testbit_mask by assumption.
  destruct (Z.testbit flag n) eqn:Hbit; [|apply andb_false_r].
  apply testbit_below_32 in Hbit; try assumption.
  apply Z.ltb_lt in Hbit. rewrite Hbit. reflexivity.
Qed.

Lemma land_complement_other (flag other : Z) :
  0 <= other < 2 ^ 32 -> Z.land flag other = 0 ->
  Z.land (Z.lxor flag (2 ^ 32 - 1)) other = other.
Proof.
  intros Hother Hdisjoint. apply Z.bits_inj'. intros n Hn.
  rewrite Z.land_spec, Z.lxor_spec, testbit_mask by assumption.
  destruct (Z.testbit other n) eqn:Hbit; [|apply andb_false_r].
  assert (Hflag : Z.testbit flag n = false).
  { assert (E : Z.testbit (Z.land flag other) n = false)
      by (rewrite Hdisjoint; apply Z.bits_0).
    rewrite Z.land_spec, Hbit, andb_true_r in E. exact E. }
  apply testbit_below_32 in Hbit; try assumption.
  apply Z.ltb_lt in Hbit. rewrite Hflag, Hbit. reflexivity.
Qed.

Lemma unsigned_land_ones (x : Z) : 0 <= x < 2 ^ 32 <-> Z.land x (Z.ones 32) = x.
Proof.
  rewrite Z.land_ones by lia. split.
  - intros Hx. apply Z.mod_small. exact Hx.
  - intros <-. apply Z.mod_pos_bound. lia.
Qed.

Lemma land_low (f m : Z) : 0 <= m < 8 -> Z.land f m = Z.land (f mod 8) m.
Proof.
  intros Hm. change 8 with (2 ^ 3). rewrite <- (Z.land_ones f 3) by lia.
  rewrite <- Z.land_assoc. f_equal.
  rewrite Z.land_comm, Z.land_ones by lia.
  symmetry. apply Z.mod_small. exact Hm.
Qed.

Section WithCell.

Context {C : Type} `{CellConcept C}.

Lemma setFlag_spec (l : Line C) (flag other : Z) (enable : bool) :
  0 < flag < 2 ^ 32 ->
  0 <= other < 2 ^ 32 ->
  Z.land flag other = 0 ->
  isFlagEnabled (setFlag l flag enable) flag = enable
  /\ isFlagEnabled (setFlag l flag enable) other = isFlagEnabled l other.
Proof.
  intros Hflag Hother Hdisjoint. unfold isFlagEnabled, setFlag. cbn [_flags].
  destruct enable.
  - rewrite !Z.land_lor_distr_l, Z.land_diag, Hdisjoint, Z.lor_0_r. split; [|reflexivity].
    apply negb_true_iff, Z.eqb_neq. intros E. apply Z.lor_eq_0_iff in E. lia.
  - rewrite <- !Z.land_assoc, land_complement_self, Z.land_0_r by lia.
    rewrite land_complement_other by assumption. split; reflexivity.
Qed.

(** X5.  Setting or clearing a flag is read back by [isFlagEnabled], leaves
    every flag that shares no bit with it as it was, does not touch the
    storage, and keeps [_flags] an unsigned 32-bit value. *)
Theorem setFlag_isFlagEnabled (l : Line C) (flag other : Z) (enable : bool) :
  0 < flag < 2 ^ 32 ->
  0 <= other < 2 ^ 32 ->
  Z.land flag other = 0 ->
  0 <= _flags l < 2 ^ 32 ->
  isFlagEnabled (setFlag l flag enable) flag = enable
  /\ isFlagEnabled (setFlag l flag enable) other = isFlagEnabled l other
  /\ _storage (setFlag l flag enable) = _storage l
  /\ 0 <= _flags (setFlag l flag enable) < 2 ^ 32.
Proof.
  intros Hflag Hother Hdisjoint Hrange.
  destruct (setFlag_spec l flag other enable Hflag Hother Hdisjoint) as [E1 E2].
  split; [exact E1|]. split; [exact E2|]. split; [reflexivity|].
  apply unsigned_land_ones. apply unsigned_land_ones in Hrange.
  unfold setFlag. cbn [_flags]. destruct enable.
  - rewrite Z.land_lor_distr_l, Hrange. f_equal. apply unsigned_land_ones. lia.
  - rewrite <- Z.land_assoc, (Z.land_comm (Z.lxor _ _)), Z.land_assoc, Hrange. reflexivity.
Qed.

Ltac low_bits f :=
  rewrite ?(land_low f 1), ?(land_low f 2), ?(land_low f 4), ?(land_low f 5) by lia;
  let r := fresh "r" in
  let Hr := fresh "Hr" in
  let Er := fresh "Er" in
  pose proof (Z.mod_pos_bound f 8 ltac:(lia)) as Hr;
  remember (f mod 8) as r eqn:Er; clear Er;
  assert (r = 0 \/ r = 1 \/ r = 2 \/ r = 3 \/ r = 4 \/ r = 5 \/ r = 6 \/ r = 7)
    as [->|[->|[->|[->|[->|[->|[->| ->]]]]]]] by lia;
  reflexivity.

(** X6.  The flags a line passes on are its Wrappable and Marked flags and
    nothing else:  [inheritableFlags] is the union of [wrappableFlag] and
    [markedFlag], and never holds Wrapped. *)
Theorem inheritableFlags_spec (l : Line C) :
  inheritableFlags l = Z.lor (wrappableFlag l) (markedFlag l)
  /\ Z.land (inheritableFlags l) LineFlags_Wrapped = 0.
Proof.
  unfold inheritableFlags, wrappableFlag, markedFlag, wrappable, marked, isFlagEnabled,
    LineFlags_Wrappable, LineFlags_Marked, LineFlags_Wrapped, LineFlags_None.
  change (Z.lor 1 4) with 5.
  split; low_bits (_flags l).
Qed.

(** X7.  [wrappedFlag] follows the Marked flag, not the Wrapped flag: on a
    line that is marked and not wrapped it is Wrapped, and on a line that is
    wrapped and not marked it is None. *)
Theorem wrappedFlag_follows_marked (l : Line C) (enable : bool) :
  let l' := setWrapped (setMarked l enable) (negb enable) in
  marked l' = enable
  /\ wrapped l' = negb enable
  /\ wrappedFlag l' = if enable then LineFlags_Wrapped else LineFlags_None.
Proof.
  intros l'. subst l'. unfold wrappedFlag, marked, wrapped, setWrapped, setMarked.
  assert (E1 : isFlagEnabled (setFlag (setFlag l LineFlags_Marked enable)
                                LineFlags_Wrapped (negb enable)) LineFlags_Marked = enable).
  { rewrite (proj2 (setFlag_spec _ LineFlags_Wrapped LineFlags_Marked _
                      ltac:(vm_compute; split; reflexivity)
                      ltac:(vm_compute; split; [discriminate|reflexivity]) eq_refl)).
    apply (proj1 (setFlag_spec l LineFlags_Marked 0 enable
                    ltac:(vm_compute; split; reflexivity)
                    ltac:(vm_compute; split; [discriminate|reflexivity]) eq_refl)). }
  rewrite E1. split; [reflexivity|]. split; [|reflexivity].
  apply (proj1 (setFlag_spec _ LineFlags_Wrapped 0 (negb enable)
                  ltac:(vm_compute; split; reflexivity)
                  ltac:(vm_compute; split; [discriminate|reflexivity]) eq_refl)).
Qed.

End WithCell.

(** The Marked flag of a wrappable line is set and read back; Wrappable
    stays. *)
Lemma setFlag_isFlagEnabled_witness :
  isFlagEnabled (setFlag (trivialLine 4 []) LineFlags_Marked true) LineFlags_Marked = true.
Proof.
  apply (proj1 (setFlag_isFlagEnabled (trivialLine 4 []) LineFlags_Marked
                  LineFlags_Wrappable true
                  ltac:(vm_compute; split; reflexivity)
                  ltac:(vm_compute; split; [discriminate|reflexivity])
                  eq_refl
                  ltac:(vm_compute; split; [discriminate|reflexivity]))).
Defined.

End LineFlagsTheory.

Module LineContentTheory.

Import Cell Line.

Lemma to_size_t_small (x : Z) : 0 <= x < 2 ^ 64 -> to_size_t x = x.
Proof. intros Hx. unfold to_size_t. apply Z.mod_small. exact Hx. Qed.

Lemma to_size_t_negative (x : Z) : - 2 ^ 64 <= x < 0 -> to_size_t x = x + 2 ^ 64.
Proof.
  intros Hx. unfold to_size_t. symmetry. apply (Z.mod_unique_pos _ _ (-1)); lia.
Qed.




Section WithCell.

Context {C : Type} `{CellConcept C}.

Lemma fill_ascii_length {A : Type} (f : C -> A -> C) (g : C -> C) (buffer : list C)
  (ascii : list A) (i : nat) :
  (i + length ascii <= length buffer)%nat ->
  length (take i buffer ++ zip_with f (take (length ascii) (drop i buffer)) ascii
          ++ map g (drop (i + length ascii) buffer)) = length buffer.
Proof.
  intros Hfit.
  rewrite !length_app, length_zip_with, !length_take, length_map, !length_drop. lia.
Qed.

(** X8.  No member function of [Line] changes the number of columns of an
    inflated line, or of a line it leaves trivial, except [reset] with a
    count, [setBuffer] and copy and move assignment. *)
Theorem size_preserved (l : Line C) (op : Operation) :
  sets_size op = false ->
  isInflatedBuffer l = true \/ isTrivialBuffer (after op l) = true ->
  size (after op l) = size l.
Proof.
  intros Hop Hl. destruct l as [[buffer|cells] f].
  - destruct Hl as [Hl|Hl]; [discriminate Hl|].
    destruct op; simpl in Hop; try discriminate Hop; cbn [after] in *; try reflexivity;
      try discriminate Hl.
    + unfold fill in *. destruct (codepoint =? 0); [reflexivity|discriminate Hl].
    + unfold fill_ascii in Hl. cbn in Hl.
      repeat match type of Hl with
             | context [if ?b then _ else _] => destruct b
             end; discriminate Hl.
    + unfold useRange in Hl. cbn in Hl. destruct (_ && _) in Hl; discriminate Hl.
    + unfold useCellAt in *. cbn [size _storage] in *.
      destruct ((0 <=? column0) && (column0 <=? displayWidth buffer)); [|reflexivity].
      cbn in Hl. destruct (inflate buffer !! Z.to_nat column0); discriminate Hl.
    + unfold cellEmptyAt. cbn [_storage]. destruct (_ && _); reflexivity.
    + unfold cellWidthAt in Hl. cbn in Hl.
      destruct (inflate buffer !! _) in Hl; discriminate Hl.
  - clear Hl.
    destruct op; simpl in Hop; try discriminate Hop; cbn [after]; try reflexivity.
    + unfold fill. destruct (codepoint =? 0); [reflexivity|].
      cbn. unfold StringView.size. rewrite length_map. reflexivity.
    + unfold fill_ascii. cbn [inflatedBuffer _storage].
      destruct (fill_ascii_assertion cells start ascii); [|reflexivity]. cbn [negb].
      destruct (Z.leb_spec (to_size_t start + StringView.size ascii) (StringView.size cells))
        as [Hfit|Hfit]; [|reflexivity].
      cbn. unfold StringView.size in *. rewrite fill_ascii_length; [reflexivity|].
      assert (0 <= to_size_t start) by (apply Z.mod_pos_bound; lia). lia.
    + unfold useRange. cbn. destruct (_ && _); reflexivity.
    + unfold useCellAt. cbn. destruct (_ && _); [|reflexivity].
      destruct (cells !! _); reflexivity.
    + unfold cellEmptyAt. cbn. destruct (cells !! _); reflexivity.
    + unfold cellWidthAt. cbn. destruct (cells !! _); reflexivity.
Qed.


(** X10.  A line that [empty] calls empty has [cellEmptyAt] true at every
    column; on an inflated line the converse holds too.  On a trivial line
    it does not: a run of blanks is not [empty], while every one of its
    columns is. *)
Theorem empty_cellEmptyAt (l : Line C) :
  size l < 2 ^ 31 ->
  (empty l = true ->
   forall column, 0 <= column < size l -> cellEmptyAt l column = Some (l, true))
  /\ (isInflatedBuffer l = true ->
      (forall column, 0 <= column < size l -> cellEmptyAt l column = Some (l, true)) ->
      empty l = true)
  /\ (forall buffer,
        _storage l = Trivial buffer ->
        text buffer <> [] ->
        Forall (fun ch => ch = 0x20) (text buffer) ->
        empty l = false
        /\ forall column, 0 <= column < size l -> cellEmptyAt l column = Some (l, true)).
Proof.
  intros Hsize. destruct l as [[buffer|cells] f]; cbn [size _storage] in Hsize.
  - split; [|split].
    + unfold empty, cellEmptyAt. cbn [_storage size]. intros Hempty column Hcolumn.
      apply bool_decide_eq_true in Hempty. rewrite Hempty.
      destruct (Z.leb_spec 0 column); [|lia].
      destruct (Z.ltb_spec column (displayWidth buffer)); [|lia].
      cbn [andb]. rewrite to_size_t_small by lia.
      destruct (Z.geb_spec column (StringView.size (@nil Z))) as [|Hlt]; [reflexivity|].
      unfold StringView.size in Hlt. cbn in Hlt. lia.
    + intros Hl. discriminate Hl.
    + intros ? [= <-] Hne Hblank. split.
      * unfold empty. cbn [_storage]. apply bool_decide_eq_false. exact Hne.
      * intros column Hcolumn. unfold cellEmptyAt. cbn [_storage size] in *.
        destruct (Z.leb_spec 0 column); [|lia].
        destruct (Z.ltb_spec column (displayWidth buffer)); [|lia].
        cbn [andb]. do 2 f_equal.
        destruct (text buffer !! Z.to_nat column) as [ch|] eqn:Hch.
        -- rewrite Forall_lookup in Hblank. rewrite (Hblank _ _ Hch). apply orb_true_r.
        -- apply lookup_ge_None in Hch. rewrite to_size_t_small by lia.
           unfold StringView.size.
           destruct (Z.geb_spec column (Z.of_nat (length (text buffer)))); [reflexivity|lia].
  - unfold StringView.size in Hsize. split; [|split].
    + unfold empty, cellEmptyAt. cbn [_storage size]. intros Hempty column Hcolumn.
      unfold StringView.size in Hcolumn. rewrite to_size_t_small by lia.
      destruct (cells !! Z.to_nat column) as [cell|] eqn:Hcell.
      * rewrite forallb_forall in Hempty. rewrite (Hempty cell); [reflexivity|].
        apply list_elem_of_In. eapply list_elem_of_lookup_2. exact Hcell.
      * apply lookup_ge_None in Hcell. lia.
    + intros _ Hcells. unfold empty. cbn [_storage]. apply forallb_forall.
      intros cell Hin. apply list_elem_of_In, list_elem_of_lookup in Hin.
      destruct Hin as [i Hi].
      assert (Hlt : (i < length cells)%nat) by (apply lookup_lt_is_Some; eauto).
      specialize (Hcells (Z.of_nat i)). unfold cellEmptyAt in Hcells.
      cbn [_storage size] in Hcells. unfold StringView.size in Hcells.
      rewrite to_size_t_small, Nat2Z.id, Hi in Hcells by lia.
      specialize (Hcells ltac:(lia)). congruence.
    + intros ? [=].
Qed.

End WithCell.


(** Resetting an inflated line of four columns keeps the four columns. *)
Lemma size_preserved_witness :
  size (after (OpReset 0 GraphicsAttributes_default) (inflatedLine 4 [])) = 4.
Proof.
  apply (size_preserved (inflatedLine 4 []) (OpReset 0 GraphicsAttributes_default) eq_refl).
  left. reflexivity.
Defined.

(** An empty line of four columns. *)
Lemma empty_cellEmptyAt_witness :
  cellEmptyAt (trivialLine 4 []) 2 = Some (trivialLine 4 [], true).
Proof.
  apply (proj1 (empty_cellEmptyAt (trivialLine 4 []) ltac:(vm_compute; reflexivity))).
  - reflexivity.
  - vm_compute. split; [discriminate|reflexivity].
Defined.

End LineContentTheory.

Module LineSearchTheory.

Import Cell Line LineContentTheory.

Section Inflated.

Context {C : Type} `{CellConcept C}.

Variable cells : list C.
Variable f : Z.
Hypothesis Hcolumns : StringView.size cells < 2 ^ 31.

Local Abbreviation l := (mkLine (Inflated cells) f).
Local Abbreviation n := (StringView.size cells).

Lemma matchTextAt_loop_defined (text : list Z) :
  forall i base,
    0 <= base -> 0 <= i -> base + i + StringView.size text <= n ->
    exists b, matchTextAt_loop cells base text i = Some b.
Proof.
  unfold StringView.size in *.
  induction text as [|x t IH]; intros i base Hbase Hi Hfit.
  - exists true. reflexivity.
  - cbn [matchTextAt_loop length] in *. rewrite to_size_t_small by lia.
    destruct (cells !! Z.to_nat (base + i)) as [cell|] eqn:E.
    + destruct (negb (beginsWith (x :: t) cell)); [eexists; reflexivity|].
      apply IH; lia.
    + apply lookup_ge_None in E. lia.
Qed.

Lemma matchTextAt_loop_true (text : list Z) :
  forall i base,
    0 <= base -> 0 <= i -> base + i + StringView.size text <= n ->
    matchTextAt_loop cells base text i = Some true <->
    forall j cell, (j < length text)%nat ->
      cells !! (Z.to_nat (base + i) + j)%nat = Some cell ->
      beginsWith (drop j text) cell = true.
Proof.
  unfold StringView.size in *.
  induction text as [|x t IH]; intros i base Hbase Hi Hfit.
  - cbn. split; [intros _ j cell Hj; lia|reflexivity].
  - cbn [matchTextAt_loop length] in *. rewrite to_size_t_small by lia.
    destruct (cells !! Z.to_nat (base + i)) as [cell|] eqn:E.
    2:{ apply lookup_ge_None in E. lia. }
    specialize (IH (i + 1) base Hbase ltac:(lia) ltac:(lia)).
    replace (Z.to_nat (base + (i + 1))) with (S (Z.to_nat (base + i))) in IH by lia.
    destruct (beginsWith (x :: t) cell) eqn:Hcell; cbn [negb].
    + rewrite IH. split.
      * intros Hrest [|j] cell' Hj Hcell'.
        -- rewrite Nat.add_0_r, E in Hcell'. injection Hcell' as <-. exact Hcell.
        -- cbn [drop]. apply (Hrest j); [lia|].
           rewrite <- Hcell'. f_equal. lia.
      * intros Hall j cell' Hj Hcell'. apply (Hall (S j)); [lia|].
        rewrite <- Hcell'. f_equal. lia.
    + split; [discriminate|]. intros Hall.
      assert (Htrue : beginsWith (drop 0 (x :: t)) cell = true).
      { apply Hall; [lia|]. rewrite Nat.add_0_r. exact E. }
      cbn [drop] in Htrue. congruence.
Qed.

Lemma matchTextAt_defined (text : list Z) (c : Z) :
  0 <= c <= n -> exists b, matchTextAt l text c = Some b.
Proof.
  intros Hc. unfold matchTextAt. cbn [_storage size]. unfold StringView.size in *.
  rewrite (to_size_t_small c) by lia. rewrite to_size_t_small by lia.
  destruct (Z.gtb_spec (Z.of_nat (length text)) (Z.of_nat (length cells) - c)).
  - eexists. reflexivity.
  - apply matchTextAt_loop_defined; unfold StringView.size; lia.
Qed.

Lemma matchTextAt_true_fits (text : list Z) (c : Z) :
  0 <= c <= n -> matchTextAt l text c = Some true -> c + StringView.size text <= n.
Proof.
  intros Hc. unfold matchTextAt. cbn [_storage size]. unfold StringView.size in *.
  rewrite (to_size_t_small c) by lia. rewrite to_size_t_small by lia.
  destruct (Z.gtb_spec (Z.of_nat (length text)) (Z.of_nat (length cells) - c)).
  - discriminate.
  - intros _. lia.
Qed.

(** X11.  [matchTextAt] on an inflated line: for a start column within the
    line the call is defined, and it succeeds exactly when the text fits
    between the column and the end of the line and every cell from the
    column on begins the rest of the text.  With a start column past the end
    of the line and a text that is not empty, the call reads a cell outside
    the buffer. *)
Theorem matchTextAt_inflated (text : list Z) (c : Z) :
  (0 <= c <= n ->
   (exists b, matchTextAt l text c = Some b)
   /\ (matchTextAt l text c = Some true <->
       c + StringView.size text <= n
       /\ forall j cell, (j < length text)%nat ->
            cells !! (Z.to_nat c + j)%nat = Some cell ->
            beginsWith (drop j text) cell = true))
  /\ (n < c < 2 ^ 31 -> text <> [] -> StringView.size text < 2 ^ 31 ->
      matchTextAt l text c = None).
Proof.
  split.
  - intros Hc. split; [apply matchTextAt_defined; exact Hc|].
    split.
    + intros Hmatch. split; [apply matchTextAt_true_fits; assumption|].
      revert Hmatch. unfold matchTextAt. cbn [_storage size]. unfold StringView.size in *.
      rewrite (to_size_t_small c) by lia. rewrite to_size_t_small by lia.
      destruct (Z.gtb_spec (Z.of_nat (length text)) (Z.of_nat (length cells) - c));
        [discriminate|].
      pose proof (matchTextAt_loop_true text 0 c ltac:(lia) ltac:(lia)
                    ltac:(unfold StringView.size; lia)) as Hiff.
      rewrite Z.add_0_r in Hiff. intros Hloop. apply Hiff. exact Hloop.
    + intros [Hfit Hall]. unfold matchTextAt. cbn [_storage size].
      unfold StringView.size in *.
      rewrite (to_size_t_small c) by lia. rewrite to_size_t_small by lia.
      destruct (Z.gtb_spec (Z.of_nat (length text)) (Z.of_nat (length cells) - c));
        [lia|].
      pose proof (matchTextAt_loop_true text 0 c ltac:(lia) ltac:(lia)
                    ltac:(unfold StringView.size; lia)) as Hiff.
      rewrite Z.add_0_r in Hiff. apply Hiff. exact Hall.
  - intros Hc Htext Hlength. unfold matchTextAt. cbn [_storage size].
    unfold StringView.size in *.
    rewrite (to_size_t_small c) by lia. rewrite to_size_t_negative by lia.
    destruct (Z.gtb_spec (Z.of_nat (length text)) (Z.of_nat (length cells) - c + 2 ^ 64));
      [lia|].
    destruct text as [|x t]; [contradiction|].
    cbn [matchTextAt_loop]. rewrite Z.add_0_r, to_size_t_small by lia.
    destruct (cells !! Z.to_nat c) eqn:E; [|reflexivity].
    apply lookup_lt_Some in E. lia.
Qed.

Lemma search_loop_step_full (fuel : nat) (start : Z) (text : list Z) (base : Z) :
  0 <= base < n ->
  StringView.size text <= n - base ->
  search_loop (S fuel) l start text base =
  match matchTextAt l text base with
  | None => None
  | Some true => Some (Some (mkSearchResult base 0))
  | Some false => search_loop fuel l start text (base + 1)
  end.
Proof.
  intros Hbase Htext. cbn [search_loop]. cbn [size _storage].
  unfold StringView.size in *.
  rewrite (to_size_t_small base) by lia. rewrite to_size_t_small by lia.
  destruct (Z.ltb_spec (Z.of_nat (length cells) - base) (Z.of_nat (length text))); [lia|].
  reflexivity.
Qed.

Lemma search_loop_step_partial (fuel : nat) (start : Z) (text : list Z) (base : Z) :
  0 <= base < n ->
  n - base < StringView.size text <= n ->
  search_loop (S fuel) l start text base =
  match matchTextAt l (take (Z.to_nat (n - base)) text) base with
  | None => None
  | Some true => Some (Some (mkSearchResult start (n - base)))
  | Some false => search_loop fuel l start (take (Z.to_nat (n - base)) text) (base + 1)
  end.
Proof.
  intros Hbase Htext. cbn [search_loop]. cbn [size _storage].
  unfold StringView.remove_suffix, StringView.size in *.
  rewrite (to_size_t_small base) by lia.
  rewrite (to_size_t_small (Z.of_nat (length cells) - base)) by lia.
  rewrite to_size_t_small by lia.
  destruct (Z.ltb_spec (Z.of_nat (length cells) - base) (Z.of_nat (length text))); [|lia].
  destruct (Z.ltb_spec (Z.of_nat (length text) - (Z.of_nat (length cells) - base)) 0);
    [lia|].
  destruct (Z.gtb_spec (Z.of_nat (length text) - (Z.of_nat (length cells) - base))
              (Z.of_nat (length text))); [lia|].
  cbn [orb].
  replace (length text - Z.to_nat (Z.of_nat (length text) - (Z.of_nat (length cells) - base)))%nat
    with (Z.to_nat (Z.of_nat (length cells) - base)) by lia.
  destruct (matchTextAt _ _ _) as [[|]|]; try reflexivity.
  do 3 f_equal. rewrite length_take. lia.
Qed.

Lemma search_loop_partial (start : Z) :
  forall fuel base text,
    fuel = Z.to_nat (n - base) ->
    0 <= base ->
    n - base < StringView.size text <= n ->
    exists r,
      search_loop fuel l start text base = Some r
      /\ match r with
         | Some res =>
             column res = start
             /\ 1 <= partialMatchLength res <= n - base
             /\ matchTextAt l (take (Z.to_nat (partialMatchLength res)) text)
                  (n - partialMatchLength res) = Some true
             /\ forall k, partialMatchLength res < k <= n - base ->
                  matchTextAt l (take (Z.to_nat k) text) (n - k) = Some false
         | None =>
             forall k, 1 <= k <= n - base ->
               matchTextAt l (take (Z.to_nat k) text) (n - k) = Some false
         end.
Proof.
  induction fuel as [|fuel IH]; intros base text Hfuel Hbase Htext.
  - exists None. split; [reflexivity|]. intros k Hk. lia.
  - rewrite search_loop_step_partial by lia.
    destruct (matchTextAt_defined (take (Z.to_nat (n - base)) text) base ltac:(lia))
      as [b Hb].
    rewrite Hb. destruct b.
    + eexists. split; [reflexivity|]. cbn [column partialMatchLength].
      split; [reflexivity|]. split; [lia|]. split.
      * replace (n - (n - base)) with base by lia. exact Hb.
      * intros k Hk. lia.
    + destruct (IH (base + 1) (take (Z.to_nat (n - base)) text)) as (r & Hr & Hspec);
        [lia|lia|unfold StringView.size in *; rewrite length_take; lia|].
      exists r. split; [exact Hr|].
      assert (Hshorter : forall k, 0 <= k <= n - base ->
                take (Z.to_nat k) (take (Z.to_nat (n - base)) text)
                = take (Z.to_nat k) text).
      { intros k Hk. rewrite take_take. f_equal. lia. }
      destruct r as [res|].
      * destruct Hspec as (Hcolumn & Hlength & Hmatch & Hlonger).
        split; [exact Hcolumn|]. split; [lia|]. split.
        -- rewrite Hshorter in Hmatch by lia. exact Hmatch.
        -- intros k Hk. destruct (Z.eq_dec k (n - base)) as [->|Hne].
           ++ replace (n - (n - base)) with base by lia. exact Hb.
           ++ rewrite <- Hshorter by lia. apply Hlonger. lia.
      * intros k Hk. destruct (Z.eq_dec k (n - base)) as [->|Hne].
        -- replace (n - (n - base)) with base by lia. exact Hb.
        -- rewrite <- Hshorter by lia. apply Hspec. lia.
Qed.

Lemma search_loop_full (start : Z) (text : list Z) :
  StringView.size text <= n ->
  forall fuel base,
    fuel = Z.to_nat (n - base) ->
    0 <= base ->
    exists r,
      search_loop fuel l start text base = Some r
      /\ ((exists c,
             r = Some (mkSearchResult c 0)
             /\ base <= c < n
             /\ c + StringView.size text <= n
             /\ matchTextAt l text c = Some true
             /\ forall c', base <= c' < c -> matchTextAt l text c' = Some false)
          \/ ((forall c', base <= c' < n -> c' + StringView.size text <= n ->
                 matchTextAt l text c' = Some false)
              /\ match r with
                 | Some res =>
                     column res = start
                     /\ 1 <= partialMatchLength res
                        <= Z.min (n - base) (StringView.size text - 1)
                     /\ matchTextAt l (take (Z.to_nat (partialMatchLength res)) text)
                          (n - partialMatchLength res) = Some true
                     /\ forall k,
                          partialMatchLength res < k
                          <= Z.min (n - base) (StringView.size text - 1) ->
                          matchTextAt l (take (Z.to_nat k) text) (n - k) = Some false
                 | None =>
                     forall k, 1 <= k <= Z.min (n - base) (StringView.size text - 1) ->
                       matchTextAt l (take (Z.to_nat k) text) (n - k) = Some false
                 end)).
Proof.
  intros Htext. induction fuel as [|fuel IH]; intros base Hfuel Hbase.
  - exists None. split; [reflexivity|]. right. split; intros; lia.
  - destruct (Z_le_gt_dec (base + StringView.size text) n) as [Hfull|Hpartial].
    + rewrite search_loop_step_full by lia.
      destruct (matchTextAt_defined text base ltac:(lia)) as [b Hb].
      rewrite Hb. destruct b.
      * eexists. split; [reflexivity|]. left. exists base.
        split; [reflexivity|]. split; [lia|]. split; [lia|]. split; [exact Hb|].
        intros c' Hc'. lia.
      * destruct (IH (base + 1) ltac:(lia) ltac:(lia)) as (r & Hr & Hspec).
        exists r. split; [exact Hr|].
        destruct Hspec as [(c & -> & Hc & Hfit & Hmatch & Hleft)|[Hnone Hspec]].
        -- left. exists c. split; [reflexivity|]. split; [lia|]. split; [exact Hfit|].
           split; [exact Hmatch|]. intros c' Hc'.
           destruct (Z.eq_dec c' base) as [->|Hne]; [exact Hb|]. apply Hleft. lia.
        -- right. split.
           ++ intros c' Hc' Hfit.
              destruct (Z.eq_dec c' base) as [->|Hne]; [exact Hb|]. apply Hnone; lia.
           ++ replace (Z.min (n - base) (StringView.size text - 1))
                with (Z.min (n - (base + 1)) (StringView.size text - 1)) by lia.
              exact Hspec.
    + destruct (search_loop_partial start (S fuel) base text Hfuel Hbase ltac:(lia))
        as (r & Hr & Hspec).
      exists r. split; [exact Hr|]. right. split; [intros; lia|].
      replace (Z.min (n - base) (StringView.size text - 1)) with (n - base) by lia.
      exact Hspec.
Qed.

Lemma search_inflated (text : list Z) (start : Z) :
  StringView.size text <= n ->
  search l text start = search_loop (Z.to_nat (n - start)) l start text start.
Proof.
  intros Htext. unfold search. cbn [_storage].
  destruct (Z.ltb_spec n (StringView.size text)); [lia|]. reflexivity.
Qed.

(** X12.  [search] on an inflated line, from a start column that is not
    negative: the call is defined, and it reports a full match at column [c]
    exactly when [c] is the left-most column at or after the start column at
    which the text matches. *)
Theorem search_leftmost (text : list Z) (start c : Z) :
  0 <= start ->
  (exists r, search l text start = Some r)
  /\ (search l text start = Some (Some (mkSearchResult c 0)) <->
      start <= c < n
      /\ c + StringView.size text <= n
      /\ matchTextAt l text c = Some true
      /\ forall c', start <= c' < c -> matchTextAt l text c' = Some false).
Proof.
  intros Hstart.
  destruct (Z_lt_le_dec n (StringView.size text)) as [Hlong|Hfits].
  { unfold search. cbn [_storage].
    destruct (Z.ltb_spec n (StringView.size text)); [|lia].
    split; [eexists; reflexivity|]. split; [discriminate|].
    unfold StringView.size in *. lia. }
  rewrite search_inflated by exact Hfits.
  destruct (search_loop_full start text Hfits _ start eq_refl Hstart) as (r & Hr & Hspec).
  rewrite Hr. split; [eexists; reflexivity|].
  destruct Hspec as [(c0 & -> & Hc0 & Hfit & Hmatch & Hleft)|[Hnone Hspec]].
  - split.
    + intros [= <-]. auto.
    + intros (Hc & _ & Hmatch' & Hleft').
      destruct (Z.lt_trichotomy c c0) as [Hlt|[->|Hgt]]; [|reflexivity|].
      * rewrite Hleft in Hmatch' by lia. discriminate.
      * rewrite Hleft' in Hmatch by lia. discriminate.
  - split.
    + intros [= ->]. cbn [column partialMatchLength] in Hspec. lia.
    + intros (Hc & Hfit & Hmatch & _). rewrite Hnone in Hmatch by lia. discriminate.
Qed.

(** X13.  [search] on an inflated line reports a partial match only when the
    text matches at no column at or after the start column; the result then
    carries the start column and the length of the longest proper prefix of
    the text that matches at the right end of the line. *)
Theorem search_partial (text : list Z) (start col k : Z) :
  0 <= start ->
  k <> 0 ->
  search l text start = Some (Some (mkSearchResult col k)) <->
  col = start
  /\ StringView.size text <= n
  /\ (forall c', start <= c' < n -> c' + StringView.size text <= n ->
        matchTextAt l text c' = Some false)
  /\ 1 <= k <= Z.min (n - start) (StringView.size text - 1)
  /\ matchTextAt l (take (Z.to_nat k) text) (n - k) = Some true
  /\ forall k', k < k' <= Z.min (n - start) (StringView.size text - 1) ->
       matchTextAt l (take (Z.to_nat k') text) (n - k') = Some false.
Proof.
  intros Hstart Hk.
  destruct (Z_lt_le_dec n (StringView.size text)) as [Hlong|Hfits].
  { unfold search. cbn [_storage].
    destruct (Z.ltb_spec n (StringView.size text)); [|lia].
    split; [discriminate|]. lia. }
  rewrite search_inflated by exact Hfits.
  destruct (search_loop_full start text Hfits _ start eq_refl Hstart) as (r & Hr & Hspec).
  rewrite Hr.
  destruct Hspec as [(c0 & -> & Hc0 & Hfit & Hmatch & Hleft)|[Hnone Hspec]].
  - split.
    + intros [= <- <-]. contradiction.
    + intros (_ & _ & Hnone & _). rewrite Hnone in Hmatch by lia. discriminate.
  - destruct r as [res|].
    + destruct Hspec as (Hcolumn & Hlength & Hmatch & Hlonger). split.
      * intros [= ->]. cbn [column partialMatchLength] in *. auto 10.
      * intros (-> & _ & _ & Hlength' & Hmatch' & Hlonger').
        destruct res as [col' k']. cbn [column partialMatchLength] in *. subst col'.
        destruct (Z.lt_trichotomy k k') as [Hlt|[->|Hgt]]; [|reflexivity|].
        -- rewrite Hlonger' in Hmatch by lia. discriminate.
        -- rewrite Hlonger in Hmatch' by lia. discriminate.
    + split; [discriminate|].
      intros (_ & _ & _ & Hlength & Hmatch & _). rewrite Hspec in Hmatch by lia.
      discriminate.
Qed.

Lemma searchReverse_loop_spec (text : list Z) :
  forall fuel base,
    fuel = Z.to_nat (base + 1) ->
    base <= n ->
    exists r,
      searchReverse_loop fuel l text base = Some r
      /\ ((exists c,
             r = Some (mkSearchResult c 0)
             /\ 0 <= c <= base
             /\ matchTextAt l text c = Some true
             /\ forall c', c < c' <= base -> matchTextAt l text c' = Some false)
          \/ (r = None
              /\ forall c', 0 <= c' <= base -> matchTextAt l text c' = Some false)).
Proof.
  induction fuel as [|fuel IH]; intros base Hfuel Hbase.
  - exists None. split; [reflexivity|]. right. split; [reflexivity|]. intros; lia.
  - cbn [searchReverse_loop].
    destruct (matchTextAt_defined text base ltac:(lia)) as [b Hb].
    rewrite Hb. destruct b.
    + eexists. split; [reflexivity|]. left. exists base.
      split; [reflexivity|]. split; [lia|]. split; [exact Hb|]. intros; lia.
    + destruct (IH (base - 1) ltac:(lia) ltac:(lia)) as (r & Hr & Hspec).
      exists r. split; [exact Hr|].
      destruct Hspec as [(c & -> & Hc & Hmatch & Hright)|[-> Hnone]].
      * left. exists c. split; [reflexivity|]. split; [lia|]. split; [exact Hmatch|].
        intros c' Hc'. destruct (Z.eq_dec c' base) as [->|Hne]; [exact Hb|].
        apply Hright. lia.
      * right. split; [reflexivity|]. intros c' Hc'.
        destruct (Z.eq_dec c' base) as [->|Hne]; [exact Hb|]. apply Hnone. lia.
Qed.

Lemma searchReverse_partial_spec (start : Z) (text : list Z) :
    exists r,
      searchReverse_partial l start text = Some r
      /\ match r with
         | Some res =>
             column res = start
             /\ 1 <= partialMatchLength res <= StringView.size text
             /\ matchTextAt l
                  (drop (length text - Z.to_nat (partialMatchLength res)) text) 0
                = Some true
             /\ forall k, partialMatchLength res < k <= StringView.size text ->
                  matchTextAt l (drop (length text - Z.to_nat k) text) 0 = Some false
         | None =>
             forall k, 1 <= k <= StringView.size text ->
               matchTextAt l (drop (length text - Z.to_nat k) text) 0 = Some false
         end.
Proof.
  unfold StringView.size in *.
  induction text as [|x t IH].
  - exists None. split; [reflexivity|]. cbn [length]. intros; lia.
  - cbn [searchReverse_partial].
    destruct (matchTextAt_defined (x :: t) 0 ltac:(unfold StringView.size; lia)) as [b Hb].
    rewrite Hb. destruct b.
    + eexists. split; [reflexivity|]. cbn [column partialMatchLength].
      unfold StringView.size.
      split; [reflexivity|]. split; [cbn [length]; lia|]. split.
      * rewrite Nat2Z.id, Nat.sub_diag. exact Hb.
      * intros; lia.
    + destruct IH as (r & Hr & Hspec). exists r. split; [exact Hr|].
      assert (Hdrop : forall k, 1 <= k <= Z.of_nat (length t) ->
                drop (length (x :: t) - Z.to_nat k) (x :: t)
                = drop (length t - Z.to_nat k) t).
      { intros k Hk. cbn [length].
        replace (S (length t) - Z.to_nat k)%nat with (S (length t - Z.to_nat k)) by lia.
        reflexivity. }
      assert (Hwhole : drop (length (x :: t) - Z.to_nat (Z.of_nat (length (x :: t))))
                         (x :: t) = x :: t).
      { rewrite Nat2Z.id, Nat.sub_diag. reflexivity. }
      destruct r as [res|].
      * destruct Hspec as (Hcolumn & Hlength & Hmatch & Hlonger).
        split; [exact Hcolumn|]. split; [cbn [length]; lia|]. split.
        -- rewrite Hdrop by lia. exact Hmatch.
        -- intros k Hk.
           destruct (Z.eq_dec k (Z.of_nat (length (x :: t)))) as [->|Hne].
           ++ rewrite Hwhole. exact Hb.
           ++ cbn [length] in Hk, Hne. rewrite Hdrop by lia. apply Hlonger. lia.
      * intros k Hk.
        destruct (Z.eq_dec k (Z.of_nat (length (x :: t)))) as [->|Hne].
        -- rewrite Hwhole. exact Hb.
        -- cbn [length] in Hk, Hne. rewrite Hdrop by lia. apply Hspec. lia.
Qed.

Lemma searchReverse_inflated (text : list Z) (start : Z) :
  StringView.size text <= n ->
  searchReverse l text start =
  match searchReverse_loop (Z.to_nat (Z.min start (n - StringView.size text) + 1)) l text
          (Z.min start (n - StringView.size text)) with
  | Some None => searchReverse_partial l start text
  | r => r
  end.
Proof.
  intros Htext. unfold searchReverse. cbn [_storage].
  destruct (Z.ltb_spec n (StringView.size text)); [lia|]. reflexivity.
Qed.

(** X14.  [searchReverse] on an inflated line: the call is defined, and it
    reports a full match at column [c] exactly when [c] is the right-most
    column at or before the start column at which the text matches. *)
Theorem searchReverse_rightmost (text : list Z) (start c : Z) :
  (exists r, searchReverse l text start = Some r)
  /\ (searchReverse l text start = Some (Some (mkSearchResult c 0)) <->
      0 <= c <= start
      /\ c + StringView.size text <= n
      /\ matchTextAt l text c = Some true
      /\ forall c', c < c' <= start -> c' + StringView.size text <= n ->
           matchTextAt l text c' = Some false).
Proof.
  destruct (Z_lt_le_dec n (StringView.size text)) as [Hlong|Hfits].
  { unfold searchReverse. cbn [_storage].
    destruct (Z.ltb_spec n (StringView.size text)); [|lia].
    split; [eexists; reflexivity|]. split; [discriminate|]. lia. }
  rewrite searchReverse_inflated by exact Hfits.
  destruct (searchReverse_loop_spec text _ (Z.min start (n - StringView.size text))
              eq_refl ltac:(unfold StringView.size in *; lia)) as (r & Hr & Hspec).
  rewrite Hr.
  destruct Hspec as [(c0 & -> & Hc0 & Hmatch & Hright)|[-> Hnone]].
  - split; [eexists; reflexivity|]. split.
    + intros [= <-]. split; [lia|]. split; [lia|]. split; [exact Hmatch|].
      intros c' Hc' Hfit. apply Hright. lia.
    + intros (Hc & Hfit & Hmatch' & Hright').
      destruct (Z.lt_trichotomy c c0) as [Hlt|[->|Hgt]]; [|reflexivity|].
      * rewrite Hright' in Hmatch by lia. discriminate.
      * rewrite Hright in Hmatch' by lia. discriminate.
  - destruct (searchReverse_partial_spec start text) as (r & Hr' & Hspec).
    rewrite Hr'. split; [eexists; reflexivity|]. split.
    + intros [= ->]. cbn [column partialMatchLength] in Hspec. lia.
    + intros (Hc & Hfit & Hmatch & _). rewrite Hnone in Hmatch by lia. discriminate.
Qed.

(** X15.  [searchReverse] on an inflated line reports a partial match only
    when the text matches at no column at or before the start column; the
    result then carries the start column and the length of the longest
    suffix of the text that matches at the left end of the line. *)
Theorem searchReverse_partial_match (text : list Z) (start col k : Z) :
  k <> 0 ->
  searchReverse l text start = Some (Some (mkSearchResult col k)) <->
  col = start
  /\ StringView.size text <= n
  /\ (forall c', 0 <= c' <= start -> c' + StringView.size text <= n ->
        matchTextAt l text c' = Some false)
  /\ 1 <= k <= StringView.size text
  /\ matchTextAt l (drop (length text - Z.to_nat k) text) 0 = Some true
  /\ forall k', k < k' <= StringView.size text ->
       matchTextAt l (drop (length text - Z.to_nat k') text) 0 = Some false.
Proof.
  intros Hk.
  destruct (Z_lt_le_dec n (StringView.size text)) as [Hlong|Hfits].
  { unfold searchReverse. cbn [_storage].
    destruct (Z.ltb_spec n (StringView.size text)); [|lia].
    split; [discriminate|]. lia. }
  rewrite searchReverse_inflated by exact Hfits.
  destruct (searchReverse_loop_spec text _ (Z.min start (n - StringView.size text))
              eq_refl ltac:(unfold StringView.size in *; lia)) as (r & Hr & Hspec).
  rewrite Hr.
  destruct Hspec as [(c0 & -> & Hc0 & Hmatch & Hright)|[-> Hnone]].
  - split.
    + intros [= <- <-]. contradiction.
    + intros (_ & _ & Hnone & _). rewrite Hnone in Hmatch by lia. discriminate.
  - destruct (searchReverse_partial_spec start text) as (r & Hr' & Hspec).
    rewrite Hr'. destruct r as [res|].
    + destruct Hspec as (Hcolumn & Hlength & Hmatch & Hlonger). split.
      * intros [= ->]. cbn [column partialMatchLength] in *.
        split; [exact Hcolumn|]. split; [exact Hfits|]. split; [|auto].
        intros c' Hc' Hfit. apply Hnone. lia.
      * intros (-> & _ & _ & Hlength' & Hmatch' & Hlonger').
        destruct res as [col' k']. cbn [column partialMatchLength] in *. subst col'.
        destruct (Z.lt_trichotomy k k') as [Hlt|[->|Hgt]]; [|reflexivity|].
        -- rewrite Hlonger' in Hmatch by lia. discriminate.
        -- rewrite Hlonger in Hmatch' by lia. discriminate.
    + split; [discriminate|].
      intros (_ & _ & _ & Hlength & Hmatch & _). rewrite Hspec in Hmatch by lia.
      discriminate.
Qed.

End Inflated.

Local Abbreviation columns_of width content :=
  (snd (inflatedBuffer (trivialLine width content))).

Local Abbreviation hello := [chr "h"; chr "e"; chr "l"; chr "l"; chr "o"].

Ltac columns_size content k :=
  change (StringView.size (columns_of k content)) with k in *;
  unfold StringView.size in *; cbn [length] in *.

(** Within [hello] on eight columns, matching at column 2 is defined. *)
Lemma matchTextAt_inflated_witness :
  exists b,
    matchTextAt (mkLine (Inflated (columns_of 8 hello)) 0) [chr "l"; chr "l"] 2 = Some b.
Proof.
  apply (proj1 (matchTextAt_inflated (columns_of 8 hello) 0
                  ltac:(vm_compute; reflexivity) [chr "l"; chr "l"] 2)).
  vm_compute. split; discriminate.
Defined.

(** The left-most [ll] of [hello] is at column 2. *)
Lemma search_leftmost_witness :
  search (mkLine (Inflated (columns_of 8 hello)) 0) [chr "l"; chr "l"] 0
  = Some (Some (mkSearchResult 2 0)).
Proof.
  apply (proj2 (search_leftmost (columns_of 8 hello) 0
                  ltac:(vm_compute; reflexivity) [chr "l"; chr "l"] 0 2 ltac:(lia))).
  split; [vm_compute; split; [discriminate|reflexivity]|].
  split; [vm_compute; discriminate|].
  split; [vm_compute; reflexivity|].
  intros c' Hc'. assert (c' = 0 \/ c' = 1) as [->| ->] by lia; vm_compute; reflexivity.
Defined.

(** A line that ends in [he] matches the first two code points of [hello]
    at its right end. *)
Lemma search_partial_witness :
  search (mkLine (Inflated (columns_of 5 [chr "a"; chr "b"; chr "c"; chr "h"; chr "e"])) 0)
    hello 0
  = Some (Some (mkSearchResult 0 2)).
Proof.
  apply (search_partial (columns_of 5 [chr "a"; chr "b"; chr "c"; chr "h"; chr "e"]) 0
           ltac:(vm_compute; reflexivity) hello 0 0 2 ltac:(lia) ltac:(lia)).
  split; [reflexivity|].
  split; [vm_compute; discriminate|].
  split.
  { intros c' Hc' Hfit.
    columns_size [chr "a"; chr "b"; chr "c"; chr "h"; chr "e"] 5.
    assert (c' = 0) as -> by lia. vm_compute. reflexivity. }
  split; [vm_compute; split; discriminate|].
  split; [vm_compute; reflexivity|].
  intros k' Hk'. columns_size [chr "a"; chr "b"; chr "c"; chr "h"; chr "e"] 5.
  assert (k' = 3 \/ k' = 4) as [->| ->] by lia; vm_compute; reflexivity.
Defined.

(** The right-most [l] of [hello] is at column 3. *)
Lemma searchReverse_rightmost_witness :
  searchReverse (mkLine (Inflated (columns_of 8 hello)) 0) [chr "l"] 7
  = Some (Some (mkSearchResult 3 0)).
Proof.
  apply (proj2 (searchReverse_rightmost (columns_of 8 hello) 0
                  ltac:(vm_compute; reflexivity) [chr "l"] 7 3)).
  split; [lia|].
  split; [vm_compute; discriminate|].
  split; [vm_compute; reflexivity|].
  intros c' Hc' Hfit.
  assert (c' = 4 \/ c' = 5 \/ c' = 6 \/ c' = 7) as [->|[->|[->| ->]]] by lia;
    vm_compute; reflexivity.
Defined.

(** A line that begins with [llo] matches the last three code points of
    [hello] at its left end. *)
Lemma searchReverse_partial_match_witness :
  searchReverse
    (mkLine (Inflated (columns_of 5 [chr "l"; chr "l"; chr "o"; chr "a"; chr "b"])) 0)
    hello 4
  = Some (Some (mkSearchResult 4 3)).
Proof.
  apply (searchReverse_partial_match
           (columns_of 5 [chr "l"; chr "l"; chr "o"; chr "a"; chr "b"]) 0
           ltac:(vm_compute; reflexivity) hello 4 4 3 ltac:(lia)).
  split; [reflexivity|].
  split; [vm_compute; discriminate|].
  split.
  { intros c' Hc' Hfit.
    columns_size [chr "l"; chr "l"; chr "o"; chr "a"; chr "b"] 5.
    assert (c' = 0) as -> by lia. vm_compute. reflexivity. }
  split; [vm_compute; split; discriminate|].
  split; [vm_compute; reflexivity|].
  intros k' Hk'. columns_size [chr "l"; chr "l"; chr "o"; chr "a"; chr "b"] 5.
  assert (k' = 4 \/ k' = 5) as [->| ->] by lia; vm_compute; reflexivity.
Defined.

End LineSearchTheory.

Module LineTrivialTheory.

Import Cell Line LineContentTheory.

Lemma find_from_spec (needle : list Z) (s : list Z) :
  forall i : nat,
    match StringView.find_from needle s i with
    | Some j =>
        (i <= j)%nat
        /\ (j - i <= length s)%nat
        /\ StringView.starts_with needle (drop (j - i) s) = true
        /\ forall k, (k < j - i)%nat -> StringView.starts_with needle (drop k s) = false
    | None =>
        forall k, (k <= length s)%nat -> StringView.starts_with needle (drop k s) = false
    end.
Proof.
  induction s as [|x s IH]; intros i; cbn [StringView.find_from].
  - destruct (StringView.starts_with needle []) eqn:E.
    + rewrite Nat.sub_diag. cbn [length drop].
      split; [lia|]. split; [lia|]. split; [exact E|]. intros k Hk. lia.
    + intros k Hk. cbn [length] in Hk. assert (k = 0)%nat as -> by lia. exact E.
  - destruct (StringView.starts_with needle (x :: s)) eqn:E.
    + rewrite Nat.sub_diag. cbn [drop].
      split; [lia|]. split; [lia|]. split; [exact E|]. intros k Hk. lia.
    + specialize (IH (S i)).
      destruct (StringView.find_from needle s (S i)) as [j|].
      * destruct IH as (Hle & Hlen & Hmatch & Hfirst).
        replace (j - i)%nat with (S (j - S i)) by lia. cbn [length drop].
        split; [lia|]. split; [lia|]. split; [exact Hmatch|].
        intros [|k] Hk; [exact E|]. cbn [drop]. apply Hfirst. lia.
      * intros [|k] Hk; [exact E|]. cbn [drop]. apply IH. cbn [length] in Hk. lia.
Qed.

Lemma rfind_from_spec (s needle : list Z) :
  forall i : nat,
    match StringView.rfind_from s needle i with
    | Some j =>
        (j <= i)%nat
        /\ StringView.starts_with needle (drop j s) = true
        /\ forall k, (j < k <= i)%nat -> StringView.starts_with needle (drop k s) = false
    | None =>
        forall k, (k <= i)%nat -> StringView.starts_with needle (drop k s) = false
    end.
Proof.
  induction i as [|i IH]; cbn [StringView.rfind_from].
  - destruct (StringView.starts_with needle (drop 0 s)) eqn:E.
    + split; [lia|]. split; [exact E|]. intros k Hk. lia.
    + intros k Hk. assert (k = 0)%nat as -> by lia. exact E.
  - destruct (StringView.starts_with needle (drop (S i) s)) eqn:E.
    + split; [lia|]. split; [exact E|]. intros k Hk. lia.
    + destruct (StringView.rfind_from s needle i) as [j|].
      * destruct IH as (Hle & Hmatch & Hlast).
        split; [lia|]. split; [exact Hmatch|]. intros k Hk.
        destruct (Nat.eq_dec k (S i)) as [->|Hne]; [exact E|]. apply Hlast. lia.
      * intros k Hk. destruct (Nat.eq_dec k (S i)) as [->|Hne]; [exact E|].
        apply IH. lia.
Qed.

Section WithCell.

Context {C : Type} `{CellConcept C}.

Variable buffer : TrivialLineBuffer.
Variable f : Z.
Hypothesis Hused : 0 <= usedColumns buffer < 2 ^ 31.
Hypothesis Hbytes : StringView.size (Line.text buffer) < 2 ^ 31.

Local Abbreviation l := (mkLine (Cell:=C) (Trivial buffer) f).

(** X16.  [matchTextAt] on a trivial line with used columns: when the start
    column, clamped to the last used column, lies within the packed text the
    call is defined, and it answers true exactly when that column is 0 and
    the packed text begins with the UTF-8 form of the text; so it never
    answers true at a start column of 1 or more on a line that uses two
    columns or more.  When the clamped column lies past the packed text,
    [substr] throws. *)
Theorem matchTextAt_trivial (text : list Z) (startColumn : Z) :
  0 <= startColumn < 2 ^ 31 ->
  usedColumns buffer <> 0 ->
  StringView.size text < 2 ^ 31 ->
  let column := Z.min startColumn (usedColumns buffer - 1) in
  (column <= StringView.size (Line.text buffer) ->
   matchTextAt l text startColumn
   = Some ((column =? 0)
           && StringView.starts_with (Unicode.convert_to_char text) (Line.text buffer)))
  /\ (StringView.size (Line.text buffer) < column ->
      matchTextAt l text startColumn = None).
Proof.
  intros Hstart Hne Htext column. subst column.
  unfold matchTextAt. cbn [_storage].
  destruct (Z.eqb_spec (usedColumns buffer) 0); [contradiction|].
  set (column := Z.min startColumn (usedColumns buffer - 1)).
  assert (Hcolumn : 0 <= column < 2 ^ 31) by (subst column; lia).
  rewrite (to_size_t_negative (column - usedColumns buffer)) by (subst column; lia).
  unfold StringView.size in *.
  destruct (Z.gtb_spec (Z.of_nat (length text)) (column - usedColumns buffer + 2 ^ 64));
    [lia|].
  rewrite (to_size_t_small column) by lia.
  unfold StringView.substr, StringView.size. split.
  - intros Hfits.
    destruct (Z.gtb_spec column (Z.of_nat (length (Line.text buffer)))); [lia|].
    f_equal. unfold StringView.find, StringView.size. rewrite length_drop.
    destruct (Z.eqb_spec column 0) as [E|Hpos]; cbn [andb].
    + rewrite E. change (Z.to_nat 0) with 0%nat. rewrite !drop_0.
      destruct (Z.gtb_spec 0 (Z.of_nat (length (Line.text buffer) - 0))); [lia|].
      pose proof (find_from_spec (Unicode.convert_to_char text) (Line.text buffer) 0) as P.
      destruct (StringView.find_from _ (Line.text buffer) 0) as [j|].
      * destruct P as (_ & _ & Hmatch & Hfirst). rewrite Nat.sub_0_r in *.
        destruct j as [|j].
        -- rewrite drop_0 in Hmatch. rewrite Hmatch. reflexivity.
        -- pose proof (Hfirst 0%nat ltac:(lia)) as Hzero. rewrite drop_0 in Hzero.
           rewrite Hzero. apply Z.eqb_neq. lia.
      * pose proof (P 0%nat ltac:(lia)) as Hzero. rewrite drop_0 in Hzero.
        rewrite Hzero. reflexivity.
    + destruct (Z.gtb_spec column
                  (Z.of_nat (length (Line.text buffer) - Z.to_nat column)));
        [reflexivity|].
      pose proof (find_from_spec (Unicode.convert_to_char text)
                    (drop (Z.to_nat column) (drop (Z.to_nat column) (Line.text buffer)))
                    (Z.to_nat column)) as P.
      destruct (StringView.find_from _ _ (Z.to_nat column)) as [j|].
      * destruct P as (Hle & _). apply Z.eqb_neq. lia.
      * reflexivity.
  - intros Hpast.
    destruct (Z.gtb_spec column (Z.of_nat (length (Line.text buffer)))); [reflexivity|lia].
Qed.

(** X17.  [search] on a trivial line whose used columns and packed text
    stay below 2^31, for a start column that is an [int].  The call is
    defined and looks for the UTF-8 form of the text in the packed text,
    from the start column clamped to the last used column: it reports the
    left-most position at or after that column, always as a full match.  It
    reports nothing on a line without used columns, and nothing for a
    negative start column, whatever the packed text holds. *)
Theorem search_trivial (text : list Z) (startColumn c k : Z) :
  - 2 ^ 31 <= startColumn < 2 ^ 31 ->
  let column := Z.min startColumn (usedColumns buffer - 1) in
  let needle := Unicode.convert_to_char text in
  (exists r, search l text startColumn = Some r)
  /\ (search l text startColumn = Some (Some (mkSearchResult c k)) <->
      usedColumns buffer <> 0
      /\ k = 0
      /\ 0 <= startColumn
      /\ column <= c <= StringView.size (Line.text buffer)
      /\ StringView.starts_with needle (drop (Z.to_nat c) (Line.text buffer)) = true
      /\ forall j, column <= j < c ->
           StringView.starts_with needle (drop (Z.to_nat j) (Line.text buffer)) = false).
Proof.
  intros Hstart column needle. unfold search. cbn [_storage].
  destruct (Z.eqb_spec (usedColumns buffer) 0) as [E|Hne].
  { split; [eexists; reflexivity|]. split; [discriminate|]. tauto. }
  fold column. fold needle.
  destruct (Z_lt_le_dec startColumn 0) as [Hneg|Hpos].
  { assert (Ecolumn : column = startColumn) by (subst column; lia).
    rewrite (to_size_t_negative column) by lia.
    unfold StringView.find, StringView.size in *.
    destruct (Z.gtb_spec (column + 2 ^ 64) (Z.of_nat (length (Line.text buffer))));
      [|lia].
    rewrite Z.eqb_refl. cbn [negb]. split; [eexists; reflexivity|].
    split; [discriminate|]. intros (_ & _ & Hnonneg & _). lia. }
  assert (Hcolumn : 0 <= column < 2 ^ 31) by (subst column; lia).
  rewrite (to_size_t_small column) by lia.
  unfold StringView.find, StringView.size in *.
  destruct (Z.gtb_spec column (Z.of_nat (length (Line.text buffer)))) as [Hpast|Hfits].
  { rewrite Z.eqb_refl. cbn [negb]. split; [eexists; reflexivity|].
    split; [discriminate|]. intros (_ & _ & _ & Hc & _). lia. }
  pose proof (find_from_spec needle (drop (Z.to_nat column) (Line.text buffer))
                (Z.to_nat column)) as P.
  rewrite length_drop in P.
  assert (Hdrop : forall j : nat,
            drop j (drop (Z.to_nat column) (Line.text buffer))
            = drop (Z.to_nat column + j) (Line.text buffer))
    by (intros j; apply drop_drop).
  destruct (StringView.find_from needle _ (Z.to_nat column)) as [j|].
  - destruct P as (Hle & Hlen & Hmatch & Hfirst).
    assert (Hj : Z.of_nat j <> npos) by (unfold npos; lia).
    apply Z.eqb_neq in Hj. rewrite Hj. cbn [negb].
    split; [eexists; reflexivity|].
    rewrite Hdrop in Hmatch.
    replace (Z.to_nat column + (j - Z.to_nat column))%nat with j in Hmatch by lia.
    split.
    + intros [= <- <-]. split; [exact Hne|]. split; [reflexivity|].
      split; [exact Hpos|]. split; [lia|].
      rewrite Nat2Z.id. split; [exact Hmatch|].
      intros i Hi. specialize (Hfirst (Z.to_nat i - Z.to_nat column)%nat ltac:(lia)).
      rewrite Hdrop in Hfirst.
      replace (Z.to_nat column + (Z.to_nat i - Z.to_nat column))%nat with (Z.to_nat i)
        in Hfirst by lia.
      exact Hfirst.
    + intros (_ & -> & _ & Hc & Hmatch' & Hfirst').
      destruct (Z.lt_trichotomy c (Z.of_nat j)) as [Hlt|[->|Hgt]]; [|reflexivity|].
      * specialize (Hfirst (Z.to_nat c - Z.to_nat column)%nat ltac:(lia)).
        rewrite Hdrop in Hfirst.
        replace (Z.to_nat column + (Z.to_nat c - Z.to_nat column))%nat with (Z.to_nat c)
          in Hfirst by lia.
        congruence.
      * specialize (Hfirst' (Z.of_nat j) ltac:(lia)). rewrite Nat2Z.id in Hfirst'.
        congruence.
  - rewrite Z.eqb_refl. cbn [negb]. split; [eexists; reflexivity|].
    split; [discriminate|]. intros (_ & _ & _ & Hc & Hmatch & _).
    specialize (P (Z.to_nat c - Z.to_nat column)%nat ltac:(lia)).
    rewrite Hdrop in P.
    replace (Z.to_nat column + (Z.to_nat c - Z.to_nat column))%nat with (Z.to_nat c)
      in P by lia.
    congruence.
Qed.

(** X18.  [searchReverse] on a trivial line whose used columns and packed
    text stay below 2^31, for a start column that is an [int].  The call is
    defined and looks for the UTF-8 form of the text in the packed text: it
    reports the right-most position up to a limit, always as a full match,
    and nothing on a line without used columns.  For a start column that is
    not negative the limit is that column clamped to the last used column;
    for a negative start column the conversion to [size_t] wraps and the
    limit is the end of the packed text, so the right-most occurrence
    anywhere is reported although it lies after the start column. *)
Theorem searchReverse_trivial (text : list Z) (startColumn c k : Z) :
  - 2 ^ 31 <= startColumn < 2 ^ 31 ->
  let column := Z.min startColumn (usedColumns buffer - 1) in
  let limit := if startColumn <? 0 then StringView.size (Line.text buffer) else column in
  let needle := Unicode.convert_to_char text in
  (exists r, searchReverse l text startColumn = Some r)
  /\ (searchReverse l text startColumn = Some (Some (mkSearchResult c k)) <->
      usedColumns buffer <> 0
      /\ k = 0
      /\ 0 <= c <= limit
      /\ c + StringView.size needle <= StringView.size (Line.text buffer)
      /\ StringView.starts_with needle (drop (Z.to_nat c) (Line.text buffer)) = true
      /\ forall j, c < j <= limit ->
           j + StringView.size needle <= StringView.size (Line.text buffer) ->
           StringView.starts_with needle (drop (Z.to_nat j) (Line.text buffer)) = false).
Proof.
  intros Hstart column limit needle. unfold searchReverse. cbn [_storage].
  destruct (Z.eqb_spec (usedColumns buffer) 0) as [E|Hne].
  { split; [eexists; reflexivity|]. split; [discriminate|]. tauto. }
  fold column. fold needle.
  unfold StringView.rfind, StringView.size in *.
  assert (Hlimit : 0 <= limit < 2 ^ 31).
  { subst limit column. destruct (Z.ltb_spec startColumn 0); lia. }
  assert (Htop : Z.min (Z.of_nat (length (Line.text buffer)) - Z.of_nat (length needle))
                   (to_size_t column)
                 = Z.min (Z.of_nat (length (Line.text buffer)) - Z.of_nat (length needle))
                     limit).
  { subst limit. destruct (Z.ltb_spec startColumn 0) as [Hneg|Hpos].
    - assert (Ecolumn : column = startColumn) by (subst column; lia).
      rewrite (to_size_t_negative column) by lia. lia.
    - rewrite (to_size_t_small column) by (subst column; lia). reflexivity. }
  rewrite Htop. clearbody limit.
  destruct (Z.gtb_spec (Z.of_nat (length needle)) (Z.of_nat (length (Line.text buffer))))
    as [Hlong|Hfits].
  { rewrite Z.eqb_refl. cbn [negb]. split; [eexists; reflexivity|].
    split; [discriminate|]. intros (_ & _ & Hc & Hfit & _). lia. }
  set (top := Z.to_nat (Z.min (Z.of_nat (length (Line.text buffer))
                               - Z.of_nat (length needle)) limit)).
  pose proof (rfind_from_spec (Line.text buffer) needle top) as P.
  destruct (StringView.rfind_from (Line.text buffer) needle top) as [j|].
  - destruct P as (Hle & Hmatch & Hlast).
    assert (Hj : Z.of_nat j <> npos) by (unfold npos; subst top; lia).
    apply Z.eqb_neq in Hj. rewrite Hj. cbn [negb].
    split; [eexists; reflexivity|]. split.
    + intros [= <- <-]. split; [exact Hne|]. split; [reflexivity|].
      split; [subst top; lia|]. split; [subst top; lia|].
      rewrite Nat2Z.id. split; [exact Hmatch|].
      intros i Hi Hfit. apply Hlast. subst top. lia.
    + intros (_ & -> & Hc & Hfit & Hmatch' & Hlast').
      destruct (Z.lt_trichotomy c (Z.of_nat j)) as [Hlt|[->|Hgt]]; [|reflexivity|].
      * specialize (Hlast' (Z.of_nat j) ltac:(subst top; lia) ltac:(subst top; lia)).
        rewrite Nat2Z.id in Hlast'. congruence.
      * specialize (Hlast (Z.to_nat c) ltac:(subst top; lia)). congruence.
  - rewrite Z.eqb_refl. cbn [negb]. split; [eexists; reflexivity|].
    split; [discriminate|]. intros (_ & _ & Hc & Hfit & Hmatch & _).
    specialize (P (Z.to_nat c) ltac:(subst top; lia)). congruence.
Qed.

End WithCell.

Local Abbreviation hello := [chr "h"; chr "e"; chr "l"; chr "l"; chr "o"].

Local Abbreviation hello_buffer :=
  (mkTrivialLineBuffer 8 GraphicsAttributes_default GraphicsAttributes_default 0
     (StringView.size hello) hello).

(** On the trivial line [hello] the text [ll] is not matched at column 2. *)
Lemma matchTextAt_trivial_witness :
  matchTextAt (trivialLine 8 hello) [chr "l"; chr "l"] 2 = Some false.
Proof.
  apply (proj1 (matchTextAt_trivial (C:=CompactCell) hello_buffer 0
                  ltac:(vm_compute; split; [discriminate|reflexivity])
                  [chr "l"; chr "l"] 2
                  ltac:(lia) ltac:(vm_compute; discriminate)
                  ltac:(vm_compute; reflexivity))).
  vm_compute. discriminate.
Defined.

(** The left-most [ll] in the packed text [hello] is at position 2. *)
Lemma search_trivial_witness :
  search (trivialLine 8 hello) [chr "l"; chr "l"] 0 = Some (Some (mkSearchResult 2 0)).
Proof.
  apply (proj2 (search_trivial (C:=CompactCell) hello_buffer 0
                  ltac:(vm_compute; split; [discriminate|reflexivity])
                  ltac:(vm_compute; reflexivity)
                  [chr "l"; chr "l"] 0 2 0 ltac:(lia))).
  split; [vm_compute; discriminate|].
  split; [reflexivity|].
  split; [lia|].
  split; [vm_compute; split; discriminate|].
  split; [vm_compute; reflexivity|].
  intros j Hj. change (Z.min 0 (usedColumns hello_buffer - 1)) with 0 in Hj.
  assert (j = 0 \/ j = 1) as [->| ->] by lia; vm_compute; reflexivity.
Defined.

(** The right-most [l] in the packed text [hello] is at position 3. *)
Lemma searchReverse_trivial_witness :
  searchReverse (trivialLine 8 hello) [chr "l"] 7 = Some (Some (mkSearchResult 3 0)).
Proof.
  apply (proj2 (searchReverse_trivial (C:=CompactCell) hello_buffer 0
                  ltac:(vm_compute; split; [discriminate|reflexivity])
                  ltac:(vm_compute; reflexivity)
                  [chr "l"] 7 3 0 ltac:(lia))).
  split; [vm_compute; discriminate|].
  split; [reflexivity|].
  split; [vm_compute; split; discriminate|].
  split; [vm_compute; discriminate|].
  split; [vm_compute; reflexivity|].
  intros j Hj _.
  change (if 7 <? 0 then StringView.size (text hello_buffer)
          else Z.min 7 (usedColumns hello_buffer - 1)) with 4 in Hj.
  assert (j = 4) as -> by lia. vm_compute. reflexivity.
Defined.

(** From the start column -1 the forward search finds nothing in [hello],
    and the reverse search reports the right-most [l], at position 3. *)
Example search_negative_start :
  search (trivialLine 8 hello) [chr "l"] (-1) = Some None
  /\ searchReverse (trivialLine 8 hello) [chr "l"] (-1)
     = Some (Some (mkSearchResult 3 0)).
Proof. split; vm_compute; reflexivity. Qed.

End LineTrivialTheory.

(* ====================================================================== *)
(** * Properties of cell flags, the colour palette, points and ranges *)
(* ====================================================================== *)

Module CellFlagsTheory.

Import CellFlags.

Lemma land_pow2 (a i : Z) :
  0 <= i -> Z.land a (2 ^ i) = if Z.testbit a i then 2 ^ i else 0.
Proof.
  intros Hi. apply Z.bits_inj'. intros n Hn.
  rewrite Z.land_spec, Z.pow2_bits_eqb by lia.
  destruct (Z.eqb_spec i n) as [<-|Hne].
  - destruct (Z.testbit a i) eqn:E.
    + rewrite Z.pow2_bits_true by lia. reflexivity.
    + rewrite Z.bits_0. reflexivity.
  - rewrite andb_false_r. destruct (Z.testbit a i).
    + rewrite Z.pow2_bits_false by lia. reflexivity.
    + rewrite Z.bits_0. reflexivity.
Qed.

Lemma land_lor_absorb (a b : Z) : Z.land (Z.lor a b) a = a.
Proof.
  apply Z.bits_inj'. intros n Hn. rewrite Z.land_spec, Z.lor_spec.
  destruct (Z.testbit a n), (Z.testbit b n); reflexivity.
Qed.

Lemma invert_lxor (a : Z) : 0 <= a < 2 ^ 32 -> invert a = Z.lxor a (2 ^ 32 - 1).
Proof.
  intros Ha. unfold invert, to_uint32.
  change (2 ^ 32 - 1) with (Z.ones 32).
  rewrite <- Z.land_ones by lia.
  apply Z.bits_inj'. intros n Hn.
  rewrite Z.land_spec, Z.lnot_spec, Z.lxor_spec by lia.
  destruct (Z.ltb_spec n 32).
  - rewrite Z.ones_spec_low by lia. destruct (Z.testbit a n); reflexivity.
  - rewrite Z.ones_spec_high by lia.
    destruct (Z.testbit a n) eqn:E; [|reflexivity].
    apply LineFlagsTheory.testbit_below_32 in E; lia.
Qed.

(** X22.  Cell flag sets under [contains_all] form a partial order in which
    [operator|] is the least upper bound; [operator~] yields a set that
    shares no flag with its operand; [operator&] is implied by
    [contains_all] for a test set that is not empty and coincides with it
    for a single flag; and [operator!] holds of a union exactly when it
    holds of both parts. *)
Theorem flag_set_algebra (a b c : Z) :
  0 <= a < 2 ^ 32 ->
  contains_all a a = true
  /\ (contains_all a b = true -> contains_all b c = true -> contains_all a c = true)
  /\ (contains_all a b = true -> contains_all b a = true -> a = b)
  /\ contains_all (merge a b) a = true
  /\ contains_all (merge a b) b = true
  /\ (contains_all c a = true -> contains_all c b = true ->
      contains_all c (merge a b) = true)
  /\ intersects a (invert a) = false
  /\ 0 <= invert a < 2 ^ 32
  /\ (contains_all a b = true -> b <> 0 -> intersects a b = true)
  /\ (forall i, 0 <= i -> intersects a (Z.shiftl 1 i) = contains_all a (Z.shiftl 1 i))
  /\ is_none (merge a b) = is_none a && is_none b.
Proof.
  intros Ha. unfold contains_all, merge, intersects, is_none.
  split; [rewrite Z.land_diag; apply Z.eqb_refl|].
  split.
  { rewrite !Z.eqb_eq. intros Hab Hbc.
    rewrite <- Hbc at 1. rewrite Z.land_assoc, Hab. exact Hbc. }
  split.
  { rewrite !Z.eqb_eq. intros Hab Hba. rewrite <- Hba, Z.land_comm. exact Hab. }
  split.
  { rewrite Z.eqb_eq. apply land_lor_absorb. }
  split.
  { rewrite Z.eqb_eq, Z.lor_comm. apply land_lor_absorb. }
  split.
  { rewrite !Z.eqb_eq. intros Hca Hcb. rewrite Z.land_lor_distr_r, Hca, Hcb. reflexivity. }
  split.
  { rewrite invert_lxor by exact Ha. rewrite Z.land_comm.
    rewrite LineFlagsTheory.land_complement_self by lia. reflexivity. }
  split.
  { unfold invert, to_uint32. apply Z.mod_pos_bound. lia. }
  split.
  { rewrite Z.eqb_eq. intros -> Hb. apply negb_true_iff, Z.eqb_neq. exact Hb. }
  split.
  { intros i Hi. rewrite Z.shiftl_1_l, land_pow2 by exact Hi.
    assert (0 < 2 ^ i) by (apply Z.pow_pos_nonneg; lia).
    destruct (Z.testbit a i).
    - rewrite Z.eqb_refl. destruct (Z.eqb_spec (2 ^ i) 0); [lia|reflexivity].
    - destruct (Z.eqb_spec 0 (2 ^ i)); [lia|reflexivity]. }
  destruct (Z.eqb_spec (Z.lor a b) 0) as [E|Hne].
  - apply Z.lor_eq_0_iff in E. destruct E as [-> ->]. reflexivity.
  - destruct (Z.eqb_spec a 0) as [->|]; [|reflexivity].
    destruct (Z.eqb_spec b 0) as [->|]; [|reflexivity].
    contradiction.
Qed.

(** Bold and italic text contains bold. *)
Lemma flag_set_algebra_witness : contains_all (merge Bold Italic) Bold = true.
Proof.
  apply (proj1 (proj2 (proj2 (proj2 (flag_set_algebra Bold Italic CellFlags_None
                                       ltac:(vm_compute; split; [discriminate|reflexivity])))))).
Defined.

End CellFlagsTheory.

Module ColorPaletteTheory.

Import ColorPalette.

(** X23.  With a palette of [256 + 8] entries every accessor whose assertion
    holds yields a colour: the normal colours are the indexed colours 0 to
    7, the bright colours are the indexed colours 8 to 15, and the dim
    colours are the eight entries behind the 256 indexed ones, which no
    indexed colour reaches. *)
Theorem palette_accessors {RGBColor : Type} (c : ColorPalette RGBColor) (index : Z) :
  StringView.size (palette _ c) = Palette_size ->
  (0 <= index < 8 ->
   is_Some (normalColor _ c index)
   /\ normalColor _ c index = indexedColor _ c index
   /\ is_Some (brightColor _ c index)
   /\ brightColor _ c index = indexedColor _ c (index + 8)
   /\ is_Some (dimColor _ c index)
   /\ dimColor _ c index = palette _ c !! Z.to_nat (256 + index))
  /\ (0 <= index < 256 ->
      is_Some (indexedColor _ c index)
      /\ indexedColor _ c index = palette _ c !! Z.to_nat index)
  /\ (8 <= index -> normalColor _ c index = None
                    /\ brightColor _ c index = None
                    /\ dimColor _ c index = None)
  /\ (256 <= index -> indexedColor _ c index = None).
Proof.
  unfold StringView.size, Palette_size. intros Hsize.
  assert (Hat : forall i, 0 <= i < 264 ->
            at_ _ (palette _ c) i = palette _ c !! Z.to_nat i
            /\ is_Some (palette _ c !! Z.to_nat i)).
  { intros i Hi. unfold at_, StringView.size. rewrite Hsize.
    destruct (Z.leb_spec 0 i); [|lia]. destruct (Z.ltb_spec i (256 + 8)); [|lia].
    split; [reflexivity|]. apply lookup_lt_is_Some. lia. }
  unfold normalColor, brightColor, dimColor, indexedColor.
  split; [|split; [|split]].
  - intros Hindex.
    destruct (Z.ltb_spec index 8); [|lia]. destruct (Z.ltb_spec index 256); [|lia].
    destruct (Z.ltb_spec (index + 8) 256); [|lia].
    destruct (Hat index ltac:(lia)) as [-> Hsome].
    destruct (Hat (index + 8) ltac:(lia)) as [-> Hsome'].
    destruct (Hat (256 + index) ltac:(lia)) as [_ Hsome''].
    auto 10.
  - intros Hindex. destruct (Z.ltb_spec index 256); [|lia].
    destruct (Hat index ltac:(lia)) as [-> Hsome]. auto.
  - intros Hindex. destruct (Z.ltb_spec index 8); [lia|]. auto.
  - intros Hindex. destruct (Z.ltb_spec index 256); [lia|]. reflexivity.
Qed.

(** In a palette whose entries are their own indices, bright colour 3 is
    entry 11. *)
Lemma palette_accessors_witness :
  brightColor Z (mkColorPalette Z false (map Z.of_nat (seq 0 264))) 3
  = indexedColor Z (mkColorPalette Z false (map Z.of_nat (seq 0 264))) (3 + 8).
Proof.
  apply (proj1 (palette_accessors (mkColorPalette Z false (map Z.of_nat (seq 0 264))) 3
                  ltac:(vm_compute; reflexivity))).
  lia.
Defined.

End ColorPaletteTheory.

Module PointTheory.

Import Point.

(** X24.  Points whose coordinates lie in the lower half of the [int] range
    are ordered row by row: every comparison is defined, [operator<] is the
    lexicographic order on ([y], [x]), [compare] is 0 exactly for points
    that [operator==] calls equal, swapping the operands negates [compare],
    and [operator<=], [operator>] and [operator>=] follow from [operator<]
    and [operator==]. *)
Theorem point_order (a b : Point) :
  - 2 ^ 30 <= x a < 2 ^ 30 -> - 2 ^ 30 <= y a < 2 ^ 30 ->
  - 2 ^ 30 <= x b < 2 ^ 30 -> - 2 ^ 30 <= y b < 2 ^ 30 ->
  exists c c',
    compare a b = Some c
    /\ compare b a = Some c'
    /\ c' = - c
    /\ (c = 0 <-> a = b)
    /\ eq a b = (c =? 0)
    /\ (c < 0 <-> y a < y b \/ (y a = y b /\ x a < x b))
    /\ lt a b = Some (c <? 0)
    /\ le a b = Some ((c <? 0) || eq a b)
    /\ gt a b = lt b a
    /\ ge a b = le b a.
Proof.
  intros Hxa Hya Hxb Hyb. unfold lt, le, gt, ge, eq, compare, int_result, is_int.
  destruct a as [xa ya], b as [xb yb]. cbn [x y] in *.
  repeat match goal with
         | |- context [?u <=? ?v] => destruct (Z.leb_spec u v); try lia
         | |- context [?u <? ?v] => destruct (Z.ltb_spec u v); try lia
         end; cbn [andb].
  all: destruct (Z.eqb_spec (ya - yb) 0); destruct (Z.eqb_spec (yb - ya) 0); try lia;
    cbn [negb].
  all: eexists; eexists; split; [reflexivity|]; split; [reflexivity|].
  all: split; [lia|].
  all: split; [split; [intros; f_equal; lia|intros [= -> ->]; lia]|].
  all: destruct (Z.eqb_spec xa xb); destruct (Z.eqb_spec ya yb); cbn [andb];
    rewrite ?Z.gtb_ltb, ?Z.geb_leb;
    repeat match goal with
           | |- context [?u =? ?v] => destruct (Z.eqb_spec u v); try lia
           | |- context [?u <=? ?v] => destruct (Z.leb_spec u v); try lia
           | |- context [?u <? ?v] => destruct (Z.ltb_spec u v); try lia
           end; cbn [orb]; repeat split; try reflexivity; try lia.
Qed.

(** The point (5, 1) comes before (2, 3): the row decides. *)
Lemma point_order_witness :
  exists c c',
    compare (mkPoint 5 1) (mkPoint 2 3) = Some c
    /\ compare (mkPoint 2 3) (mkPoint 5 1) = Some c'
    /\ c' = - c
    /\ (c = 0 <-> mkPoint 5 1 = mkPoint 2 3)
    /\ eq (mkPoint 5 1) (mkPoint 2 3) = (c =? 0)
    /\ (c < 0 <-> 1 < 3 \/ (1 = 3 /\ 5 < 2))
    /\ lt (mkPoint 5 1) (mkPoint 2 3) = Some (c <? 0)
    /\ le (mkPoint 5 1) (mkPoint 2 3) = Some ((c <? 0) || eq (mkPoint 5 1) (mkPoint 2 3))
    /\ gt (mkPoint 5 1) (mkPoint 2 3) = lt (mkPoint 2 3) (mkPoint 5 1)
    /\ ge (mkPoint 5 1) (mkPoint 2 3) = le (mkPoint 2 3) (mkPoint 5 1).
Proof.
  apply (point_order (mkPoint 5 1) (mkPoint 2 3)); cbn; lia.
Defined.

End PointTheory.

Module ConfigTheory.

Import Config.

(** X25.  [sanitizeRange] with bounds in order: the value it leaves behind
    lies within the bounds, is the bound nearest to the old value when that
    was outside and the old value when it was inside, the result tells
    which, and a second call changes nothing and returns [true]. *)
Theorem sanitizeRange_spec (_value _min _max : Z) :
  _min <= _max ->
  exists inside value',
    sanitizeRange _value _min _max = Some (inside, value')
    /\ _min <= value' <= _max
    /\ (inside = true <-> _min <= _value <= _max)
    /\ (inside = true -> value' = _value)
    /\ (_value < _min -> value' = _min)
    /\ (_max < _value -> value' = _max)
    /\ sanitizeRange value' _min _max = Some (true, value').
Proof.
  intros Horder. unfold sanitizeRange, clamp.
  destruct (Z.leb_spec _min _value); destruct (Z.leb_spec _value _max); cbn [andb].
  - exists true, _value. split; [reflexivity|].
    destruct (Z.leb_spec _min _value); [|lia]. destruct (Z.leb_spec _value _max); [|lia].
    cbn [andb]. repeat split; try lia; reflexivity.
  - destruct (Z.ltb_spec _max _min); [lia|].
    destruct (Z.ltb_spec _value _min); [lia|]. destruct (Z.ltb_spec _max _value); [|lia].
    exists false, _max. split; [reflexivity|].
    destruct (Z.leb_spec _min _max); [|lia]. destruct (Z.leb_spec _max _max); [|lia].
    cbn [andb]. repeat split; try lia; try reflexivity; intros; try discriminate; lia.
  - destruct (Z.ltb_spec _max _min); [lia|].
    destruct (Z.ltb_spec _value _min); [|lia].
    exists false, _min. split; [reflexivity|].
    destruct (Z.leb_spec _min _min); [|lia]. destruct (Z.leb_spec _min _max); [|lia].
    cbn [andb]. repeat split; try lia; try reflexivity; intros; try discriminate; lia.
  - lia.
Qed.

(** A value of 300 in a range from 0 to 255 becomes 255. *)
Lemma sanitizeRange_spec_witness :
  exists inside value',
    sanitizeRange 300 0 255 = Some (inside, value')
    /\ 0 <= value' <= 255
    /\ (inside = true <-> 0 <= 300 <= 255)
    /\ (inside = true -> value' = 300)
    /\ (300 < 0 -> value' = 0)
    /\ (255 < 300 -> value' = 255)
    /\ sanitizeRange value' 0 255 = Some (true, value').
Proof. apply (sanitizeRange_spec 300 0 255). lia. Defined.

End ConfigTheory.

(* ====================================================================== *)
(** * Further properties of cells and of the Sequencer *)
(* ====================================================================== *)

Module CellTextTheory.

Import Cell CellTheory.

Lemma encode_length (cp : Z) : (1 <= length (Unicode.encode cp) <= 4)%nat.
Proof.
  unfold Unicode.encode.
  destruct (cp <=? 0x7F); [cbn; lia|].
  destruct (cp <=? 0x7FF); [cbn; lia|].
  destruct (cp <=? 0xFFFF); cbn; lia.
Qed.

Lemma convert_to_char_length (text : list Z) :
  (length text <= length (Unicode.convert_to_char text) <= 4 * length text)%nat.
Proof.
  unfold Unicode.convert_to_char. induction text as [|cp text IH]; [cbn; lia|].
  cbn [map concat length]. rewrite length_app.
  pose proof (encode_length cp). lia.
Qed.

(** X19.  The two renderings of a cell agree:  [toUtf8] is the UTF-8
    encoding of [codepoints], both are empty exactly when the primary code
    point is 0, and the text takes between one and four bytes per code
    point. *)
Theorem codepoints_toUtf8_agree (c : CompactCell) :
  CompactCell_toUtf8 c = Unicode.convert_to_char (CompactCell_codepoints c)
  /\ (CompactCell_codepoints c = [] <-> _codepoint c = 0)
  /\ (CompactCell_toUtf8 c = [] <-> _codepoint c = 0)
  /\ (length (CompactCell_codepoints c) <= length (CompactCell_toUtf8 c)
      <= 4 * length (CompactCell_codepoints c))%nat.
Proof.
  assert (Hagree := toUtf8_encodes_codepoints c).
  split; [exact Hagree|].
  assert (Hcodepoints : CompactCell_codepoints c = [] <-> _codepoint c = 0).
  { split.
    - intros E. destruct (Z.eq_dec (_codepoint c) 0) as [|Hcp]; [assumption|].
      rewrite codepoints_nonzero in E by exact Hcp. discriminate E.
    - intros E. unfold CompactCell_codepoints. rewrite E. reflexivity. }
  split; [exact Hcodepoints|].
  pose proof (convert_to_char_length (CompactCell_codepoints c)) as Hlength.
  rewrite <- Hagree in Hlength.
  split; [|exact Hlength].
  rewrite <- Hcodepoints. split.
  - intros E. rewrite E in Hlength. cbn [length] in Hlength.
    destruct (CompactCell_codepoints c); [reflexivity|cbn [length] in Hlength; lia].
  - intros E. rewrite Hagree, E. reflexivity.
Qed.

End CellTextTheory.

Module SequencerHookTheory.

Import Functions Sequencer.

Section WithCollaborators.

Context {Cell Screen Hooked : Type} `{Collaborators Cell Screen Hooked}.

Lemma put_run_hooked (bytes : list Z) :
  forall (sq : Sequencer Screen Hooked) (p : Hooked),
    _hookedParser sq = Some p ->
    fold_left put bytes sq
    = mkSequencer (_terminal sq) (_sequence sq) (Some (fold_left pass bytes p)).
Proof.
  induction bytes as [|ch bytes IH]; intros sq p Hp.
  - cbn [fold_left]. destruct sq as [t s h]. cbn in Hp. subst h. reflexivity.
  - cbn [fold_left]. unfold put at 2. rewrite Hp.
    rewrite (IH _ (pass p ch)) by reflexivity. reflexivity.
Qed.

Lemma put_run_unhooked (bytes : list Z) (sq : Sequencer Screen Hooked) :
  _hookedParser sq = None -> fold_left put bytes sq = sq.
Proof.
  intros Hp. induction bytes as [|ch bytes IH]; [reflexivity|].
  cbn [fold_left]. unfold put at 2. rewrite Hp. exact IH.
Qed.

(** X20.  The bytes put between [hook] and [unhook] reach the hooked parser
    in order, and [unhook] finalizes it on the current screen and drops it;
    afterwards, and whenever no parser is hooked, [put] and [unhook] do
    nothing.  Neither the collected sequence nor the instruction counter
    changes on the way. *)
Theorem put_unhook (sq : Sequencer Screen Hooked) (bytes : list Z) (ch : Z) :
  let sq' := unhook (fold_left put bytes sq) in
  _hookedParser sq' = None
  /\ put sq' ch = sq'
  /\ unhook sq' = sq'
  /\ _sequence sq' = _sequence sq
  /\ instructionCounter (_terminal sq') = instructionCounter (_terminal sq)
  /\ match _hookedParser sq with
     | Some p =>
         _terminal sq'
         = setCurrentScreen (_terminal sq)
             (finalize (fold_left pass bytes p) (currentScreen (_terminal sq)))
     | None => sq' = sq
     end.
Proof.
  intros sq'. subst sq'.
  destruct (_hookedParser sq) as [p|] eqn:Hp.
  - rewrite (put_run_hooked bytes sq p Hp). unfold unhook, put.
    cbn [_hookedParser _terminal _sequence].
    rewrite SequencerTheory.instructionCounter_setCurrentScreen.
    repeat (split; [reflexivity|]). reflexivity.
  - rewrite (put_run_unhooked bytes sq Hp).
    assert (Hunhook : unhook sq = sq) by (unfold unhook; rewrite Hp; reflexivity).
    assert (Hput : put sq ch = sq) by (unfold put; rewrite Hp; reflexivity).
    rewrite !Hunhook, Hput.
    repeat (split; [first [reflexivity|exact Hp]|]). reflexivity.
Qed.

End WithCollaborators.

End SequencerHookTheory.

(* ====================================================================== *)
(** * Properties of the parser table's ranges *)
(* ====================================================================== *)

Module ParserTableDotTheory.

Import Parser ParserTableDot.

Lemma fold_left_step {A B : Type} (f : A -> B -> A) (x : B) (l : list B) (a : A) :
  fold_left f (x :: l) a = fold_left f l (f a x).
Proof. reflexivity. Qed.

Lemma add_byte_elements (ranges : list Range) (ch : Z) (r : Range) :
  0 <= ch < 256 ->
  In r (add_byte ranges ch) ->
  (exists r', In r' ranges /\ first r = first r' /\ (last r = last r' \/ last r = ch))
  \/ r = mkRange ch ch.
Proof.
  intros Hch. induction ranges as [|back [|r2 rest] IH]; cbn [add_byte].
  - intros [<-|[]]. right. reflexivity.
  - destruct (Z.eqb_spec ch (last back + 1)) as [E|_].
    + intros [<-|[]]. left. exists back. cbn [first last].
      split; [left; reflexivity|]. split; [reflexivity|]. right.
      rewrite <- E. apply Z.mod_small. lia.
    + intros [<-|[<-|[]]].
      * left. exists back. split; [left; reflexivity|]. auto.
      * right. reflexivity.
  - intros [<-|Hin].
    + left. exists back. split; [left; reflexivity|]. auto.
    + destruct (IH Hin) as [(r' & Hr' & E)|E].
      * left. exists r'. split; [right; exact Hr'|exact E].
      * right. exact E.
Qed.

Lemma add_byte_covers (ranges : list Range) (k ch : Z) :
  0 <= k < 256 ->
  Forall (fun r => first r <= last r < k) ranges ->
  (exists r, In r (add_byte ranges k) /\ first r <= ch <= last r) <->
  (exists r, In r ranges /\ first r <= ch <= last r) \/ ch = k.
Proof.
  intros Hk. induction ranges as [|back [|r2 rest] IH]; intros Hwf; cbn [add_byte].
  - split.
    + intros (r & [<-|[]] & Hr). cbn [first last] in Hr. right. lia.
    + intros [(r & [] & _)| ->]. exists (mkRange k k). cbn. split; [auto|lia].
  - apply Forall_cons in Hwf. destruct Hwf as [Hback _].
    destruct (Z.eqb_spec k (last back + 1)) as [E|Hne].
    + rewrite <- E, Z.mod_small by lia. split.
      * intros (r & [<-|[]] & Hr). cbn [first last] in Hr.
        destruct (Z.eq_dec ch k); [right; assumption|].
        left. exists back. split; [left; reflexivity|lia].
      * intros [(r & [<-|[]] & Hr)| ->];
          exists (mkRange (first back) k); cbn [first last In]; split; auto; lia.
    + split.
      * intros (r & [<-|[<-|[]]] & Hr).
        -- left. exists back. split; [left; reflexivity|exact Hr].
        -- cbn [first last] in Hr. right. lia.
      * intros [(r & [<-|[]] & Hr)| ->].
        -- exists back. split; [left; reflexivity|exact Hr].
        -- exists (mkRange k k). cbn [first last In]. split; [auto|lia].
  - apply Forall_cons in Hwf. destruct Hwf as [Hhead Hrest].
    specialize (IH Hrest). split.
    + intros (r0 & [<-|Hin] & Hr0).
      * left. exists back. split; [left; reflexivity|exact Hr0].
      * destruct (proj1 IH (ex_intro _ r0 (conj Hin Hr0))) as [(r' & Hr' & Hc)|E].
        -- left. exists r'. split; [right; exact Hr'|exact Hc].
        -- right. exact E.
    + intros [(r0 & [<-|Hin] & Hr0)|E].
      * exists back. split; [left; reflexivity|exact Hr0].
      * destruct (proj2 IH (or_introl (ex_intro _ r0 (conj Hin Hr0)))) as (r' & Hr' & Hc).
        exists r'. split; [right; exact Hr'|exact Hc].
      * destruct (proj2 IH (or_intror E)) as (r' & Hr' & Hc).
        exists r'. split; [right; exact Hr'|exact Hc].
Qed.

Lemma add_byte_bounds (ranges : list Range) (k : Z) :
  0 <= k < 256 ->
  Forall (fun r => 0 <= first r /\ first r <= last r < k) ranges ->
  Forall (fun r => 0 <= first r /\ first r <= last r < k + 1) (add_byte ranges k).
Proof.
  intros Hk Hwf. apply Forall_forall. intros r Hin.
  apply list_elem_of_In in Hin.
  destruct (add_byte_elements ranges k r Hk Hin) as [(r' & Hr' & Hfirst & Hlast)| ->].
  - rewrite Forall_forall in Hwf. apply list_elem_of_In in Hr'.
    specialize (Hwf r' Hr'). lia.
  - cbn. lia.
Qed.

Lemma add_byte_separated (ranges : list Range) (k : Z) :
  0 <= k < 256 ->
  Forall (fun r => 0 <= first r /\ first r <= last r < k) ranges ->
  StronglySorted (fun r1 r2 => last r1 + 1 < first r2) ranges ->
  StronglySorted (fun r1 r2 => last r1 + 1 < first r2) (add_byte ranges k).
Proof.
  intros Hk. induction ranges as [|back [|r2 rest] IH]; intros Hwf Hsorted;
    cbn [add_byte].
  - repeat constructor.
  - apply Forall_cons in Hwf. destruct Hwf as [Hback _].
    destruct (Z.eqb_spec k (last back + 1)) as [E|Hne].
    + repeat constructor.
    + constructor; [repeat constructor|].
      constructor; [|constructor]. cbn [first last]. lia.
  - apply Forall_cons in Hwf. destruct Hwf as [Hhead Hrest].
    apply StronglySorted_inv in Hsorted. destruct Hsorted as [Hsorted Hall].
    constructor; [apply IH; assumption|].
    apply List.Forall_forall. intros r' Hin.
    destruct (add_byte_elements (r2 :: rest) k r' Hk Hin)
      as [(r'' & Hr'' & Hfirst & _)| ->].
    + rewrite List.Forall_forall in Hall. specialize (Hall r'' Hr''). lia.
    + rewrite List.Forall_forall in Hall. specialize (Hall r2 ltac:(left; reflexivity)).
      apply Forall_cons in Hrest. destruct Hrest as [Hr2 _]. cbn [first last]. lia.
Qed.

Section WithTable.

Variable table : ParserTable.

Lemma visit_other_source (sourceState : State) (m : Transitions) (i : nat)
  (t : Transition) :
  fst t <> sourceState -> visit table sourceState m i t = m t.
Proof.
  intros Hne. unfold visit.
  destruct (decide (transitions table sourceState (Z.of_nat i) = Undefined));
    [reflexivity|].
  unfold update. destruct (decide (t = _)) as [->|]; [|reflexivity].
  cbn in Hne. contradiction.
Qed.

Lemma row_other_source (sourceState : State) (bytes : list nat) :
  forall (m : Transitions) (t : Transition),
    fst t <> sourceState ->
    fold_left (visit table sourceState) bytes m t = m t.
Proof.
  induction bytes as [|i bytes IH]; intros m t Hne; [reflexivity|].
  cbn [fold_left]. rewrite IH by exact Hne. apply visit_other_source. exact Hne.
Qed.

Lemma rows_other_source (sources : list State) :
  forall (m : Transitions) (t : Transition),
    ~ In (fst t) sources ->
    fold_left (fun m sourceState => row table sourceState m) sources m t = m t.
Proof.
  induction sources as [|s sources IH]; intros m t Hnot; [reflexivity|].
  rewrite (fold_left_step (fun m sourceState => row table sourceState m)).
  rewrite IH by (intros Hin; apply Hnot; right; exact Hin).
  apply row_other_source. intros E. apply Hnot. left. symmetry. exact E.
Qed.

Lemma visit_undefined (sourceState source : State) (m : Transitions) (i : nat) :
  visit table sourceState m i (source, Undefined) = m (source, Undefined).
Proof.
  unfold visit.
  destruct (decide (transitions table sourceState (Z.of_nat i) = Undefined)) as [|Hne];
    [reflexivity|].
  unfold update. destruct (decide (_ = _)) as [E|]; [|reflexivity].
  injection E as _ E. symmetry in E. contradiction.
Qed.

Lemma row_undefined (s source : State) (m : Transitions) :
  m (source, Undefined) = [] -> row table s m (source, Undefined) = [].
Proof.
  unfold row. generalize (seq 0 256). intros bytes. revert m.
  induction bytes as [|i bytes IH]; intros m Hm; [exact Hm|].
  rewrite (fold_left_step (visit table s)). apply IH. rewrite visit_undefined. exact Hm.
Qed.

(** What the rounds for the bytes below [k] of one row have collected for
    one target state. *)
Lemma row_prefix (sourceState targetState : State) (m : Transitions) :
  targetState <> Undefined ->
  m (sourceState, targetState) = [] ->
  forall k : nat,
    (k <= 256)%nat ->
    let ranges := fold_left (visit table sourceState) (seq 0 k) m (sourceState, targetState) in
    Forall (fun r => 0 <= first r /\ first r <= last r < Z.of_nat k) ranges
    /\ StronglySorted (fun r1 r2 => last r1 + 1 < first r2) ranges
    /\ forall ch, 0 <= ch < Z.of_nat k ->
         transitions table sourceState ch = targetState <->
         exists r, In r ranges /\ first r <= ch <= last r.
Proof.
  intros Htarget Hempty. induction k as [|k IH]; intros Hk ranges; subst ranges.
  - cbn [seq fold_left]. rewrite Hempty.
    split; [constructor|]. split; [constructor|]. intros ch Hch. lia.
  - rewrite seq_S, fold_left_app. cbn [fold_left Nat.add].
    destruct (IH ltac:(lia)) as (Hbounds & Hsorted & Hcover).
    set (m' := fold_left (visit table sourceState) (seq 0 k) m) in *.
    unfold visit.
    destruct (decide (transitions table sourceState (Z.of_nat k) = Undefined)) as [Hu|Hd].
    { split; [|split].
      - eapply Forall_impl; [exact Hbounds|]. cbn. intros r Hr. lia.
      - exact Hsorted.
      - intros ch Hch. destruct (Z.eq_dec ch (Z.of_nat k)) as [->|Hne].
        + split; [intros E; congruence|].
          intros (r & Hin & Hr). rewrite Forall_forall in Hbounds.
          apply list_elem_of_In in Hin. specialize (Hbounds r Hin). lia.
        + apply Hcover. lia. }
    rewrite (Z.mod_small (Z.of_nat k)) by lia.
    unfold update.
    destruct (decide (targetState = transitions table sourceState (Z.of_nat k)))
      as [E|Hne].
    + rewrite <- E. rewrite decide_True by reflexivity.
      split; [|split].
      * replace (Z.of_nat (S k)) with (Z.of_nat k + 1) by lia.
        apply add_byte_bounds; [lia|exact Hbounds].
      * apply add_byte_separated; [lia|exact Hbounds|exact Hsorted].
      * intros ch Hch. rewrite add_byte_covers; [|lia|].
        2:{ eapply Forall_impl; [exact Hbounds|]. cbn. intros r Hr. lia. }
        destruct (Z.eq_dec ch (Z.of_nat k)) as [->|Hne].
        -- split; [intros _; right; reflexivity|intros _; symmetry; exact E].
        -- rewrite Hcover by lia. split; [intros Hr; left; exact Hr|].
           intros [Hr|Hk']; [exact Hr|contradiction].
    + rewrite decide_False by congruence.
      split; [|split].
      * eapply Forall_impl; [exact Hbounds|]. cbn. intros r Hr. lia.
      * exact Hsorted.
      * intros ch Hch. destruct (Z.eq_dec ch (Z.of_nat k)) as [->|Hne'].
        -- split; [intros E; exfalso; apply Hne; rewrite E; reflexivity|].
           intros (r & Hin & Hr). rewrite Forall_forall in Hbounds.
           apply list_elem_of_In in Hin. specialize (Hbounds r Hin). lia.
        -- apply Hcover. lia.
Qed.

Lemma row_prefix_all (sourceState targetState : State) (m : Transitions) :
  targetState <> Undefined ->
  m (sourceState, targetState) = [] ->
  let ranges := row table sourceState m (sourceState, targetState) in
  Forall (fun r => 0 <= first r /\ first r <= last r < 256) ranges
  /\ StronglySorted (fun r1 r2 => last r1 + 1 < first r2) ranges
  /\ forall ch, 0 <= ch < 256 ->
       transitions table sourceState ch = targetState <->
       exists r, In r ranges /\ first r <= ch <= last r.
Proof.
  intros Htarget Hempty.
  exact (row_prefix sourceState targetState m Htarget Hempty 256%nat (Nat.le_refl _)).
Qed.

Lemma states_complete (s : State) : In s states.
Proof. destruct s; cbn; auto 20. Qed.

Lemma states_NoDup : List.NoDup states.
Proof.
  apply NoDup_ListNoDup.
  apply (bool_decide_unpack (NoDup states)). vm_compute. reflexivity.
Qed.

(** X21.  The ranges [parserTableDot] prints for a transition are exactly
    the bytes that take it: a byte leads from the source state to the target
    state if and only if one of the ranges of that transition contains it;
    the ranges are ascending, lie within the byte range and are maximal, no
    two of them touching; and no transition to [Undefined] is recorded. *)
Theorem transition_ranges (sourceState targetState : State) :
  parserTableDot_transitions table (sourceState, Undefined) = []
  /\ (targetState <> Undefined ->
      let ranges := parserTableDot_transitions table (sourceState, targetState) in
      Forall (fun r => 0 <= first r /\ first r <= last r < 256) ranges
      /\ StronglySorted (fun r1 r2 => last r1 + 1 < first r2) ranges
      /\ forall ch, 0 <= ch < 256 ->
           transitions table sourceState ch = targetState <->
           exists r, In r ranges /\ first r <= ch <= last r).
Proof.
  split.
  - unfold parserTableDot_transitions. generalize states. intros sources.
    assert (Hrows : forall m,
              m (sourceState, Undefined) = [] ->
              fold_left (fun m s => row table s m) sources m (sourceState, Undefined) = []).
    { induction sources as [|s sources IH]; intros m Hm; [exact Hm|].
      rewrite (fold_left_step (fun m s => row table s m)).
      apply IH. apply row_undefined. exact Hm. }
    apply Hrows. reflexivity.
  - intros Htarget ranges. subst ranges. unfold parserTableDot_transitions.
    destruct (in_split _ _ (states_complete sourceState)) as (before & after & Hsplit).
    pose proof states_NoDup as Hnodup. rewrite Hsplit in *.
    apply NoDup_remove_2 in Hnodup.
    rewrite fold_left_app.
    rewrite (fold_left_step (fun m s => row table s m)).
    rewrite rows_other_source
      by (cbn [fst]; intros Hin; apply Hnodup; apply in_or_app; right; exact Hin).
    apply (row_prefix_all sourceState targetState _ Htarget).
    rewrite rows_other_source
      by (cbn [fst]; intros Hin; apply Hnodup; apply in_or_app; left; exact Hin).
    reflexivity.
Qed.

End WithTable.

End ParserTableDotTheory.

(* ====================================================================== *)
(** * Properties of the log store *)
(* ====================================================================== *)

Module LogstoreTheory.

Import Logstore.

Section WithFormatter.

Context {Formatter : Type}.

Variable call_formatter : Formatter -> MessageBuilder Formatter -> list Z.

(** X26.  Without a formatter, the message of a builder is its text closed
    by one line feed: it is empty exactly when the text is, otherwise it
    ends in a line feed and is the text itself or the text with a line feed
    added, and building a message from a message changes nothing.  A sink
    passes the message to its writer exactly when the sink and the category
    are both enabled; an empty message is passed on as well. *)
Theorem message_line (mb : MessageBuilder Formatter) (s : Sink) :
  _formatter _ (_category _ mb) = None ->
  (message _ call_formatter mb = [] <-> _buffer _ mb = [])
  /\ (_buffer _ mb <> [] -> last (message _ call_formatter mb) = Some newline)
  /\ (message _ call_formatter mb = _buffer _ mb
      \/ message _ call_formatter mb = _buffer _ mb ++ [newline])
  /\ message _ call_formatter
       (mkMessageBuilder _ (_category _ mb) (_location _ mb) (message _ call_formatter mb))
     = message _ call_formatter mb
  /\ (_enabled s = true -> is_enabled _ (_category _ mb) = true ->
      _written (write _ call_formatter s mb)
      = _written s ++ [message _ call_formatter mb])
  /\ (_enabled s = false \/ is_enabled _ (_category _ mb) = false ->
      write _ call_formatter s mb = s).
Proof.
  intros Hformatter.
  assert (Hmessage : forall c l b,
            _formatter _ c = None ->
            message _ call_formatter (mkMessageBuilder _ c l b)
            = if bool_decide (b = []) then []
              else if bool_decide (last b = Some newline) then b else b ++ [newline]).
  { intros c l b Hc. unfold message. cbn [_category _buffer]. rewrite Hc.
    destruct (bool_decide (b = [])); cbn [negb andb]; [reflexivity|].
    destruct (bool_decide (last b = Some newline)); reflexivity. }
  destruct mb as [c l b]. cbn [_category _location _buffer] in *.
  rewrite !Hmessage by exact Hformatter.
  destruct (decide (b = [])) as [->|Hne].
  - rewrite !bool_decide_eq_true_2 by reflexivity.
    split; [tauto|]. split; [intros Hb; contradiction|]. split; [left; reflexivity|].
    split; [reflexivity|].
    unfold write. cbn [_category]. rewrite Hmessage by exact Hformatter.
    rewrite bool_decide_eq_true_2 by reflexivity.
    split.
    + intros -> ->. reflexivity.
    + intros [->| ->]; [reflexivity|]. rewrite andb_false_r. reflexivity.
  - rewrite (bool_decide_eq_false_2 (b = [])) by exact Hne.
    assert (Hwrite :
              (_enabled s = true -> is_enabled _ c = true ->
               _written (write _ call_formatter s (mkMessageBuilder _ c l b))
               = _written s
                 ++ [if bool_decide (last b = Some newline) then b else b ++ [newline]])
              /\ (_enabled s = false \/ is_enabled _ c = false ->
                  write _ call_formatter s (mkMessageBuilder _ c l b) = s)).
    { unfold write. cbn [_category]. rewrite Hmessage by exact Hformatter.
      rewrite (bool_decide_eq_false_2 (b = [])) by exact Hne. split.
      - intros -> ->. reflexivity.
      - intros [->| ->]; [reflexivity|]. rewrite andb_false_r. reflexivity. }
    destruct (decide (last b = Some newline)) as [Hlast|Hlast].
    + rewrite !(bool_decide_eq_true_2 (last b = Some newline)) in * by exact Hlast.
      rewrite (bool_decide_eq_false_2 (b = [])) by exact Hne.
      split; [tauto|]. split; [intros _; exact Hlast|]. split; [left; reflexivity|].
      split; [reflexivity|]. exact Hwrite.
    + rewrite !(bool_decide_eq_false_2 (last b = Some newline)) in * by exact Hlast.
      assert (Hne' : b ++ [newline] <> []) by (destruct b; discriminate).
      rewrite (bool_decide_eq_false_2 (b ++ [newline] = [])) by exact Hne'.
      rewrite (bool_decide_eq_true_2 (last (b ++ [newline]) = Some newline))
        by apply last_snoc.
      split; [tauto|]. split; [intros _; apply last_snoc|]. split; [right; reflexivity|].
      split; [reflexivity|]. exact Hwrite.
Qed.

Lemma get_None (name : list Z) (r : Registry Formatter) :
  get _ name r = None <-> ~ In name (map (fun x => _name _ (snd x)) r).
Proof.
  induction r as [|cat r IH]; cbn [get map In]; [tauto|].
  destruct (decide (_name _ (snd cat) = name)) as [E|Hne].
  - rewrite bool_decide_eq_true_2 by exact E. split; [discriminate|]. tauto.
  - rewrite bool_decide_eq_false_2 by exact Hne. rewrite IH. tauto.
Qed.

Lemma get_app (name : list Z) (r r' : Registry Formatter) :
  get _ name (r ++ r')
  = match get _ name r with
    | Some cat => Some cat
    | None => get _ name r'
    end.
Proof.
  induction r as [|cat r IH]; [reflexivity|]. cbn [get app].
  destruct (bool_decide (_name _ (snd cat) = name)); [reflexivity|exact IH].
Qed.

Lemma construct_Some (console this : Z) (name desc : list Z) (state : State)
  (visibility : Visibility) (r : Registry Formatter) :
  construct _ console this name desc state visibility r
  = match get _ name r with
    | None => Some (r ++ [(this, mkCategory _ name desc state visibility None console)])
    | Some _ => None
    end.
Proof.
  unfold construct.
  assert (E : forallb (fun x => negb (bool_decide (_name _ (snd x) = name))) r
              = match get _ name r with None => true | Some _ => false end).
  { induction r as [|cat r IH]; [reflexivity|]. cbn [forallb get].
    destruct (bool_decide (_name _ (snd cat) = name)); [reflexivity|]. exact IH. }
  rewrite E. destruct (get _ name r); reflexivity.
Qed.

Lemma destroy_app_new (this : Z) (cat : Category Formatter) (r : Registry Formatter) :
  ~ In this (map fst r) -> destroy _ this (r ++ [(this, cat)]) = r.
Proof.
  induction r as [|i r IH]; intros Hnot; cbn [destroy app fst].
  - rewrite Z.eqb_refl. reflexivity.
  - cbn [map In] in Hnot. destruct (Z.eqb_spec (fst i) this) as [E|_]; [tauto|].
    rewrite IH by tauto. reflexivity.
Qed.

Lemma get_enable_other (name other : list Z) (enabled : bool) (r : Registry Formatter) :
  other <> name -> get _ other (enable _ name enabled r) = get _ other r.
Proof.
  intros Hne. induction r as [|cat r IH]; [reflexivity|]. cbn [enable map get].
  fold (enable _ name enabled r). rewrite IH.
  destruct (decide (_name _ (snd cat) = name)) as [E|Hname].
  - rewrite (bool_decide_eq_true_2 _ E). cbn [snd Category_enable _name].
    rewrite !bool_decide_eq_false_2 by congruence. reflexivity.
  - rewrite (bool_decide_eq_false_2 _ Hname). reflexivity.
Qed.

Lemma get_enable_same (name : list Z) (enabled : bool) (r : Registry Formatter) :
  get _ name (enable _ name enabled r)
  = match get _ name r with
    | Some cat => Some (fst cat, Category_enable _ (snd cat) enabled)
    | None => None
    end.
Proof.
  induction r as [|cat r IH]; [reflexivity|]. cbn [enable map get].
  fold (enable _ name enabled r). rewrite IH.
  destruct (decide (_name _ (snd cat) = name)) as [E|Hname].
  - rewrite (bool_decide_eq_true_2 _ E). cbn [snd Category_enable _name].
    rewrite (bool_decide_eq_true_2 _ E). reflexivity.
  - rewrite !(bool_decide_eq_false_2 _ Hname). reflexivity.
Qed.

(** X27.  The log store as a map from names to categories.  With pairwise
    distinct names registered, the construction of a category fails its
    assertion exactly when the name is taken; otherwise the names stay
    pairwise distinct, [get] finds the new category under its name and every
    other name as before, [enable] sets the state of the category of that
    name only, and the destruction of the category restores the store. *)
Theorem registry_lookup (console this : Z) (name desc : list Z) (state : State)
  (visibility : Visibility) (r : Registry Formatter) :
  List.NoDup (map (fun x => _name _ (snd x)) r) ->
  match construct _ console this name desc state visibility r with
  | None => exists cat, get _ name r = Some cat
  | Some r' =>
      get _ name r = None
      /\ List.NoDup (map (fun x => _name _ (snd x)) r')
      /\ get _ name r' = Some (this, mkCategory _ name desc state visibility None console)
      /\ (forall other, other <> name -> get _ other r' = get _ other r)
      /\ (forall enabled,
            get _ name (enable _ name enabled r')
            = Some (this,
                    Category_enable _ (mkCategory _ name desc state visibility None console)
                      enabled)
            /\ forall other, other <> name ->
                 get _ other (enable _ name enabled r') = get _ other r')
      /\ (~ In this (map fst r) -> destroy _ this r' = r)
  end.
Proof.
  intros Hnodup. rewrite construct_Some.
  destruct (get _ name r) as [cat|] eqn:Hget; [exists cat; reflexivity|].
  assert (Hnew : get _ name (r ++ [(this, mkCategory _ name desc state visibility None console)])
                 = Some (this, mkCategory _ name desc state visibility None console)).
  { rewrite get_app, Hget. cbn [get snd _name].
    rewrite bool_decide_eq_true_2 by reflexivity. reflexivity. }
  split; [reflexivity|]. split.
  { rewrite map_app. cbn [map snd _name].
    apply NoDup_ListNoDup, NoDup_app. split; [apply NoDup_ListNoDup; exact Hnodup|].
    split; [|apply NoDup_singleton].
    intros x Hx Hx'. apply list_elem_of_In in Hx.
    apply list_elem_of_singleton in Hx'. subst x.
    apply get_None in Hget. contradiction. }
  split; [exact Hnew|]. split.
  { intros other Hother. rewrite get_app. destruct (get _ other r); [reflexivity|].
    cbn [get snd _name]. rewrite bool_decide_eq_false_2 by congruence. reflexivity. }
  split.
  { intros enabled. split.
    - rewrite get_enable_same, Hnew. reflexivity.
    - intros other Hother. apply get_enable_other. exact Hother. }
  apply destroy_app_new.
Qed.

Lemma equal_range_true (prefix name : list Z) :
  equal_range prefix name = true <-> exists rest, name = prefix ++ rest.
Proof.
  revert name. induction prefix as [|a prefix IH]; intros name.
  - cbn. split; [intros _; exists name; reflexivity|reflexivity].
  - destruct name as [|b name]; cbn [equal_range].
    + split; [discriminate|]. intros [rest E]. discriminate E.
    + destruct (Z.eqb_spec a b) as [->|Hne]; cbn [andb].
      * rewrite IH. split; intros [rest E]; exists rest.
        -- cbn. rewrite E. reflexivity.
        -- cbn in E. injection E as E. exact E.
      * split; [discriminate|]. intros [rest E]. cbn in E. injection E as E _.
        congruence.
Qed.

(** What the predicate of [configure] answers on one pattern. *)
Lemma filter_matches_spec (name filterPattern : list Z) :
  match filter_matches name filterPattern with
  | Some b =>
      pattern_defined name filterPattern
      /\ (b = true <-> pattern_matches name filterPattern)
  | None => ~ pattern_defined name filterPattern
  end.
Proof.
  unfold filter_matches, pattern_defined, pattern_matches.
  destruct (last filterPattern) as [back|] eqn:Hlast.
  - apply last_Some in Hlast. destruct Hlast as [prefix ->].
    rewrite removelast_last.
    destruct (Z.eqb_spec back (chr "*")) as [->|Hne]; cbn [negb].
    + unfold equal_prefix.
      destruct (Nat.ltb_spec (length name) (length prefix)) as [Hshort|Hlong].
      * intros (_ & Hdefined). specialize (Hdefined prefix eq_refl). lia.
      * split.
        { split; [destruct prefix; discriminate|].
          intros prefix' E. apply app_inj_tail in E. destruct E as [<- _]. exact Hlong. }
        rewrite equal_range_true. split.
        -- intros [rest E]. right. exists prefix, rest. auto.
        -- intros [(Habs & _)|(prefix' & rest & E & Hname)].
           ++ exfalso. apply Habs. reflexivity.
           ++ apply app_inj_tail in E. destruct E as [-> _]. exists rest. exact Hname.
    + split.
      { split; [destruct prefix; discriminate|].
        intros prefix' E. apply app_inj_tail in E. destruct E as [_ E]. congruence. }
      rewrite bool_decide_eq_true. split.
      * intros E. left. split; [congruence|exact E].
      * intros [(_ & E)|(prefix' & rest & E & _)]; [exact E|].
        apply app_inj_tail in E. destruct E as [_ E]. congruence.
  - apply last_None in Hlast. subst filterPattern. intros (Habs & _). contradiction.
Qed.

Lemma reached_cons (p : list Z) (filters : list (list Z)) (name : list Z) (i : nat) :
  pattern_defined name p -> ~ pattern_matches name p ->
  reached filters name i -> reached (p :: filters) name (S i).
Proof.
  intros Hdefined Hmatch Hreached [|j] q Hj Hq.
  - cbn in Hq. injection Hq as <-. split; assumption.
  - cbn in Hq. apply (Hreached j q); [lia|exact Hq].
Qed.

(** [crispy::any_of] decides what the patterns, tried in order, decide. *)
Lemma any_of_outcome (filters : list (list Z)) (name : list Z) :
  outcome filters name (any_of filters name).
Proof.
  induction filters as [|p filters IH]; cbn [any_of].
  - intros q [].
  - pose proof (filter_matches_spec name p) as Hp.
    destruct (filter_matches name p) as [[|]|].
    + destruct Hp as (Hdefined & Hmatch). exists 0%nat, p.
      split; [reflexivity|]. split; [intros j q Hj; lia|].
      split; [exact Hdefined|]. apply Hmatch. reflexivity.
    + destruct Hp as (Hdefined & Hmatch).
      assert (Hno : ~ pattern_matches name p).
      { intros Habs. apply Hmatch in Habs. discriminate Habs. }
      destruct (any_of filters name) as [[|]|].
      * destruct IH as (i & q & Hq & Hreached & Hrest). exists (S i), q.
        split; [exact Hq|]. split; [|exact Hrest].
        apply reached_cons; assumption.
      * intros q [<-|Hin]; [split; assumption|]. apply IH. exact Hin.
      * destruct IH as (i & q & Hq & Hreached & Hrest). exists (S i), q.
        split; [exact Hq|]. split; [|exact Hrest].
        apply reached_cons; assumption.
    + exists 0%nat, p. split; [reflexivity|]. split; [intros j q Hj; lia|exact Hp].
Qed.

Lemma lookup_In (filters : list (list Z)) (i : nat) (p : list Z) :
  filters !! i = Some p -> In p filters.
Proof. intros Hp. apply list_elem_of_In. eapply list_elem_of_lookup_2. exact Hp. Qed.

(** The patterns decide one thing only. *)
Lemma outcome_unique (filters : list (list Z)) (name : list Z) (o o' : option bool) :
  outcome filters name o -> outcome filters name o' -> o = o'.
Proof.
  assert (Hstop : forall i p i' p',
            filters !! i = Some p -> reached filters name i ->
            pattern_defined name p -> pattern_matches name p ->
            filters !! i' = Some p' -> reached filters name i' ->
            ~ pattern_defined name p' -> False).
  { intros i p i' p' Hp Hreached Hdefined Hmatch Hp' Hreached' Hundefined.
    destruct (Nat.lt_trichotomy i i') as [Hlt|[->|Hgt]].
    - destruct (Hreached' i p Hlt Hp) as (_ & Hno). contradiction.
    - rewrite Hp in Hp'. injection Hp' as <-. contradiction.
    - destruct (Hreached i' p' Hgt Hp') as (Hdefined' & _). contradiction. }
  destruct o as [[|]|], o' as [[|]|]; cbn [outcome]; intros Ho Ho';
    try reflexivity; exfalso.
  - destruct Ho as (i & p & Hp & _ & _ & Hmatch).
    destruct (Ho' p (lookup_In _ _ _ Hp)) as (_ & Hno). contradiction.
  - destruct Ho as (i & p & Hp & Hreached & Hdefined & Hmatch).
    destruct Ho' as (i' & p' & Hp' & Hreached' & Hundefined). eauto.
  - destruct Ho' as (i & p & Hp & _ & _ & Hmatch).
    destruct (Ho p (lookup_In _ _ _ Hp)) as (_ & Hno). contradiction.
  - destruct Ho' as (i & p & Hp & _ & Hundefined).
    destruct (Ho p (lookup_In _ _ _ Hp)) as (Hdefined & _). contradiction.
  - destruct Ho' as (i & p & Hp & Hreached & Hdefined & Hmatch).
    destruct Ho as (i' & p' & Hp' & Hreached' & Hundefined). eauto.
  - destruct Ho as (i & p & Hp & _ & Hundefined).
    destruct (Ho' p (lookup_In _ _ _ Hp)) as (Hdefined & _). contradiction.
Qed.

Lemma any_of_spec (filters : list (list Z)) (name : list Z) (o : option bool) :
  any_of filters name = o <-> outcome filters name o.
Proof.
  split.
  - intros <-. apply any_of_outcome.
  - intros Ho. apply (outcome_unique filters name); [apply any_of_outcome|exact Ho].
Qed.

Lemma configure_loop_some (filters : list (list Z)) (r r' : Registry Formatter) :
  configure_loop _ filters r = Some r' <->
  Forall2
    (fun old new =>
       fst new = fst old
       /\ exists enabled,
            outcome filters (_name _ (snd old)) (Some enabled)
            /\ snd new = Category_enable _ (snd old) enabled)
    r r'.
Proof.
  revert r'. induction r as [|category r IH]; intros r'; cbn [configure_loop].
  - split.
    + intros [= <-]. constructor.
    + intros Hall. inversion Hall. reflexivity.
  - pose proof (any_of_outcome filters (_name _ (snd category))) as Hany.
    destruct (any_of filters (_name _ (snd category))) as [enabled|] eqn:Eany.
    + destruct (configure_loop _ filters r) as [rest'|] eqn:Hrest.
      * split.
        -- intros [= <-]. constructor; [|apply IH; reflexivity].
           split; [reflexivity|]. exists enabled. split; [exact Hany|reflexivity].
        -- intros Hall. inversion Hall as [|old new l l' Hhead Htail]; subst.
           apply IH in Htail. injection Htail as <-.
           destruct Hhead as (Haddress & enabled' & Hout & Hnew).
           pose proof (outcome_unique _ _ _ _ Hany Hout) as Esame.
           injection Esame as <-.
           destruct new as [address c]. cbn in *. subst. reflexivity.
      * split; [discriminate|].
        intros Hall. inversion Hall as [|old new l l' Hhead Htail]; subst.
        apply IH in Htail. discriminate Htail.
    + split; [discriminate|].
      intros Hall. inversion Hall as [|old new l l' Hhead Htail]; subst.
      destruct Hhead as (_ & enabled' & Hout & _).
      pose proof (outcome_unique _ _ _ _ Hany Hout) as Habs. discriminate Habs.
Qed.

Lemma configure_loop_none (filters : list (list Z)) (r : Registry Formatter) :
  configure_loop _ filters r = None <->
  exists category, In category r /\ outcome filters (_name _ (snd category)) None.
Proof.
  induction r as [|category r IH]; cbn [configure_loop].
  - split; [discriminate|]. intros (category & [] & _).
  - pose proof (any_of_outcome filters (_name _ (snd category))) as Hany.
    destruct (any_of filters (_name _ (snd category))) as [enabled|] eqn:Eany.
    + destruct (configure_loop _ filters r) as [rest'|] eqn:Hrest.
      * split; [discriminate|].
        intros (other & [<-|Hin] & Hout).
        -- pose proof (outcome_unique _ _ _ _ Hany Hout) as Habs. discriminate Habs.
        -- assert (Habs : @None (Registry Formatter) = Some rest'); [|discriminate Habs].
           rewrite <- (proj2 IH); [reflexivity|]. exists other. auto.
      * split; [|reflexivity]. intros _.
        destruct (proj1 IH eq_refl) as (other & Hin & Hout).
        exists other. split; [right; exact Hin|exact Hout].
    + split; [|reflexivity]. intros _. exists category. split; [left; reflexivity|exact Hany].
Qed.

Lemma configure_loop_again (filters : list (list Z)) (r r' : Registry Formatter) :
  configure_loop _ filters r = Some r' -> configure_loop _ filters r' = Some r'.
Proof.
  revert r'. induction r as [|category r IH]; intros r'; cbn [configure_loop].
  - intros [= <-]. reflexivity.
  - destruct (any_of filters (_name _ (snd category))) as [enabled|] eqn:Hany;
      [|discriminate].
    destruct (configure_loop _ filters r) as [rest'|] eqn:Hrest; [|discriminate].
    intros [= <-]. cbn [configure_loop fst snd Category_enable _name].
    rewrite Hany, (IH rest' eq_refl). reflexivity.
Qed.

Variable split : list Z -> Z -> list (list Z).

(** X28.  [configure] sets the state of every category anew, whatever it
    was, or has no defined result.  The filter [all] enables every
    category.  Any other filter string is split at commas, and for each
    category the patterns are tried in order on its name, up to the first
    one that matches: a pattern that ends in an asterisk matches every name
    that begins with the rest of the pattern, any other pattern the equal
    name only.  The category ends up enabled when a pattern matches, and
    disabled when none does.  A pattern that is empty, or that has more
    before its final asterisk than the name is long, has no defined result
    on that name; [configure] has a defined result exactly when no category
    reaches such a pattern, and then it keeps the addresses and everything
    but the state of the categories.  Configuring a second time with the
    same filter changes nothing. *)
Theorem configure_spec (filterString : list Z) (r : Registry Formatter) :
  let filters := split filterString (chr ",") in
  (filterString = [chr "a"; chr "l"; chr "l"] ->
   configure _ split filterString r
   = Some (map (fun category => (fst category, Category_enable _ (snd category) true)) r))
  /\ (filterString <> [chr "a"; chr "l"; chr "l"] ->
      (forall r',
          configure _ split filterString r = Some r' <->
          Forall2
            (fun old new =>
               fst new = fst old
               /\ exists enabled,
                    outcome filters (_name _ (snd old)) (Some enabled)
                    /\ snd new = Category_enable _ (snd old) enabled)
            r r')
      /\ (configure _ split filterString r = None <->
          exists category,
            In category r /\ outcome filters (_name _ (snd category)) None))
  /\ (forall name o o',
        outcome filters name o -> outcome filters name o' -> o = o')
  /\ (forall r',
        configure _ split filterString r = Some r' ->
        configure _ split filterString r' = Some r').
Proof.
  intros filters. unfold configure. split; [|split; [|split]].
  - intros ->. rewrite bool_decide_eq_true_2 by reflexivity. reflexivity.
  - intros Hne. rewrite (bool_decide_eq_false_2 _ Hne). fold filters. split.
    + intros r'. apply configure_loop_some.
    + apply configure_loop_none.
  - intros name o o'. apply outcome_unique.
  - intros r'.
    destruct (decide (filterString = [chr "a"; chr "l"; chr "l"])) as [E|Hne].
    + rewrite (bool_decide_eq_true_2 _ E). intros [= <-].
      f_equal. rewrite map_map. apply map_ext. intros [a c]. reflexivity.
    + rewrite (bool_decide_eq_false_2 _ Hne). apply configure_loop_again.
Qed.

End WithFormatter.

Local Abbreviation error_category :=
  (mkCategory unit [chr "e"; chr "r"; chr "r"; chr "o"; chr "r"] [] Enabled Public None 0).

Local Abbreviation vt_category :=
  (mkCategory unit [chr "v"; chr "t"; chr "."; chr "p"] [] Disabled Public None 0).

Local Abbreviation pty_category :=
  (mkCategory unit [chr "p"; chr "t"; chr "y"] [] Enabled Public None 0).

(** The filter [vt*,error] enables the categories [error] and [vt.p] and
    disables [pty]; the filter [vt.pty*] has no defined result on the
    shorter name [pty], and neither has the empty pattern the filter [,pty]
    begins with. *)
Lemma configure_spec_witness :
  Forall2
    (fun old new =>
       fst new = fst old
       /\ exists enabled,
            outcome
              (split_fields
                 [chr "v"; chr "t"; chr "*"; chr ","; chr "e"; chr "r"; chr "r"; chr "o"; chr "r"]
                 (chr ","))
              (_name unit (snd old)) (Some enabled)
            /\ snd new = Category_enable unit (snd old) enabled)
    [(1, error_category); (2, vt_category); (3, pty_category)]
    [(1, Category_enable unit error_category true);
     (2, Category_enable unit vt_category true);
     (3, Category_enable unit pty_category false)]
  /\ (exists category,
        In category [(3, pty_category)]
        /\ outcome
             (split_fields [chr "v"; chr "t"; chr "."; chr "p"; chr "t"; chr "y"; chr "*"]
                (chr ","))
             (_name unit (snd category)) None)
  /\ (exists category,
        In category [(3, pty_category)]
        /\ outcome (split_fields [chr ","; chr "p"; chr "t"; chr "y"] (chr ","))
             (_name unit (snd category)) None).
Proof.
  split; [|split].
  - destruct (configure_spec (Formatter:=unit) split_fields
                [chr "v"; chr "t"; chr "*"; chr ","; chr "e"; chr "r"; chr "r"; chr "o"; chr "r"]
                [(1, error_category); (2, vt_category); (3, pty_category)])
      as (_ & Hfilter & _).
    apply (proj1 (Hfilter ltac:(discriminate))). vm_compute. reflexivity.
  - destruct (configure_spec (Formatter:=unit) split_fields
                [chr "v"; chr "t"; chr "."; chr "p"; chr "t"; chr "y"; chr "*"]
                [(3, pty_category)])
      as (_ & Hfilter & _).
    apply (proj2 (Hfilter ltac:(discriminate))). vm_compute. reflexivity.
  - destruct (configure_spec (Formatter:=unit) split_fields
                [chr ","; chr "p"; chr "t"; chr "y"]
                [(3, pty_category)])
      as (_ & Hfilter & _).
    apply (proj2 (Hfilter ltac:(discriminate))). vm_compute. reflexivity.
Defined.

(** A message without a line feed gets one. *)
Lemma message_line_witness :
  message unit (fun _ _ => [])
    (mkMessageBuilder unit (mkCategory unit [chr "v"; chr "t"] [] Enabled Public None 0)
       (mkSourceLocation [] 1 []) [chr "h"; chr "i"])
  = [chr "h"; chr "i"] ++ [newline].
Proof.
  destruct (message_line (fun _ _ => [])
              (mkMessageBuilder unit (mkCategory unit [chr "v"; chr "t"] [] Enabled Public None 0)
                 (mkSourceLocation [] 1 []) [chr "h"; chr "i"])
              (mkSink true []) eq_refl) as (_ & _ & [E|E] & _).
  - vm_compute in E. discriminate E.
  - exact E.
Defined.

(** Registering [vt] after [error] leaves [error] where it was. *)
Lemma registry_lookup_witness :
  match
    construct unit 0 2 [chr "v"; chr "t"] [] Disabled Public
      [(1, mkCategory unit [chr "e"; chr "r"; chr "r"; chr "o"; chr "r"] [] Enabled Public None 0)]
  with
  | None => False
  | Some r' =>
      get unit [chr "v"; chr "t"] r'
      = Some (2, mkCategory unit [chr "v"; chr "t"] [] Disabled Public None 0)
  end.
Proof.
  pose proof (registry_lookup (Formatter:=unit) 0 2 [chr "v"; chr "t"] [] Disabled Public
                [(1, mkCategory unit [chr "e"; chr "r"; chr "r"; chr "o"; chr "r"] []
                       Enabled Public None 0)]
                ltac:(repeat constructor; cbn; tauto)) as P.
  destruct (construct _ _ _ _ _ _ _ _) as [r'|] eqn:E.
  - apply P.
  - vm_compute in E. discriminate E.
Defined.

End LogstoreTheory.

(* ====================================================================== *)
(** * Properties of the execution scheduler *)
(* ====================================================================== *)

Module AtlasRendererTheory.

Import AtlasRenderer.

Section WithCommands.

Context {GLfloat : Type}.
Variable fadd : GLfloat -> GLfloat -> GLfloat.
Context {CreateAtlas UploadTexture DestroyAtlas : Type}.

Local Abbreviation Scheduler :=
  (ExecutionScheduler GLfloat CreateAtlas UploadTexture DestroyAtlas).

Local Abbreviation Cmd := (Command GLfloat CreateAtlas UploadTexture DestroyAtlas).

Lemma push_colors_length (n : nat) (r : RenderTexture GLfloat) (cs : list GLfloat) :
  length (push_colors _ n r cs) = (length cs + 4 * n)%nat.
Proof.
  revert cs. induction n as [|n IH]; intros cs; cbn [push_colors]; [lia|].
  rewrite IH, length_app. cbn [length]. lia.
Qed.

Lemma renderTexture_Some (s : Scheduler) (r : RenderTexture GLfloat) :
  (exists s', renderTexture _ fadd _ _ _ s r = Some s') <->
  length (vertexCoords _ _ _ _ s) = (18 * length (renderTextures _ _ _ _ s))%nat
  /\ length (colors _ _ _ _ s) = (24 * length (renderTextures _ _ _ _ s))%nat.
Proof.
  unfold renderTexture.
  rewrite !length_app, push_colors_length. cbn [length vertices].
  destruct (Nat.eqb_spec (length (vertexCoords _ _ _ _ s) + 18)
              (6 * 3 * (length (renderTextures _ _ _ _ s) + 1))) as [Ev|Hv]; cbn [negb].
  - destruct (Nat.eqb_spec (length (colors _ _ _ _ s) + 4 * 6)
                (6 * 4 * (length (renderTextures _ _ _ _ s) + 1))) as [Ec|Hc]; cbn [negb].
    + split; [intros _; lia|intros _; eexists; reflexivity].
    + split; [intros [s' E]; discriminate E|lia].
  - split; [intros [s' E]; discriminate E|lia].
Qed.

(** X29.  The scheduler keeps its three vertex buffers in step with its
    render commands: starting from a scheduler that holds 18 vertex
    coordinates, 18 texture coordinates and 24 colour components per render
    command, as a new or reset scheduler does, no list of commands fails an
    assertion, and the buffers hold 18, 18 and 24 numbers per render command
    afterwards.  [renderTexture] alone passes its assertions exactly when
    the vertex and colour buffers have these sizes beforehand.  [size] is a
    truth value: it is false exactly when no command is scheduled. *)
Theorem scheduler_invariant (s : Scheduler) (cs : list Cmd) :
  length (vertexCoords _ _ _ _ s) = (18 * length (renderTextures _ _ _ _ s))%nat ->
  length (texCoords _ _ _ _ s) = (18 * length (renderTextures _ _ _ _ s))%nat ->
  length (colors _ _ _ _ s) = (24 * length (renderTextures _ _ _ _ s))%nat ->
  StringView.size (createAtlases _ _ _ _ s) + StringView.size (uploadTextures _ _ _ _ s)
  + StringView.size (renderTextures _ _ _ _ s) + StringView.size (destroyAtlases _ _ _ _ s)
  + StringView.size cs < 2 ^ 64 ->
  exists s',
    schedule_all _ fadd _ _ _ s cs = Some s'
    /\ length (vertexCoords _ _ _ _ s') = (18 * length (renderTextures _ _ _ _ s'))%nat
    /\ length (texCoords _ _ _ _ s') = (18 * length (renderTextures _ _ _ _ s'))%nat
    /\ length (colors _ _ _ _ s') = (24 * length (renderTextures _ _ _ _ s'))%nat
    /\ (size _ _ _ _ s' = false <->
        createAtlases _ _ _ _ s' = [] /\ uploadTextures _ _ _ _ s' = []
        /\ renderTextures _ _ _ _ s' = [] /\ destroyAtlases _ _ _ _ s' = [])
    /\ size _ _ _ _ (reset _ _ _ _ s') = false
    /\ (forall r,
          (exists s'', renderTexture _ fadd _ _ _ s' r = Some s'')).
Proof.
  revert s. induction cs as [|c cs IH]; intros s Hv Ht Hc Hsize.
  - exists s. split; [reflexivity|]. split; [exact Hv|]. split; [exact Ht|].
    split; [exact Hc|]. split; [|split].
    + unfold size, StringView.size in *. cbn [length] in Hsize.
      rewrite LineContentTheory.to_size_t_small by lia.
      destruct (createAtlases _ _ _ _ s), (uploadTextures _ _ _ _ s),
        (renderTextures _ _ _ _ s), (destroyAtlases _ _ _ _ s); cbn [length];
        (split; [intros E; apply negb_false_iff, Z.eqb_eq in E; try lia; auto
                |intros (E1 & E2 & E3 & E4); try discriminate; reflexivity]).
    + reflexivity.
    + intros r. apply renderTexture_Some. split; assumption.
  - cbn [schedule_all]. unfold StringView.size in Hsize. cbn [length] in Hsize.
    destruct c as [a|t|r|a]; cbn [schedule].
    + apply IH; cbn; try assumption.
      unfold StringView.size. rewrite length_app. cbn [length]. lia.
    + apply IH; cbn; try assumption.
      unfold StringView.size. rewrite length_app. cbn [length]. lia.
    + destruct (proj2 (renderTexture_Some s r) (conj Hv Hc)) as [s' Hs'].
      rewrite Hs'. unfold renderTexture in Hs'.
      destruct (negb _) in Hs'; [discriminate Hs'|].
      destruct (negb _) in Hs'; [discriminate Hs'|].
      injection Hs' as <-.
      apply IH;
        cbn [vertexCoords texCoords colors renderTextures createAtlases uploadTextures
             destroyAtlases].
      * rewrite !length_app. cbn [length vertices]. lia.
      * rewrite !length_app. cbn [length textureCoordinates]. lia.
      * rewrite !length_app. cbn [length]. lia.
      * unfold StringView.size. rewrite length_app. cbn [length]. lia.
    + apply IH; cbn; try assumption.
      unfold StringView.size. rewrite length_app. cbn [length]. lia.
Qed.

End WithCommands.

(** Two render commands on a new scheduler. *)
Lemma scheduler_invariant_witness :
  exists s',
    schedule_all Z Z.add unit unit unit (ExecutionScheduler_init Z unit unit unit)
      [DoRenderTexture Z unit unit unit
         (mkRenderTexture Z 0 0 0 (mkTextureInfo Z 8 16 0 0 1 1 0) (fun _ => 1));
       DoRenderTexture Z unit unit unit
         (mkRenderTexture Z 8 0 0 (mkTextureInfo Z 8 16 0 0 1 1 0) (fun _ => 1))]
    = Some s'
    /\ length (vertexCoords _ _ _ _ s') = (18 * length (renderTextures _ _ _ _ s'))%nat.
Proof.
  destruct (scheduler_invariant Z.add (ExecutionScheduler_init Z unit unit unit)
              [DoRenderTexture Z unit unit unit
                 (mkRenderTexture Z 0 0 0 (mkTextureInfo Z 8 16 0 0 1 1 0) (fun _ => 1));
               DoRenderTexture Z unit unit unit
                 (mkRenderTexture Z 8 0 0 (mkTextureInfo Z 8 16 0 0 1 1 0) (fun _ => 1))]
              eq_refl eq_refl eq_refl ltac:(vm_compute; reflexivity))
    as (s' & Hs' & Hv & _).
  exists s'. split; [exact Hs'|exact Hv].
Defined.

End AtlasRendererTheory.
